(** * Appliance-parts assistant: dialogue routing and hybrid retrieval

    A shallow embedding of the Python back end (backend/app.py and
    backend/utils/{guardrails,catalog_class,rag_service}.py) together with
    the properties of the session memory, the catalogue search, the
    weighted-keyword retriever and the turn router.

    Modelling conventions.
    - A Python [str] is a Rocq [string].  Characters are treated as ASCII:
      case mapping, whitespace and the regular-expression classes [\w], [\d]
      and [[A-Z]] follow Python on the code points below 128; a byte above
      127 is neither whitespace nor alphanumeric and is left alone by
      [lower] and [upper].  Python maps the case of other characters too, so
      a statement that compares a text with its upper- or lower-cased form
      is made for ASCII text ([Py.is_ascii]).
    - A Python [dict] with string keys is a [gmap string _]; [None] values
      are [option].
    - Floating-point scores are the source's decimal constants scaled to
      integers (hundredths in the catalogue scorer, tenths in the retriever),
      so sums are exact; the Jaccard ratio is a rational.  A float sum may
      differ from the decimal sum in its last bits, which can order two
      entries whose decimal scores are equal either way: no statement here
      says how such entries are ordered.
    - Iteration over a Python [set] of strings has no fixed order; where the
      result depends on it (the brand guess) the order is an argument. *)

From Stdlib Require Import ZArith QArith Ascii String List Lia Permutation Bool.
From stdpp Require Import base option list sorting strings gmap.

Local Open Scope string_scope.

(* ===================================================================== *)
(** * Python string primitives *)
(* ===================================================================== *)

Module Py.

Definition code (c : ascii) : nat := nat_of_ascii c.

Definition between (lo hi n : nat) : bool := (lo <=? n)%nat && (n <=? hi)%nat.

Definition is_upper (c : ascii) : bool := between 65 90 (code c).
Definition is_lower (c : ascii) : bool := between 97 122 (code c).
Definition is_digit (c : ascii) : bool := between 48 57 (code c).
Definition is_alpha (c : ascii) : bool := is_upper c || is_lower c.

(** [\w] : letters, digits and the underscore. *)
Definition is_word (c : ascii) : bool :=
  is_alpha c || is_digit c || (code c =? 95)%nat.

(** [str.isspace]: TAB, LF, VT, FF, CR, FS, GS, RS, US and the blank. *)
Definition is_space (c : ascii) : bool :=
  between 9 13 (code c) || between 28 32 (code c).

Definition lower_char (c : ascii) : ascii :=
  if is_upper c then ascii_of_nat (code c + 32) else c.
Definition upper_char (c : ascii) : ascii :=
  if is_lower c then ascii_of_nat (code c - 32) else c.

Fixpoint map_chars (f : ascii -> ascii) (s : string) : string :=
  match s with
  | EmptyString => EmptyString
  | String c r => String (f c) (map_chars f r)
  end.

Fixpoint all_chars (p : ascii -> bool) (s : string) : bool :=
  match s with
  | EmptyString => true
  | String c r => p c && all_chars p r
  end.

(** [s.lower()], [s.upper()] on ASCII text. *)
Definition lower : string -> string := map_chars lower_char.
Definition upper : string -> string := map_chars upper_char.

(** [s.isascii()] *)
Definition is_ascii (s : string) : bool :=
  all_chars (fun c => (code c <? 128)%nat) s.

(** Python truthiness of a string. *)
Definition nonempty (s : string) : bool :=
  match s with EmptyString => false | String _ _ => true end.

(** [a or b] on strings. *)
Definition or_str (a b : string) : string := if nonempty a then a else b.

(** [o or d] when [o] may be [None]. *)
Definition or_none (o : option string) (d : string) : string :=
  match o with
  | Some s => or_str s d
  | None => d
  end.

(** [o or p] keeping [None] when both are falsy. *)
Definition or_opt (o p : option string) : option string :=
  match o with
  | Some s => if nonempty s then o else p
  | None => p
  end.

(** Truthiness of an optional string. *)
Definition truthy (o : option string) : bool :=
  match o with Some s => nonempty s | None => false end.

Fixpoint lstrip (s : string) : string :=
  match s with
  | EmptyString => EmptyString
  | String c r => if is_space c then lstrip r else s
  end.

Fixpoint rstrip (s : string) : string :=
  match s with
  | EmptyString => EmptyString
  | String c r =>
      match rstrip r with
      | EmptyString => if is_space c then EmptyString else String c EmptyString
      | r' => String c r'
      end
  end.

(** [s.strip()] *)
Definition strip (s : string) : string := rstrip (lstrip s).

(** [s.startswith(p)] *)
Fixpoint startswith (p s : string) : bool :=
  match p, s with
  | EmptyString, _ => true
  | String a p', String b s' => if Ascii.eqb a b then startswith p' s' else false
  | String _ _, EmptyString => false
  end.

(** [sub in s] *)
Fixpoint contains (sub s : string) : bool :=
  startswith sub s ||
  match s with
  | EmptyString => false
  | String _ r => contains sub r
  end.

(** Left-to-right scan for non-overlapping occurrences; [skip] characters
    are still covered by the previous occurrence. *)
Fixpoint count_go (sub s : string) (skip : nat) : nat :=
  match s with
  | EmptyString => 0
  | String c r =>
      match skip with
      | S k => count_go sub r k
      | O => if startswith sub s
             then S (count_go sub r (String.length sub - 1))
             else count_go sub r 0
      end
  end.

(** [s.count(sub)]; the empty string occurs [len(s) + 1] times. *)
Definition count (s sub : string) : nat :=
  match sub with
  | EmptyString => S (String.length s)
  | _ => count_go sub s 0
  end.

Fixpoint split_go (cur s : string) : list string :=
  match s with
  | EmptyString => if nonempty cur then [cur] else []
  | String c r =>
      if is_space c
      then (if nonempty cur then cur :: split_go EmptyString r
            else split_go EmptyString r)
      else split_go (cur ++ String c EmptyString) r
  end.

(** [s.split()] : split on runs of whitespace. *)
Definition split (s : string) : list string := split_go EmptyString s.

(** [sep.join(l)] *)
Fixpoint join (sep : string) (l : list string) : string :=
  match l with
  | [] => EmptyString
  | [x] => x
  | x :: r => x ++ sep ++ join sep r
  end.

(** [s.replace(a, b)] for single characters. *)
Definition replace_char (a b : ascii) (s : string) : string :=
  map_chars (fun c => if Ascii.eqb c a then b else c) s.

(** [s.capitalize()] *)
Definition capitalize (s : string) : string :=
  match s with
  | EmptyString => EmptyString
  | String c r => String (upper_char c) (lower r)
  end.

Fixpoint title_go (prev_cased : bool) (s : string) : string :=
  match s with
  | EmptyString => EmptyString
  | String c r =>
      String (if prev_cased then lower_char c else upper_char c)
             (title_go (is_alpha c) r)
  end.

(** [s.title()] *)
Definition title (s : string) : string := title_go false s.

(** Maximal prefix of characters satisfying [p], and the rest. *)
Fixpoint span (p : ascii -> bool) (s : string) : string * string :=
  match s with
  | EmptyString => (EmptyString, EmptyString)
  | String c r =>
      if p c then let '(a, b) := span p r in (String c a, b)
      else (EmptyString, s)
  end.

Fixpoint runs_go (p : ascii -> bool) (cur s : string) : list string :=
  match s with
  | EmptyString => if nonempty cur then [cur] else []
  | String c r =>
      if p c then runs_go p (cur ++ String c EmptyString) r
      else if nonempty cur then cur :: runs_go p EmptyString r
      else runs_go p EmptyString r
  end.

(** [re.findall("[p]+", s)] : the maximal runs of characters in a class. *)
Definition runs (p : ascii -> bool) (s : string) : list string :=
  runs_go p EmptyString s.

(** First [n] characters and the rest; [None] when [s] is shorter. *)
Fixpoint take (n : nat) (s : string) : option (string * string) :=
  match n with
  | O => Some (EmptyString, s)
  | S k =>
      match s with
      | EmptyString => None
      | String c r =>
          match take k r with
          | Some (a, b) => Some (String c a, b)
          | None => None
          end
      end
  end.

(** First alternative that succeeds, in the order a backtracking matcher
    tries them. *)
Fixpoint first_of {A B : Type} (alts : list A) (f : A -> option B) : option B :=
  match alts with
  | [] => None
  | a :: r => match f a with Some b => Some b | None => first_of r f end
  end.

(** [\b] after a word character: the next character is not a word
    character, or the text ends. *)
Definition at_word_end (rest : string) : bool :=
  match rest with
  | EmptyString => true
  | String c _ => negb (is_word c)
  end.

(** [re.search]: try [m] at every position from the left; [m] receives
    whether the previous character is a word character. *)
Fixpoint search_from {B : Type} (m : bool -> string -> option B)
         (prev_word : bool) (s : string) : option B :=
  match m prev_word s with
  | Some b => Some b
  | None =>
      match s with
      | EmptyString => None
      | String c r => search_from m (is_word c) r
      end
  end.

Definition re_search {B : Type} (m : bool -> string -> option B) (s : string) : option B :=
  search_from m false s.

(** [re.findall] for a pattern without groups: the matches from the left,
    each new attempt starting where the previous match ended. *)
Fixpoint findall_from (m : bool -> string -> option string)
         (prev_word : bool) (skip : nat) (s : string) : list string :=
  match skip with
  | S k =>
      match s with
      | EmptyString => []
      | String c r => findall_from m (is_word c) k r
      end
  | O =>
      match m prev_word s with
      | Some b =>
          b :: match s with
               | EmptyString => []
               | String c r => findall_from m (is_word c) (String.length b - 1) r
               end
      | None =>
          match s with
          | EmptyString => []
          | String c r => findall_from m (is_word c) 0 r
          end
      end
  end.

Definition re_findall (m : bool -> string -> option string) (s : string) : list string :=
  findall_from m false 0 s.

(** [l[:k]] for an integer [k]: a negative bound counts from the end. *)
Definition slice_to {A : Type} (k : Z) (l : list A) : list A :=
  if (0 <=? k)%Z then firstn (Z.to_nat k) l
  else firstn (length l - Z.to_nat (- k)) l.

(** [l[-n:]] for a positive literal [n]. *)
Definition last_n {A : Type} (n : nat) (l : list A) : list A :=
  skipn (length l - n) l.

End Py.

(** A stable sort into descending order, as [list.sort(key=..., reverse=True)]:
    [geb x y] says that the key of [x] is at least the key of [y]; an element
    is placed before the first later element whose key is not larger, so
    equal keys keep their original order. *)
Module StableSort.
Section Sort.
Context {A : Type} (geb : A -> A -> bool).

Fixpoint insert_desc (x : A) (l : list A) : list A :=
  match l with
  | [] => [x]
  | y :: r => if geb x y then x :: y :: r else y :: insert_desc x r
  end.

Definition sort_desc (l : list A) : list A := foldr insert_desc [] l.
End Sort.
End StableSort.

(* ===================================================================== *)
(** * backend/utils/guardrails.py *)
(* ===================================================================== *)

Module Guardrails.

Definition PART_KEYWORDS : list string :=
  [ "rack"; "basket"; "wheel"; "roller"; "gasket"; "seal"; "pump"; "motor";
    "hose"; "tube"; "inlet"; "valve"; "filter"; "water"; "drain"; "panel";
    "handle"; "latch"; "door"; "shelf"; "bin"; "drawer"; "crisper"; "light";
    "bulb"; "heating"; "element"; "thermostat"; "sensor"; "board"; "control" ].

(** Alternatives of the group in
    [PART_REGEX = \b(PS|AP|WP|WR|WD|DA|W10|W11|242|530)\d{6,}\b], in order. *)
Definition PART_PREFIXES : list string :=
  [ "PS"; "AP"; "WP"; "WR"; "WD"; "DA"; "W10"; "W11"; "242"; "530" ].

(** One attempt of [PART_REGEX] (case-insensitive) at a position: a prefix
    alternative, then the greedy [\d{6,}] backing off from the whole digit
    run down to six digits, then [\b]. *)
Definition PART_REGEX_at (prev_word : bool) (s : string) : option string :=
  if prev_word then None
  else
    Py.first_of PART_PREFIXES (fun p =>
      match Py.take (String.length p) s with
      | Some (a, r) =>
          if String.eqb (Py.upper a) p then
            let '(run, _) := Py.span Py.is_digit r in
            Py.first_of (rev (seq 6 (String.length run - 5))) (fun m =>
              match Py.take m r with
              | Some (ds, rest) =>
                  if Py.at_word_end rest then Some (a ++ ds) else None
              | None => None
              end)
          else None
      | None => None
      end).

(** [PART_REGEX.search(query)] followed by [.group(0)]. *)
Definition PART_REGEX_search (query : string) : option string :=
  Py.re_search PART_REGEX_at query.

Fixpoint has_digits_go (need : nat) (s : string) : bool :=
  match need with
  | O => true
  | S k =>
      match s with
      | EmptyString => false
      | String c r => if Py.is_digit c then has_digits_go k r else false
      end
  end.

(** Three consecutive digits somewhere in [s]. *)
Fixpoint has_3_digits (s : string) : bool :=
  has_digits_go 3 s ||
  match s with
  | EmptyString => false
  | String _ r => has_3_digits r
  end.

(** A whole word matches [\w{3,}], [\d{3,}] and then any word characters
    when three consecutive digits start at index three or later. *)
Definition model_like (w : string) : bool :=
  match Py.take 3 w with
  | Some (_, r) => has_3_digits r
  | None => false
  end.

(** [MODEL_REGEX.findall(query)], where [MODEL_REGEX] is a word boundary,
    [\w{3,}], [\d{3,}], any further word characters and a word boundary:
    every piece of the pattern consumes word characters and both ends sit
    on a word boundary, so a match is a maximal run of word characters. *)
Definition MODEL_REGEX_findall (query : string) : list string :=
  filter (fun w => Is_true (model_like w)) (Py.runs Py.is_word query).

Definition longer_eq (a b : string) : bool :=
  (String.length b <=? String.length a)%nat.

(** The result dictionary of [extract_entities], keys ["part"] and
    ["model"]. *)
Definition extract_entities (query : string) : gmap string (option string) :=
  let part_match := PART_REGEX_search query in
  let potential_models :=
    StableSort.sort_desc longer_eq (MODEL_REGEX_findall query) in
  let model_match :=
    List.find (fun model =>
                 match part_match with
                 | None => true
                 | Some pm => negb (String.eqb (Py.upper model) (Py.upper pm))
                 end) potential_models in
  {[ "part" := Py.upper <$> part_match;
     "model" := match model_match with
                | Some m => if Py.nonempty m then Some (Py.upper m) else None
                | None => None
                end ]}.

Record intent := { type : string; confidence : Q }.

Definition any_in (words : list string) (q : string) : bool :=
  existsb (fun w => Py.contains w q) words.

Definition intent_classify (query : string) : intent :=
  let q := Py.lower query in
  if any_in ["compatible"; "fit"; "work with"] q then
    {| type := "compatibility"; confidence := 95 # 100 |}
  else if any_in ["how to"; "install"; "replace"; "remove"] q then
    {| type := "installation"; confidence := 9 # 10 |}
  else if any_in ["leaking"; "not cooling"; "not draining"; "loud noise";
                  "won't start"; "ice maker not working"] q then
    {| type := "symptom"; confidence := 9 # 10 |}
  else if any_in ["find"; "need"; "buy"; "part for"; "looking for"] q
          || existsb (fun w => bool_decide (w ∈ PART_KEYWORDS)) (Py.split q) then
    {| type := "part_lookup"; confidence := 8 # 10 |}
  else
    {| type := "general_help"; confidence := 7 # 10 |}.

Definition CORE_KEYWORDS : list string :=
  [ "part"; "parts"; "model"; "number"; "serial"; "replacement"; "repair";
    "fix"; "broken"; "install"; "installation"; "guide"; "steps";
    "compatible"; "fit"; "compatibility"; "buy"; "order"; "find";
    "partselect"; "oem" ].

Definition APPLIANCE_KEYWORDS : list string :=
  [ "appliance"; "appliances"; "dishwasher"; "dish"; "washer";
    "refrigerator"; "fridge"; "freezer"; "ice"; "icemaker" ].

Definition OOS_KEYWORDS : list string :=
  [ "car"; "auto"; "truck"; "boat"; "computer"; "phone"; "tv" ].

(** The set [context_keywords] of [is_in_scope] once it has been
    extended for the appliance. *)
Definition context_keywords (appliance_context : string) : list string :=
  ([ appliance_context; "part"; "parts"; "model" ]
   ++ if String.eqb appliance_context "dishwasher"
      then [ "dishwasher"; "dish"; "rack"; "pump" ]
      else if String.eqb appliance_context "refrigerator"
      then [ "refrigerator"; "fridge"; "filter"; "ice"; "drawer"; "bin" ]
      else [])%list.

(** [is_in_scope]; the module-level set [EXTRA_CATALOG_KEYWORDS] is passed
    in.  Every set is only asked whether some member occurs in the text, so
    the order of the members plays no part. *)
Definition is_in_scope (EXTRA_CATALOG_KEYWORDS : list string)
           (query appliance_context : string) : bool :=
  let q_lower := Py.lower query in
  if any_in OOS_KEYWORDS q_lower then false
  else if any_in (context_keywords appliance_context) q_lower then true
  else
    let all_scope_words :=
      (CORE_KEYWORDS ++ APPLIANCE_KEYWORDS ++ PART_KEYWORDS
       ++ EXTRA_CATALOG_KEYWORDS)%list in
    if any_in all_scope_words q_lower then true else false.

(** The [Memory] class: [_store] maps a session id to that session's
    dictionary. *)
Module Memory.

(** The dictionary a session starts with. *)
Definition fresh : gmap string (option string) :=
  {[ "last_intent" := None; "last_part" := None; "last_model" := None ]}.

(** Returns the session's dictionary and the store, in which the session
    now exists. *)
Definition _get_or_create (session_id : string)
           (st : gmap string (gmap string (option string)))
  : gmap string (option string) * gmap string (gmap string (option string)) :=
  match st !! session_id with
  | Some session => (session, st)
  | None => (fresh, <[ session_id := fresh ]> st)
  end.

(** [get] returns a copy: a value, which later updates do not touch. *)
Definition get (session_id : string)
           (st : gmap string (gmap string (option string)))
  : gmap string (option string) * gmap string (gmap string (option string)) :=
  _get_or_create session_id st.

(** One iteration of the loop over [kwargs.items()]. *)
Definition assign (session : gmap string (option string))
           (kv : string * option string) : gmap string (option string) :=
  match session !! kv.1 with
  | Some _ => <[ kv.1 := kv.2 ]> session
  | None => session
  end.

(** [update(session_id, **kwargs)]: the keyword arguments in call
    order. *)
Definition update (session_id : string) (kwargs : list (string * option string))
           (st : gmap string (gmap string (option string)))
  : gmap string (gmap string (option string)) :=
  let '(session, st1) := _get_or_create session_id st in
  <[ session_id := fold_left assign kwargs session ]> st1.

End Memory.

End Guardrails.

(* ===================================================================== *)
(** * backend/utils/catalog_class.py *)
(* ===================================================================== *)

Module CatalogClass.

(** A catalogue entry.  A field that is absent from the dictionary is
    [None]; every reader goes through [p.get(key, default)]. *)
Record item := {
  partNumber : option string;
  name : option string;
  brand : option string;
  appliance : option string;
  category : option string;
  description : option string;
  officialURL : option string;
  installGuide : option string;
  models : list string;
  brands : list string
}.

#[global] Instance item_eq_dec : EqDecision item.
Proof. solve_decision. Defined.

(** [p.get(key, default)] *)
Definition getd (field : option string) (default : string) : option string :=
  match field with
  | Some s => Some s
  | None => Some default
  end.

(** One attempt of [PARTNUM_RE], a word boundary, [[A-Z]{1,3}],
    [\d{4,8}], [[A-Z]?] and a word boundary, case-insensitive: the greedy
    quantifiers try the larger counts first. *)
Definition PARTNUM_RE_at (prev_word : bool) (s : string) : option string :=
  if prev_word then None
  else
    Py.first_of [3; 2; 1]%nat (fun n =>
      match Py.take n s with
      | Some (ls, r1) =>
          if Py.all_chars Py.is_alpha ls then
            Py.first_of [8; 7; 6; 5; 4]%nat (fun m =>
              match Py.take m r1 with
              | Some (ds, r2) =>
                  if Py.all_chars Py.is_digit ds then
                    Py.first_of [1; 0]%nat (fun o =>
                      match Py.take o r2 with
                      | Some (os, r3) =>
                          if Py.all_chars Py.is_alpha os && Py.at_word_end r3
                          then Some (ls ++ ds ++ os)
                          else None
                      | None => None
                      end)
                  else None
              | None => None
              end)
          else None
      | None => None
      end).

(** [PARTNUM_RE.search(q)] followed by [.group(0)]. *)
Definition PARTNUM_RE_search (q : string) : option string :=
  Py.re_search PARTNUM_RE_at q.

(** The members of the set [BRANDS], in the order they are written. *)
Definition BRANDS : list string :=
  [ "whirlpool"; "maytag"; "ge"; "frigidaire"; "samsung"; "lg"; "bosch";
    "kitchenaid"; "amana"; "kenmore" ].

Definition _lc (s : option string) : string :=
  Py.lower (Py.strip (Py.or_none s "")).

Definition is_token_char (c : ascii) : bool :=
  Py.is_lower c || Py.is_digit c || Ascii.eqb c "-"%char.

(** [re.findall("[a-z0-9\-]+", _lc(s))] *)
Definition _tokens (s : string) : list string :=
  Py.runs is_token_char (_lc (Some s)).

(** The dictionary [CATEGORY_KEYS] in insertion order. *)
Definition CATEGORY_KEYS : list (string * list string) :=
  [ ("rack", ["rack"; "dishrack"; "upper"; "lower"; "basket"; "silverware";
              "cutlery"; "adjuster"; "roller"; "track"; "clip"; "drawer"; "tray"]);
    ("pump", ["pump"; "drain"; "wash"; "circulation"]);
    ("filter", ["filter"]);
    ("hose", ["hose"; "inlet"; "drain"; "line"]);
    ("valve", ["valve"; "inlet"; "water"]);
    ("door", ["door"; "gasket"; "seal"; "latch"; "hinge"]);
    ("tray", ["tray"; "shelf"; "bin"; "drawer"; "crisper"]);
    ("ice", ["ice"; "icemaker"; "ice-maker"; "auger"; "bucket"]) ].

(** [_guess_brand]; [order] is the order in which the set [BRANDS] is
    iterated. *)
Definition _guess_brand (order : list string) (t : string) : option string :=
  let tl := _lc (Some t) in
  Py.capitalize <$> List.find (fun b => Py.contains b tl) order.

Definition _guess_appliance (t : string) (default : option string) : option string :=
  let tl := _lc (Some t) in
  if Py.contains "dishwasher" tl || Py.contains "dish washer" tl then Some "dishwasher"
  else if existsb (fun k => Py.contains k tl) ["refrigerator"; "fridge"; "freezer"]
  then Some "refrigerator"
  else default.

Definition hits (keys : list string) (tl : string) : nat :=
  length (filter (fun kw => Is_true (Py.contains kw tl)) keys).

Definition _guess_category (t : string) : option string :=
  let tl := _lc (Some t) in
  fst (fold_left
         (fun (acc : option string * nat) (ck : string * list string) =>
            let k := hits ck.2 tl in
            if (acc.2 <? k)%nat then (Some ck.1, k) else acc)
         CATEGORY_KEYS (None, 0%nat)).

(** The score of one entry, in hundredths: the exact decimal sum of the
    increments the loop adds. *)
Definition score (qbrand appl cat : option string) (toks : list string) (p : item) : Z :=
  let s0 := 5%Z in
  let s1 := match qbrand with
            | Some b => if Py.nonempty b && Py.contains (_lc (Some b)) (_lc (getd (brand p) ""))
                        then (s0 + 200)%Z else s0
            | None => s0
            end in
  let s2 := match appl with
            | Some a => if Py.nonempty a && Py.contains a (_lc (getd (appliance p) ""))
                        then (s1 + 250)%Z else s1
            | None => s1
            end in
  let s3 := match cat with
            | Some c => if Py.nonempty c && Py.contains c (_lc (getd (category p) ""))
                        then (s2 + 200)%Z else s2
            | None => s2
            end in
  let lname := _lc (getd (name p) "") in
  let desc := _lc (getd (description p) "") in
  let s4 := fold_left
              (fun s t =>
                 let s' := if Py.contains t lname then (s + 60)%Z else s in
                 if Py.contains t desc then (s' + 30)%Z else s')
              toks s3 in
  if bool_decide (cat = Some "rack") && Py.contains "rack" lname
  then (s4 + 80)%Z else s4.

Definition score_geb (x y : Z * item) : bool := (y.1 <=? x.1)%Z.

(** The synthetic entry returned when nothing qualifies. *)
Definition no_local_results (query q : string) : item :=
  {| partNumber := Some "N/A";
     name := Some ("No local results for '" ++ query ++ "'.");
     brand := None; appliance := None; category := None;
     description := Some "Try the official catalog.";
     officialURL := Some ("https://www.partselect.com/Search.aspx?SearchTerm="
                          ++ Py.replace_char " "%char "+"%char q);
     installGuide := None; models := []; brands := [] |}.

(** The list [scored] after sorting. *)
Definition ranked (order : list string) (items : list item) (q : string)
  : list (Z * item) :=
  let qbrand := _guess_brand order q in
  let appl := _guess_appliance q None in
  let cat := _guess_category q in
  let toks := remove_dups (_tokens q) in
  StableSort.sort_desc score_geb
    (filter (fun sp => (60 <= sp.1)%Z)
            (map (fun p => (score qbrand appl cat toks p, p)) items)).

(** [Catalog.search(query, part, model)] over [self.items]. *)
Definition search (order : list string) (items : list item)
           (query : string) (part model : option string) : list item :=
  let q := Py.strip (Py.or_str (Py.or_none part query) "") in
  if negb (Py.nonempty q) then []
  else
    let exact :=
      match PARTNUM_RE_search q with
      | Some m =>
          let pn := Py.upper m in
          filter (fun p => _lc (getd (partNumber p) "") = _lc (Some pn)) items
      | None => []
      end in
    match exact with
    | _ :: _ => firstn 5 exact
    | [] =>
        let results := firstn 5 (map snd (ranked order items q)) in
        match results with
        | [] => [no_local_results query q]
        | _ => results
        end
    end.

Definition lookup_part (items : list item) (part : string) : option item :=
  List.find (fun p => bool_decide (_lc (getd (partNumber p) "") = _lc (Some part))) items.

Definition is_compatible (items : list item) (part model : option string)
  : bool * string :=
  let part := Py.upper (Py.strip (Py.or_none part "")) in
  let model := Py.upper (Py.strip (Py.or_none model "")) in
  if negb (Py.nonempty part) || negb (Py.nonempty model) then
    (false, "Please provide both a part number and a full model number.")
  else
    let hit := lookup_part items part in
    let listed := match hit with
                  | Some h => bool_decide (model ∈ map Py.upper (models h))
                  | None => false
                  end in
    if listed then (true, "✅ " ++ part ++ " fits model " ++ model ++ ".")
    else
      let url := "https://www.partselect.com/ModelSearch.aspx?SearchTerm="
                 ++ model ++ "+" ++ part in
      let tip := "Tip: model numbers are on the rating tag; include all suffix letters." in
      match hit with
      | Some h =>
          let known := Py.join ", " (brands h) in
          (false, "Compatibility for " ++ model
                  ++ " not confirmed locally (known brand(s): "
                  ++ Py.or_str known "N/A" ++ "). Check: " ++ url
                  ++ String (ascii_of_nat 10) tip)
      | None =>
          (false, "I couldn’t find " ++ part ++ " locally. Verify here: " ++ url)
      end.

Definition install_guide (items : list item) (part : option string) : string :=
  let part := Py.upper (Py.strip (Py.or_none part "")) in
  if negb (Py.nonempty part) then
    "Please provide a part number (e.g., 'How to install WP2188656')."
  else
    let hit := lookup_part items part in
    let nl := String (ascii_of_nat 10) EmptyString in
    match hit with
    | Some h =>
        if Py.truthy (installGuide h) then Py.or_none (installGuide h) ""
        else
          let base :=
            if Py.contains "rack" (_lc (getd (category h) ""))
            then "1) Disconnect power" ++ nl
                 ++ "2) Remove rack; release clips/rollers/adjusters" ++ nl
                 ++ "3) Seat and align replacement; test slide"
            else "1) Disconnect power/water" ++ nl
                 ++ "2) Remove the faulty component" ++ nl
                 ++ "3) Install replacement; restore and test" in
          "General guide for " ++ part ++ ":" ++ nl ++ base
    | None =>
        "General guide for " ++ part ++ ":" ++ nl
        ++ "1) Disconnect power/water" ++ nl
        ++ "2) Remove the faulty component" ++ nl
        ++ "3) Install replacement; restore and test"
    end.

(** The post-filter of [find_parts]: an entry is kept unless a supplied
    hint fails its substring check. *)
Definition keeps (appliance_type brand_hint category_hint : option string) (p : item) : bool :=
  negb (Py.truthy appliance_type
        && negb (Py.contains (Py.lower (Py.or_none appliance_type ""))
                             (_lc (getd (appliance p) ""))))
  && negb (Py.truthy brand_hint
           && negb (Py.contains (_lc brand_hint) (_lc (getd (brand p) ""))))
  && negb (Py.truthy category_hint
           && negb (Py.contains (_lc category_hint) (_lc (getd (category p) "")))).

Definition find_parts (order : list string) (items : list item)
           (appliance_type brand_hint category_hint query : option string) : list item :=
  let q := Py.strip
             (Py.join " "
                (filter (fun x => Is_true (Py.nonempty x))
                        [ Py.or_none query ""; Py.or_none brand_hint "";
                          Py.or_none appliance_type ""; Py.or_none category_hint "" ])) in
  let res := search order items (Py.or_str q (Py.or_none category_hint "")) None None in
  match res with
  | r0 :: _ =>
      if bool_decide (partNumber r0 = Some "N/A") then res
      else
        match List.filter (keeps appliance_type brand_hint category_hint) res with
        | [] => res
        | out => out
        end
  | [] => res
  end.

(** [featured]: the first six entries. *)
Definition featured (items : list item) : list item := firstn 6 items.

(** The key by which [_parse_html_to_items] recognises a repeated entry. *)
Definition dedupe_key (p : item) : string * string :=
  (_lc (getd (partNumber p) ""), _lc (getd (name p) "")).

(** The loop that closes [_parse_html_to_items]: an entry whose key has
    been seen is skipped, any other is kept and its key recorded. *)
Fixpoint dedupe_go (seen : gset (string * string)) (out : list item) : list item :=
  match out with
  | [] => []
  | p :: r =>
      if decide (dedupe_key p ∈ seen) then dedupe_go seen r
      else p :: dedupe_go ({[ dedupe_key p ]} ∪ seen) r
  end.

Definition dedupe (out : list item) : list item := dedupe_go ∅ out.

End CatalogClass.

(* ===================================================================== *)
(** * backend/utils/rag_service.py *)
(* ===================================================================== *)

Module RagService.

(** The literal [weights] dictionary of [search], in tenths. *)
Definition base_weights : gmap string Z :=
  list_to_map
    [ ("dishwasher", 30%Z); ("refrigerator", 30%Z);
      ("rack", 18%Z); ("filter", 18%Z); ("drawer", 18%Z); ("bin", 18%Z);
      ("ice maker", 20%Z); ("pump", 15%Z); ("hose", 12%Z); ("basket", 12%Z);
      ("whirlpool", 25%Z); ("kenmore", 25%Z); ("maytag", 25%Z); ("lg", 25%Z) ].

(** The dictionary after
    [if appliance_context in weights: weights[appliance_context] = 5.0]. *)
Definition weights (appliance_context : string) : gmap string Z :=
  match base_weights !! appliance_context with
  | Some _ => <[ appliance_context := 50%Z ]> base_weights
  | None => base_weights
  end.

(** [weights.get(term, 1.0)] *)
Definition term_weight (appliance_context term : string) : Z :=
  default 10%Z (weights appliance_context !! term).

(** [query.lower().split()] with the appliance context appended. *)
Definition query_terms (query appliance_context : string) : list string :=
  (Py.split (Py.lower query) ++ [appliance_context])%list.

(** The score of one document, in tenths. *)
Definition doc_score (terms : list string) (appliance_context doc : string) : Z :=
  let doc_lower := Py.lower doc in
  fold_left
    (fun score term =>
       (score + Z.of_nat (Py.count doc_lower term) * term_weight appliance_context term)%Z)
    terms 0%Z.

Definition score_geb (x y : string * Z) : bool := (y.2 <=? x.2)%Z.
Definition sim_geb (x y : string * Q) : bool := Qle_bool y.2 x.2.

Definition word_set (s : string) : gset string :=
  list_to_set (Py.split (Py.lower s)).

(** [inter / union if union else 0] *)
Definition jaccard (query_set doc_set : gset string) : Q :=
  let inter := size (query_set ∩ doc_set) in
  let union := size (query_set ∪ doc_set) in
  match union with
  | O => 0%Q
  | S _ => Z.of_nat inter # Pos.of_nat union
  end.

Definition _fallback_similarity (docs : list string) (query : string)
  : list (string * Q) :=
  let query_set := word_set query in
  StableSort.sort_desc sim_geb
    (List.filter (fun ds => negb (Qle_bool ds.2 (5 # 100)))
            (map (fun doc => (doc, jaccard query_set (word_set doc))) docs)).

(** The weighted-keyword stage: documents with a positive score, sorted. *)
Definition weighted (docs : list string) (query appliance_context : string)
  : list (string * Z) :=
  let terms := query_terms query appliance_context in
  StableSort.sort_desc score_geb
    (filter (fun ds => (0 < ds.2)%Z)
            (map (fun doc => (doc, doc_score terms appliance_context doc)) docs)).

Definition NO_DOCS : string := "(Internal Error: No RAG documents loaded.)".

(** [RAGService.search(query, appliance_context, k)] over [self.docs]. *)
Definition search (docs : list string) (query appliance_context : string) (k : Z)
  : list string :=
  match docs with
  | [] => [NO_DOCS]
  | _ =>
      let scores := weighted docs query appliance_context in
      let ranked_docs :=
        match scores with
        | [] => map fst (_fallback_similarity docs query)
        | _ => map fst scores
        end in
      Py.slice_to k ranked_docs
  end.

(** Keyword cascade of [classify_intent]. *)
Definition classify_intent (query : string) : string :=
  let q := Py.lower query in
  if Guardrails.any_in ["compatible"; "fit"; "works with"] q then "compatibility"
  else if Guardrails.any_in ["how to"; "replace"; "install"; "fix"; "repair"; "broken"] q
  then "repair_guide"
  else if Guardrails.any_in ["rack"; "filter"; "pump"; "hose"; "basket"; "drawer";
                             "bin"; "ice maker"] q
  then "part_lookup"
  else if Guardrails.any_in ["clean"; "maintain"; "how often"; "smell"] q
  then "maintenance"
  else "general_help".

(** The pieces [build_prompt] interpolates into its fixed template. *)
Record prompt := {
  prompt_appliance : string;
  prompt_intent : string;
  prompt_history : string;
  prompt_context : string;
  prompt_query : string
}.

Definition build_prompt (user_query : string) (retrieved_docs : list string)
           (chat_history : list (string * string)) (appliance_context : string)
  : prompt :=
  let nl := String (ascii_of_nat 10) EmptyString in
  {| prompt_appliance := appliance_context;
     prompt_intent := classify_intent user_query;
     prompt_history :=
       Py.join nl (map (fun msg => msg.1 ++ ": " ++ msg.2) chat_history);
     prompt_context :=
       match retrieved_docs with
       | [] => "(No context found)"
       | _ => Py.join (nl ++ nl) (firstn 3 retrieved_docs)
       end;
     prompt_query := user_query |}.

End RagService.

(* ===================================================================== *)
(** * backend/utils/part_service.py *)
(* ===================================================================== *)

Module PartService.

Import CatalogClass.

Definition NO_GUIDE : string :=
  "No specific guide available. Refer to general replacement steps.".

(** [CatalogService.get_install_guide] over the catalogue's entries. *)
Definition get_install_guide (items : list item) (part model : option string) : string :=
  let guide := install_guide items part in
  Py.or_str guide NO_GUIDE.

(** [CatalogService.check_compatibility] *)
Definition check_compatibility (items : list item) (part model : option string)
  : bool * string :=
  is_compatible items part model.

End PartService.

(* ===================================================================== *)
(** * backend/app.py *)
(* ===================================================================== *)

Module App.

Import CatalogClass.

Record ChatIn := {
  message : string;
  part : option string;
  model : option string;
  appliance : string
}.

Record ChatOut := {
  response : string;
  intent : string;
  memory : gmap string (option string)
}.

(** The service objects created at start-up.  [find_parts] answers [None]
    when the call raises, which the part-search block catches; [llm] is
    [None] when the language-model client could not be created. *)
Record services := {
  find_parts : option string -> option string -> option string -> option string
               -> option (list item);
  install_guide : option string -> string;
  is_compatible : option string -> option string -> bool * string;
  rag_search : string -> string -> Z -> list string;
  llm : option (RagService.prompt -> string)
}.

(** The services over a loaded catalogue and document corpus. *)
Definition live (order : list string) (items : list item) (docs : list string)
           (answer : option (RagService.prompt -> string)) : services :=
  {| find_parts := fun a b c q => Some (CatalogClass.find_parts order items a b c q);
     install_guide := CatalogClass.install_guide items;
     is_compatible := CatalogClass.is_compatible items;
     rag_search := RagService.search docs;
     llm := answer |}.

(** Calls a turn makes, in order. *)
Inductive event :=
| MemoryUpdate (session_id : string) (kwargs : list (string * option string))
| FindParts (appliance_type brand category query : option string)
            (outcome : option (list item))
| InstallGuide (part : option string)
| IsCompatible (part model : option string)
| RagSearch (query appliance_context : string) (k : Z)
| LlmAnswer (p : RagService.prompt).

(** The module-level objects [memory] and [chat_memory], and the calls
    made so far. *)
Record world := {
  store : gmap string (gmap string (option string));
  chat_memory : gmap string (list (string * string));
  trace : list event
}.

Definition M (A : Type) : Type := world -> A * world.

#[global] Instance M_ret : MRet M := fun A a w => (a, w).
#[global] Instance M_bind : MBind M :=
  fun A B f m w => let '(a, w') := m w in f a w'.

Definition emit (e : event) : M unit :=
  fun w => (tt, {| store := store w; chat_memory := chat_memory w;
                   trace := (trace w ++ [e])%list |}).

Definition memory_get (session_id : string) : M (gmap string (option string)) :=
  fun w =>
    let '(snapshot, st) := Guardrails.Memory.get session_id (store w) in
    (snapshot, {| store := st; chat_memory := chat_memory w; trace := trace w |}).

Definition memory_update (session_id : string) (kwargs : list (string * option string))
  : M unit :=
  fun w =>
    (tt, {| store := Guardrails.Memory.update session_id kwargs (store w);
            chat_memory := chat_memory w;
            trace := (trace w ++ [MemoryUpdate session_id kwargs])%list |}).

(** Appends the user message to the session's history and trims the stored
    list to its last eight entries; the untrimmed list is what the turn
    keeps using as [session_chat_history]. *)
Definition push_user (session_id q : string) : M (list (string * string)) :=
  fun w =>
    let history := (default [] (chat_memory w !! session_id) ++ [("user", q)])%list in
    let stored := if (8 <? length history)%nat then Py.last_n 8 history else history in
    (history, {| store := store w;
                 chat_memory := <[ session_id := stored ]> (chat_memory w);
                 trace := trace w |}).

(** [chat_memory[x_session_id].append(...)] *)
Definition push_assistant (session_id reply : string) : M unit :=
  fun w =>
    (tt, {| store := store w;
            chat_memory :=
              <[ session_id :=
                   (default [] (chat_memory w !! session_id)
                    ++ [("assistant", reply)])%list ]>
                (chat_memory w);
            trace := trace w |}).

Definition NO_CONTENT : string := "(LLM returned no content.)".

Definition never_empty (text : string) : string :=
  if negb (Py.nonempty text) then NO_CONTENT
  else
    let t := Py.strip text in
    if negb (Py.nonempty t) || bool_decide (Py.lower t ∈ ["none"; "null"; "nan"])
    then NO_CONTENT
    else t.

Definition _other_appliance_hint (q current : string) : option string :=
  let s := Py.lower q in
  if Guardrails.any_in ["fridge"; "refrigerator"; "freezer"] s then
    if bool_decide (current ≠ "refrigerator") then Some "refrigerator" else None
  else if Guardrails.any_in ["dishwasher"; "dish washer"] s then
    if bool_decide (current ≠ "dishwasher") then Some "dishwasher" else None
  else None.

Definition _format_part_list (parts : list item) : string :=
  Py.join (String (ascii_of_nat 10) EmptyString)
    (map (fun p =>
            "• " ++ default "Unknown" (partNumber p) ++ " – "
                 ++ default "Unnamed" (name p)
                 ++ " (" ++ Py.capitalize (Py.or_none (CatalogClass.appliance p) "")
                 ++ ", " ++ default "" (brand p) ++ ")")
         (firstn 5 parts)).

Definition part_search_keywords : list string :=
  [ "show me"; "find"; "replacement"; "rack"; "pump"; "valve"; "filter";
    "tray"; "basket"; "drawer"; "bin"; "door"; "crisper"; "shelf"; "track";
    "roller"; "adjuster" ].

Definition category_keywords : list string :=
  [ "rack"; "pump"; "filter"; "hose"; "tray"; "door"; "handle";
    "drawer"; "basket"; "bin"; "valve"; "crisper"; "shelf"; "track";
    "roller"; "adjuster" ].

(** The alternatives of the brand pattern, a brand name between word
    boundaries, matched case-insensitively. *)
Definition BRAND_ALTERNATIVES : list string :=
  [ "whirlpool"; "maytag"; "ge"; "frigidaire"; "samsung"; "lg"; "bosch";
    "kitchenaid"; "amana"; "kenmore" ].

Definition brand_at (prev_word : bool) (s : string) : option string :=
  if prev_word then None
  else
    Py.first_of BRAND_ALTERNATIVES (fun b =>
      match Py.take (String.length b) s with
      | Some (a, rest) =>
          if String.eqb (Py.lower a) b && Py.at_word_end rest then Some a else None
      | None => None
      end).

(** [(mem or {}).get("last_switch_refused_for")] *)
Definition refused_for_of (mem : gmap string (option string)) : option string :=
  mjoin (mem !! "last_switch_refused_for").

(** [d.setdefault(k, v)] *)
Definition setdefault (k : string) (v : option string)
           (d : gmap string (option string)) : gmap string (option string) :=
  match d !! k with
  | Some _ => d
  | None => <[ k := v ]> d
  end.

(** Step [4]: the entities of the message, then the declared part and
    model, then the remembered ones. *)
Definition entities (inp : ChatIn) (q : string) (mem : gmap string (option string))
  : gmap string (option string) :=
  let ent := Guardrails.extract_entities q in
  let ent := if Py.truthy (part inp) then setdefault "part" (part inp) ent else ent in
  let ent := if Py.truthy (model inp) then setdefault "model" (model inp) ent else ent in
  let ent := <[ "part" := Py.or_opt (mjoin (ent !! "part")) (mjoin (mem !! "last_part")) ]> ent in
  <[ "model" := Py.or_opt (mjoin (ent !! "model")) (mjoin (mem !! "last_model")) ]> ent.

Definition nl : string := String (ascii_of_nat 10) EmptyString.

Section Chat.

Variable svc : services.

(** The body of the [try] block of step [6]; [None] when the call into
    the catalogue raised and the [except] clause swallowed it. *)
Definition part_search (q cur_appliance : string)
           (mem : gmap string (option string)) (x_session_id : string)
  : M (option ChatOut) :=
  let brand := Py.re_search brand_at q in
  let category := List.find (fun w => Py.contains w (Py.lower q)) category_keywords in
  let other := _other_appliance_hint q cur_appliance in
  let refused_for := refused_for_of mem in
  let stays := Py.truthy other && bool_decide (refused_for = other) in
  let appliance_hint := if stays then Py.or_none other "" else cur_appliance in
  let outcome := find_parts svc (Some appliance_hint) brand category (Some q) in
  _ ← emit (FindParts (Some appliance_hint) brand category (Some q) outcome);
  match outcome with
  | None => mret None
  | Some results =>
      let switch_note :=
        if stays
        then nl ++ nl ++ "(You mentioned <strong>" ++ Py.or_none other ""
             ++ "</strong> but chose to stay. "
             ++ "You can switch anytime with the floating toggle.)"
        else "" in
      let listed :=
        match results with
        | r0 :: _ => negb (bool_decide (partNumber r0 = Some "N/A"))
        | [] => false
        end in
      if listed then
        let list_str := _format_part_list results in
        m ← memory_get x_session_id;
        mret (Some {| response :=
                        "Here are some " ++ Py.or_none category "relevant"
                        ++ " parts I found for "
                        ++ Py.or_none brand (Py.title appliance_hint)
                        ++ ":" ++ switch_note ++ nl ++ list_str;
                      intent := "part_search";
                      memory := m |})
      else
        let fallback_url :=
          match results with
          | r0 :: _ => officialURL r0
          | [] => None
          end in
        let link :=
          if Py.truthy fallback_url
          then nl ++ "Try the official catalog: " ++ Py.or_none fallback_url ""
          else "" in
        m ← memory_get x_session_id;
        mret (Some {| response :=
                        "I couldn’t find specific " ++ Py.or_none category "replacement"
                        ++ " parts locally for " ++ Py.or_none brand "this brand"
                        ++ " " ++ cur_appliance ++ "." ++ switch_note ++ link;
                      intent := "part_search";
                      memory := m |})
  end.

(** Step [9]: retrieval, prompt, language model. *)
Definition fallback (q cur_appliance itype : string)
           (session_chat_history : list (string * string)) (x_session_id : string)
  : M ChatOut :=
  let docs := rag_search svc q cur_appliance 6 in
  _ ← emit (RagSearch q cur_appliance 6);
  let prompt := RagService.build_prompt q docs session_chat_history cur_appliance in
  reply ← match llm svc with
          | Some answer =>
              _ ← emit (LlmAnswer prompt);
              mret (never_empty (answer prompt))
          | None => mret "LLM unavailable."
          end;
  _ ← push_assistant x_session_id reply;
  _ ← memory_update x_session_id [("last_intent", Some itype)];
  m ← memory_get x_session_id;
  mret {| response := reply; intent := itype; memory := m |}.

(** Steps [7] to [9], entered with the intent left by step [6]. *)
Definition handlers (q cur_appliance itype : string)
           (ent mem : gmap string (option string))
           (session_chat_history : list (string * string)) (x_session_id : string)
  : M ChatOut :=
  if String.eqb itype "installation" then
    let part_num := mjoin (ent !! "part") in
    let guide := install_guide svc part_num in
    _ ← emit (InstallGuide part_num);
    _ ← memory_update x_session_id
          [("last_part", part_num); ("last_intent", Some "installation")];
    m ← memory_get x_session_id;
    mret {| response := guide; intent := "installation"; memory := m |}
  else
    let part_num := Py.or_opt (mjoin (ent !! "part")) (mjoin (mem !! "last_part")) in
    let model_hint := Py.or_opt (mjoin (ent !! "model")) (mjoin (mem !! "last_model")) in
    if String.eqb itype "compatibility" && Py.truthy part_num && Py.truthy model_hint
    then
      let '(ok, message) := is_compatible svc part_num model_hint in
      _ ← emit (IsCompatible part_num model_hint);
      _ ← memory_update x_session_id
            [("last_part", part_num); ("last_model", model_hint);
             ("last_intent", Some "compatibility")];
      m ← memory_get x_session_id;
      mret {| response := message; intent := "compatibility"; memory := m |}
    else fallback q cur_appliance itype session_chat_history x_session_id.

(** The [/chat] endpoint: one turn.  Step [3], the soft scope guard,
    only writes a log line and has no counterpart here. *)
Definition chat (inp : ChatIn) (x_session_id : string) : M ChatOut :=
  let q := Py.strip (Py.or_str (message inp) "") in
  let cur_appliance := Py.lower (Py.or_str (appliance inp) "dishwasher") in
  session_chat_history ← push_user x_session_id q;
  if Py.contains "user refused switch" (Py.lower q) then
    _ ← memory_update x_session_id [("last_switch_refused_for", Some cur_appliance)];
    m ← memory_get x_session_id;
    mret {| response := "Got it — staying with your current " ++ cur_appliance
                        ++ " context.";
            intent := "ack_refuse";
            memory := m |}
  else
    mem ← memory_get x_session_id;
    let alt_appliance := _other_appliance_hint q cur_appliance in
    let refused_for := refused_for_of mem in
    if Py.truthy alt_appliance && negb (bool_decide (refused_for = alt_appliance)) then
      mret {| response :=
                "It sounds like you’re asking about a <strong>"
                ++ Py.or_none alt_appliance "" ++ "</strong>. "
                ++ "You can say “switch to " ++ Py.or_none alt_appliance ""
                ++ "” or click the switch button to change context.";
              intent := "switch_suggestion";
              memory := mem |}
    else
      let ent := entities inp q mem in
      let itype := Guardrails.type (Guardrails.intent_classify q) in
      if Guardrails.any_in part_search_keywords (Py.lower q) then
        found ← part_search q cur_appliance mem x_session_id;
        match found with
        | Some out => mret out
        | None =>
            handlers q cur_appliance "part_search" ent mem
                     session_chat_history x_session_id
        end
      else
        handlers q cur_appliance itype ent mem session_chat_history x_session_id.

End Chat.

(** The catalogue-driven scope keywords computed at start-up: the
    lower-cased part number and name of every entry that has one. *)
Definition extra_keywords (items : list item) : list string :=
  (omap (fun i => match partNumber i with
                  | Some s => if Py.nonempty s then Some (Py.lower s) else None
                  | None => None
                  end) items
   ++ omap (fun i => match name i with
                     | Some s => if Py.nonempty s then Some (Py.lower s) else None
                     | None => None
                     end) items)%list.

(** The state of a freshly started process. *)
Definition boot : world := {| store := ∅; chat_memory := ∅; trace := [] |}.

(** Runs one turn with an empty call log and returns the reply, the new
    process state and the calls of this turn. *)
Definition turn (svc : services) (inp : ChatIn) (x_session_id : string) (w : world)
  : ChatOut * world :=
  chat svc inp x_session_id
       {| store := store w; chat_memory := chat_memory w; trace := [] |}.

End App.

(* ===================================================================== *)
(** * Notions used to state the properties *)
(* ===================================================================== *)

(** The process state after a sequence of turns, each a request with its
    session id, starting from a fresh process. *)
Definition run (svc : App.services) (turns : list (App.ChatIn * string)) : App.world :=
  fold_left (fun w t => (App.turn svc t.1 t.2 w).2) turns App.boot.

(** No session record of the store has a [last_switch_refused_for] key. *)
Definition lacks_refusal_field (st : gmap string (gmap string (option string))) : Prop :=
  ∀ session_id session,
    st !! session_id = Some session → session !! "last_switch_refused_for" = None.

(** A computation of the router that keeps the store free of the
    [last_switch_refused_for] key and whose result satisfies [Q]. *)
Definition keeps_lacking {A : Type} (m : App.M A) (Q : A → Prop) : Prop :=
  ∀ w, lacks_refusal_field (App.store w) →
       lacks_refusal_field (App.store (m w).2) ∧ Q (m w).1.

(** The request the front end sends when the user declines a switch. *)
Definition refusal_request (appliance : string) : App.ChatIn :=
  {| App.message := "user refused switch"; App.part := None; App.model := None;
     App.appliance := appliance |}.

(** A handler call of the installation or compatibility step. *)
Definition is_handler_call (e : App.event) : bool :=
  match e with
  | App.InstallGuide _ | App.IsCompatible _ _ => true
  | _ => false
  end.

(** A part search that returned normally. *)
Definition is_completed_part_search (e : App.event) : bool :=
  match e with
  | App.FindParts _ _ _ _ (Some _) => true
  | _ => false
  end.

(** The memory snapshot of a reply has no [last_switch_refused_for] key. *)
Definition snapshot_lacks (out : App.ChatOut) : Prop :=
  App.memory out !! "last_switch_refused_for" = None.

(** The text of a request as the router reads it, and its appliance
    context. *)
Definition text_of (inp : App.ChatIn) : string :=
  Py.strip (Py.or_str (App.message inp) "").
Definition context_of (inp : App.ChatIn) : string :=
  Py.lower (Py.or_str (App.appliance inp) "dishwasher").

(** The part-pattern tokens of a text: all matches of [PARTNUM_RE]. *)
Definition part_tokens (q : string) : list string :=
  Py.re_findall CatalogClass.PARTNUM_RE_at q.

(** The entries whose part number equals [pn] after trimming and case
    folding, in catalogue order. *)
Definition with_part_number (pn : string) (items : list CatalogClass.item)
  : list CatalogClass.item :=
  filter (fun p => CatalogClass._lc (CatalogClass.getd (CatalogClass.partNumber p) "")
                   = CatalogClass._lc (Some pn)) items.

(** Entries used in the worked examples. *)
Module Samples.

Definition entry (pn nm br ap ct ds : string) : CatalogClass.item :=
  {| CatalogClass.partNumber := Some pn;
     CatalogClass.name := Some nm;
     CatalogClass.brand := Some br;
     CatalogClass.appliance := Some ap;
     CatalogClass.category := Some ct;
     CatalogClass.description := Some ds;
     CatalogClass.officialURL := None;
     CatalogClass.installGuide := None;
     CatalogClass.models := [];
     CatalogClass.brands := [br] |}.

Definition upper_rack : CatalogClass.item :=
  entry "PS11752778" "Upper Rack" "Whirlpool" "dishwasher" "rack" "".
Definition rack_wheel : CatalogClass.item :=
  entry "PS11752778" "Rack Wheel Kit" "Whirlpool" "dishwasher" "rack" "".
Definition drain_pump : CatalogClass.item :=
  entry "WPW10348269" "Drain Pump" "Maytag" "dishwasher" "pump" "".
Definition bosch_rack : CatalogClass.item :=
  entry "W10350375" "Lower Rack" "Bosch" "dishwasher" "rack" "".
Definition ge_shelf : CatalogClass.item :=
  entry "WR71X10973" "Shelf" "GE" "refrigerator" "tray" "".
Definition other_shelf : CatalogClass.item :=
  entry "WP2188656" "shelf for ge fridge" "Whirlpool" "refrigerator" "tray"
        "ge fridge shelf".

End Samples.

(** [f] holds of every non-empty suffix of [kw]. *)
Fixpoint suffix_forall (f : string → bool) (kw : string) : bool :=
  match kw with
  | EmptyString => true
  | String _ r => f kw && suffix_forall f r
  end.

(** A suffix that cannot begin at a run of blanks followed by [b]: it
    starts with a non-blank, or with one blank followed by a non-blank tail
    that [b] does not start with. *)
Definition tail_ok (b suf : string) : bool :=
  match suf with
  | EmptyString => true
  | String c r =>
      negb (Py.is_space c)
      || match r with
         | EmptyString => false
         | String d _ => negb (Py.is_space d) && negb (Py.startswith r b)
         end
  end.

(** The keyword [kw] can occur in a text followed by blanks and [b] only
    inside the text. *)
Definition sep_safe (b kw : string) : bool :=
  Py.nonempty kw && suffix_forall (tail_ok b) kw && negb (Py.contains kw b).

(** The query with a brand token appended. *)
Definition with_brand (query b : string) : string := query ++ " " ++ b.

(** The score [search] gives an entry for the text [q]. *)
Definition score_of (order : list string) (q : string) (p : CatalogClass.item) : Z :=
  CatalogClass.score (CatalogClass._guess_brand order q)
                     (CatalogClass._guess_appliance q None)
                     (CatalogClass._guess_category q)
                     (remove_dups (CatalogClass._tokens q)) p.

(** What one query token adds to the score of an entry. *)
Definition tok_bonus (p : CatalogClass.item) (t : string) : Z :=
  ((if Py.contains t (CatalogClass._lc (CatalogClass.getd (CatalogClass.name p) ""))
    then 60 else 0)
   + (if Py.contains t (CatalogClass._lc (CatalogClass.getd (CatalogClass.description p) ""))
      then 30 else 0))%Z.

Definition tok_sum (p : CatalogClass.item) (toks : list string) : Z :=
  foldr (fun t acc => (tok_bonus p t + acc)%Z) 0%Z toks.

(** The query matches the entry by category. *)
Definition matches_category (q : string) (p : CatalogClass.item) : Prop :=
  ∃ c, CatalogClass._guess_category q = Some c
       ∧ Py.contains c (CatalogClass._lc (CatalogClass.getd (CatalogClass.category p) ""))
         = true.

(** The brand field of the entry holds the brand name [b]. *)
Definition brand_field_has (b : string) (p : CatalogClass.item) : bool :=
  Py.contains b (CatalogClass._lc (CatalogClass.getd (CatalogClass.brand p) "")).

(** Every keyword the catalogue scorer looks for in a query, other than
    the brands. *)
Definition scorer_keywords : list string :=
  (["dishwasher"; "dish washer"; "refrigerator"; "fridge"; "freezer"]
   ++ concat (map snd CatalogClass.CATEGORY_KEYS))%list.

(** The facts about one brand name that the monotonicity proof uses, as a
    computable check: it is in stripped lower case, made of token
    characters, restored by case folding after [capitalize], and neither a
    scorer keyword nor another brand can overlap it across a blank. *)
Definition brand_checks (b : string) : bool :=
  String.eqb (Py.rstrip b) b
  && Py.nonempty b
  && String.eqb (Py.lower b) b
  && Py.all_chars CatalogClass.is_token_char b
  && String.eqb (CatalogClass._lc (Some (Py.capitalize b))) b
  && Py.nonempty (Py.capitalize b)
  && forallb (sep_safe b) scorer_keywords
  && forallb (fun b' => String.eqb b' b || sep_safe b b') CatalogClass.BRANDS.

(** The two operations of the [Memory] class, and the store they leave
    when applied in order to a new [Memory] object. *)
Inductive memory_op :=
| OpGet (session_id : string)
| OpUpdate (session_id : string) (kwargs : list (string * option string)).

Definition apply_op (st : gmap string (gmap string (option string))) (op : memory_op)
  : gmap string (gmap string (option string)) :=
  match op with
  | OpGet session_id => (Guardrails.Memory.get session_id st).2
  | OpUpdate session_id kwargs => Guardrails.Memory.update session_id kwargs st
  end.

Definition after_ops (ops : list memory_op) : gmap string (gmap string (option string)) :=
  fold_left apply_op ops ∅.

(** The keys of a session record. *)
Definition SESSION_FIELDS : gset string :=
  {[ "last_intent"; "last_part"; "last_model" ]}.

(** Every session record of the store has exactly the three keys. *)
Definition well_keyed (st : gmap string (gmap string (option string))) : Prop :=
  map_Forall (fun _ session => dom session = SESSION_FIELDS) st.

(** A computation of the router started in a state satisfying [P] ends
    with a result and a state satisfying [Q]. *)
Definition hoare {A : Type} (P : App.world → Prop) (m : App.M A)
           (Q : A → App.world → Prop) : Prop :=
  ∀ w, P w → Q (m w).1 (m w).2.

(** The intents a reply can carry. *)
Definition REPLY_INTENTS : list string :=
  [ "ack_refuse"; "switch_suggestion"; "part_search"; "installation";
    "compatibility"; "symptom"; "part_lookup"; "general_help" ].

(** The request with other declared part and model fields. *)
Definition redeclare (inp : App.ChatIn) (part model : option string) : App.ChatIn :=
  {| App.message := App.message inp; App.part := part; App.model := model;
     App.appliance := App.appliance inp |}.

(** The text [search] works on: the explicit part if there is one, else
    the query, stripped. *)
Definition searched_text (query : string) (part : option string) : string :=
  Py.strip (Py.or_str (Py.or_none part query) "").

(** The scored pairs that reach the threshold, in catalogue order. *)
Definition qualifying (order : list string) (items : list CatalogClass.item) (q : string)
  : list (Z * CatalogClass.item) :=
  filter (fun sp => (60 <= sp.1)%Z) (map (fun p => (score_of order q p, p)) items).

(** The text [find_parts] hands to [search]. *)
Definition hinted_query (appliance_type brand category query : option string) : string :=
  Py.or_str
    (Py.strip
       (Py.join " "
          (filter (fun x => Is_true (Py.nonempty x))
                  [ Py.or_none query ""; Py.or_none brand "";
                    Py.or_none appliance_type ""; Py.or_none category "" ])))
    (Py.or_none category "").

(** A part or model code as [is_compatible] and [install_guide] read it. *)
Definition code_of (c : option string) : string :=
  Py.upper (Py.strip (Py.or_none c "")).

(** The request [install_guide] answers with when no part is named. *)
Definition GUIDE_PROMPT : string :=
  "Please provide a part number (e.g., 'How to install WP2188656')."%string.

(** The running best of [_guess_category] and its count, after the loop
    has gone through the entries [l] of the table. *)
Definition best_of (tl : string) (l : list (string * list string))
  : option string * nat :=
  fold_left
    (fun (acc : option string * nat) (ck : string * list string) =>
       let k := CatalogClass.hits ck.2 tl in
       if (acc.2 <? k)%nat then (Some ck.1, k) else acc)
    l (None, 0%nat).


(* ===================================================================== *)
(** * Session memory *)
(* ===================================================================== *)

Section MemoryFacts.

Import Guardrails.Memory.

Implicit Types (session : gmap string (option string))
               (kwargs : list (string * option string))
               (st : gmap string (gmap string (option string))).

Lemma assign_dom session kv : dom (assign session kv) = dom session.
Proof.
  unfold assign. destruct (session !! kv.1) as [x|] eqn:E; [|done].
  rewrite dom_insert_L.
  assert (kv.1 ∈ dom session) as Hin by (apply elem_of_dom; eauto).
  apply subseteq_union_1_L. by apply singleton_subseteq_l.
Qed.

Lemma assign_all_dom kwargs session :
  dom (fold_left assign kwargs session) = dom session.
Proof.
  revert session. induction kwargs as [|kv kwargs IH]; intros session; simpl; [done|].
  by rewrite IH, assign_dom.
Qed.

Lemma assign_other session kv k :
  k ≠ kv.1 → assign session kv !! k = session !! k.
Proof.
  intros Hne. unfold assign. destruct (session !! kv.1); [|done].
  by rewrite lookup_insert_ne.
Qed.

(** A key that the update does not name keeps its value. *)
Lemma assign_all_frame kwargs session k :
  k ∉ kwargs.*1 → fold_left assign kwargs session !! k = session !! k.
Proof.
  revert session. induction kwargs as [|kv kwargs IH]; intros session Hk; simpl; [done|].
  rewrite fmap_cons, not_elem_of_cons in Hk. destruct Hk as [Hne Hk].
  rewrite IH by done. by apply assign_other.
Qed.

(** A named key that the session holds takes the value given for it. *)
Lemma assign_all_named kwargs session k v :
  NoDup kwargs.*1 → (k, v) ∈ kwargs → is_Some (session !! k) →
  fold_left assign kwargs session !! k = Some v.
Proof.
  revert session. induction kwargs as [|kv kwargs IH]; intros session Hnd Hin Hk.
  - by apply elem_of_nil in Hin.
  - rewrite fmap_cons in Hnd. apply NoDup_cons in Hnd as [Hfresh Hnd].
    apply elem_of_cons in Hin as [<-|Hin]; simpl.
    + rewrite assign_all_frame by done.
      unfold assign; simpl. destruct Hk as [x ->]. by rewrite lookup_insert_eq.
    + apply IH; [done..|].
      destruct (decide (k = kv.1)) as [->|Hne].
      * unfold assign. destruct Hk as [x ->]. rewrite lookup_insert_eq. eauto.
      * by rewrite assign_other.
Qed.

(** A name the session does not hold is dropped. *)
Lemma assign_all_unknown kwargs session k :
  session !! k = None → fold_left assign kwargs session !! k = None.
Proof.
  intros Hk. apply not_elem_of_dom. rewrite assign_all_dom. by apply not_elem_of_dom.
Qed.

Lemma assign_all_idem kwargs session :
  NoDup kwargs.*1 →
  fold_left assign kwargs (fold_left assign kwargs session)
  = fold_left assign kwargs session.
Proof.
  intros Hnd. apply map_eq. intros k.
  destruct (decide (k ∈ kwargs.*1)) as [Hin|Hout].
  - apply list_elem_of_fmap in Hin as [[k' v] [-> Hin]]. simpl.
    destruct (session !! k') eqn:Hs.
    + rewrite (assign_all_named kwargs _ k' v); [|done..|].
      * by rewrite (assign_all_named kwargs session k' v).
      * rewrite (assign_all_named kwargs session k' v); eauto.
    + rewrite !assign_all_unknown; [done..|]. by rewrite assign_all_unknown.
  - by rewrite assign_all_frame.
Qed.

Lemma get_or_create_lookup session_id st :
  (_get_or_create session_id st).2 !! session_id
  = Some (_get_or_create session_id st).1.
Proof.
  unfold _get_or_create. destruct (st !! session_id) eqn:E; simpl; [done|].
  by rewrite lookup_insert_eq.
Qed.

Lemma get_or_create_other session_id st other :
  other ≠ session_id → (_get_or_create session_id st).2 !! other = st !! other.
Proof.
  intros Hne. unfold _get_or_create. destruct (st !! session_id); simpl; [done|].
  by rewrite lookup_insert_ne.
Qed.

Lemma update_lookup session_id kwargs st :
  update session_id kwargs st !! session_id
  = Some (fold_left assign kwargs (_get_or_create session_id st).1).
Proof.
  unfold update. destruct (_get_or_create session_id st) as [s st1].
  by rewrite lookup_insert_eq.
Qed.

Lemma update_other session_id kwargs st other :
  other ≠ session_id → update session_id kwargs st !! other = st !! other.
Proof.
  intros Hne. unfold update.
  pose proof (get_or_create_other session_id st other Hne) as H.
  destruct (_get_or_create session_id st) as [s st1]. simpl in H.
  by rewrite lookup_insert_ne.
Qed.

Lemma get_or_create_seen session_id st session :
  st !! session_id = Some session → _get_or_create session_id st = (session, st).
Proof. intros H. unfold _get_or_create. by rewrite H. Qed.

Lemma update_idem session_id kwargs st :
  NoDup kwargs.*1 →
  update session_id kwargs (update session_id kwargs st)
  = update session_id kwargs st.
Proof.
  intros Hnd.
  pose proof (update_lookup session_id kwargs st) as Hl.
  unfold update at 1. rewrite (get_or_create_seen _ _ _ Hl).
  rewrite assign_all_idem by done.
  apply insert_id. exact Hl.
Qed.

(** [update] sets the named fields that the session's record holds,
    leaves every other field of that session and every other session as they
    were, drops names the record does not hold, and a second identical call
    changes nothing. *)
Lemma update_on_held_fields session_id kwargs st :
  NoDup kwargs.*1 →
  let before := (_get_or_create session_id st).1 in
  let st' := update session_id kwargs st in
  (∃ after,
      st' !! session_id = Some after
      ∧ (∀ k v, (k, v) ∈ kwargs → is_Some (before !! k) → after !! k = Some v)
      ∧ (∀ k, k ∉ kwargs.*1 → after !! k = before !! k)
      ∧ (∀ k, before !! k = None → after !! k = None))
  ∧ (∀ other, other ≠ session_id → st' !! other = st !! other)
  ∧ update session_id kwargs st' = st'.
Proof.
  intros Hnd before st'. split; [|split].
  - exists (fold_left assign kwargs before). split; [apply update_lookup|].
    split; [|split].
    + intros k v Hin Hk. by apply assign_all_named.
    + intros k Hk. by apply assign_all_frame.
    + intros k Hk. by apply assign_all_unknown.
  - intros other Hne. by apply update_other.
  - by apply update_idem.
Qed.

(** C3. Whatever other sessions the store holds, [get] on a session it
    does not hold yet returns a snapshot of three null fields; the field
    [last_switch_refused_for] is not among them. *)
Theorem get_fresh_session_fields session_id st :
  let snapshot := (get session_id (delete session_id st)).1 in
  snapshot !! "last_intent" = Some None
  ∧ snapshot !! "last_part" = Some None
  ∧ snapshot !! "last_model" = Some None
  ∧ snapshot !! "last_switch_refused_for" = None
  ∧ dom snapshot = {[ "last_intent"; "last_part"; "last_model" ]}.
Proof.
  unfold get, _get_or_create. rewrite lookup_delete_eq. simpl.
  repeat split; reflexivity.
Qed.

End MemoryFacts.

(* ===================================================================== *)
(** * The turn router *)
(* ===================================================================== *)

Section RouterFacts.

Import App.

Variable svc : services.

Implicit Types (w : world) (inp : ChatIn).

Lemma lacks_get session_id st :
  lacks_refusal_field st →
  lacks_refusal_field (Guardrails.Memory.get session_id st).2
  ∧ (Guardrails.Memory.get session_id st).1 !! "last_switch_refused_for" = None.
Proof.
  intros Hst. unfold Guardrails.Memory.get, Guardrails.Memory._get_or_create.
  destruct (st !! session_id) as [session|] eqn:E; simpl.
  - split; [done|]. by eapply Hst.
  - split; [|done]. intros sid' s'. rewrite lookup_insert.
    case_decide; [|by apply Hst]. by intros [= <-].
Qed.

Lemma lacks_update session_id kwargs st :
  lacks_refusal_field st →
  lacks_refusal_field (Guardrails.Memory.update session_id kwargs st).
Proof.
  intros Hst sid' s'.
  destruct (decide (sid' = session_id)) as [->|Hne].
  - rewrite update_lookup. intros [= <-].
    apply assign_all_unknown. by apply lacks_get.
  - rewrite update_other by done. apply Hst.
Qed.

Lemma keeps_ret {A} (a : A) (Q : A → Prop) : Q a → keeps_lacking (mret a) Q.
Proof. intros Ha w Hw. by split. Qed.

Lemma keeps_bind {A B} (m : M A) (f : A → M B) (P : A → Prop) (Q : B → Prop) :
  keeps_lacking m P → (∀ a, P a → keeps_lacking (f a) Q) →
  keeps_lacking (m ≫= f) Q.
Proof.
  intros Hm Hf w Hw. unfold mbind, M_bind.
  destruct (Hm w Hw) as [Hst Ha]. destruct (m w) as [a w1]. simpl in *.
  by apply Hf.
Qed.

Lemma keeps_emit e : keeps_lacking (emit e) (λ _, True).
Proof. intros w Hw. by split. Qed.

Lemma keeps_memory_get session_id :
  keeps_lacking (memory_get session_id)
                (λ snapshot, snapshot !! "last_switch_refused_for" = None).
Proof.
  intros w Hw. unfold memory_get.
  destruct (lacks_get session_id (store w) Hw) as [H1 H2].
  destruct (Guardrails.Memory.get session_id (store w)). by split.
Qed.

Lemma keeps_memory_update session_id kwargs :
  keeps_lacking (memory_update session_id kwargs) (λ _, True).
Proof. intros w Hw. split; [|done]. by apply lacks_update. Qed.

Lemma keeps_push_user session_id q : keeps_lacking (push_user session_id q) (λ _, True).
Proof. intros w Hw. by split. Qed.

Lemma keeps_push_assistant session_id reply :
  keeps_lacking (push_assistant session_id reply) (λ _, True).
Proof. intros w Hw. by split. Qed.

Ltac keeps :=
  repeat first
    [ apply keeps_ret
    | eapply keeps_bind;
      [ first [ apply keeps_memory_get | apply keeps_memory_update | apply keeps_emit
              | apply keeps_push_user | apply keeps_push_assistant ]
      | intros ? ? ] ].

Lemma keeps_part_search q cur_appliance mem x_session_id :
  keeps_lacking (part_search svc q cur_appliance mem x_session_id)
                (λ found, ∀ out, found = Some out → snapshot_lacks out).
Proof.
  unfold part_search.
  eapply keeps_bind; [apply keeps_emit|]. intros _ _.
  destruct (find_parts svc _ _ _ _) as [results|].
  - match goal with |- context [if ?b then _ else _] => destruct b end.
    + eapply keeps_bind; [apply keeps_memory_get|]. intros m Hm.
      apply keeps_ret. by intros out [= <-].
    + eapply keeps_bind; [apply keeps_memory_get|]. intros m Hm.
      apply keeps_ret. by intros out [= <-].
  - apply keeps_ret. by intros out [=].
Qed.

Lemma keeps_fallback q cur_appliance itype history x_session_id :
  keeps_lacking (fallback svc q cur_appliance itype history x_session_id) snapshot_lacks.
Proof.
  unfold fallback.
  eapply keeps_bind; [apply keeps_emit|]. intros _ _.
  eapply keeps_bind with (P := λ _, True).
  - destruct (llm svc); [|by apply keeps_ret].
    eapply keeps_bind; [apply keeps_emit|]. intros _ _. by apply keeps_ret.
  - intros reply _. keeps. exact H1.
Qed.

Lemma keeps_handlers q cur_appliance itype ent mem history x_session_id :
  keeps_lacking (handlers svc q cur_appliance itype ent mem history x_session_id)
                snapshot_lacks.
Proof.
  unfold handlers.
  destruct (String.eqb itype "installation").
  - keeps. exact H1.
  - match goal with |- context [if ?b then _ else _] => destruct b end.
    + destruct (is_compatible svc _ _) as [ok message]. keeps. exact H1.
    + apply keeps_fallback.
Qed.

Lemma keeps_chat inp x_session_id :
  keeps_lacking (chat svc inp x_session_id) snapshot_lacks.
Proof.
  unfold chat.
  eapply keeps_bind; [apply keeps_push_user|]. intros history _.
  match goal with |- context [if ?b then _ else _] => destruct b end.
  - keeps. exact H0.
  - eapply keeps_bind; [apply keeps_memory_get|]. intros mem Hmem.
    match goal with |- context [if ?b then _ else _] => destruct b end.
    + by apply keeps_ret.
    + match goal with |- context [if ?b then _ else _] => destruct b end.
      * eapply keeps_bind; [apply keeps_part_search|]. intros [out|] Hout.
        -- apply keeps_ret. by apply Hout.
        -- apply keeps_handlers.
      * apply keeps_handlers.
Qed.

Lemma lacks_boot : lacks_refusal_field (store boot).
Proof. intros sid s. simpl. by rewrite lookup_empty. Qed.

Lemma lacks_turn inp x_session_id w :
  lacks_refusal_field (store w) →
  lacks_refusal_field (store (turn svc inp x_session_id w).2)
  ∧ snapshot_lacks (turn svc inp x_session_id w).1.
Proof. intros Hw. unfold turn. by apply keeps_chat. Qed.

(** Whatever turns came before, no session record ever gains the
    [last_switch_refused_for] key. *)
Lemma lacks_run turns : lacks_refusal_field (store (run svc turns)).
Proof.
  unfold run. generalize lacks_boot. generalize boot.
  induction turns as [|t turns IH]; intros w Hw; simpl; [done|].
  apply IH. by apply lacks_turn.
Qed.

(** The refusal marker ends the turn after one memory update. *)
Lemma turn_refusal inp x_session_id w :
  Py.contains "user refused switch" (Py.lower (text_of inp)) = true →
  let kwargs := [("last_switch_refused_for", Some (context_of inp))] in
  let st := Guardrails.Memory.update x_session_id kwargs (store w) in
  response (turn svc inp x_session_id w).1
  = "Got it — staying with your current " ++ context_of inp ++ " context."
  ∧ intent (turn svc inp x_session_id w).1 = "ack_refuse"
  ∧ memory (turn svc inp x_session_id w).1 = (Guardrails.Memory.get x_session_id st).1
  ∧ store (turn svc inp x_session_id w).2 = (Guardrails.Memory.get x_session_id st).2
  ∧ trace (turn svc inp x_session_id w).2 = [MemoryUpdate x_session_id kwargs].
Proof.
  intros Hmark kwargs st. unfold turn, chat.
  unfold mbind, M_bind, mret, M_ret, push_user, memory_update, memory_get.
  cbn [store chat_memory trace]. fold (text_of inp). rewrite Hmark.
  fold (context_of inp). subst st kwargs.
  destruct (Guardrails.Memory.get _ _) as [snapshot st']. simpl.
  done.
Qed.

(** A message naming another appliance, with no matching refusal on
    record, ends the turn with a switch suggestion. *)
Lemma turn_switch inp x_session_id w :
  Py.contains "user refused switch" (Py.lower (text_of inp)) = false →
  Py.truthy (_other_appliance_hint (text_of inp) (context_of inp)) = true →
  refused_for_of (Guardrails.Memory.get x_session_id (store w)).1 = None →
  intent (turn svc inp x_session_id w).1 = "switch_suggestion"
  ∧ trace (turn svc inp x_session_id w).2 = [].
Proof.
  intros Hmark Halt Href. unfold turn, chat.
  unfold mbind, M_bind, mret, M_ret, push_user, memory_get.
  cbn [store chat_memory trace]. fold (text_of inp). rewrite Hmark.
  fold (context_of inp).
  destruct (Guardrails.Memory.get _ _) as [mem st'] eqn:Hget. simpl in Href.
  rewrite Halt, Href. simpl.
  destruct (_other_appliance_hint _ _) as [alt|]; [|done].
  rewrite bool_decide_eq_false_2 by done. done.
Qed.

Ltac run_turn :=
  repeat match goal with
    | |- context [Guardrails.Memory.get ?a ?b] =>
        let snapshot := fresh "snapshot" in
        let st := fresh "st" in
        destruct (Guardrails.Memory.get a b) as [snapshot st]
    | |- context [find_parts ?s ?a ?b ?c ?d] => destruct (find_parts s a b c d)
    | |- context [is_compatible ?s ?a ?b] => destruct (is_compatible s a b)
    | |- context [llm ?s] => destruct (llm s)
    | |- context [if ?b then _ else _] => destruct b
    end;
  cbn [fst snd intent response memory store chat_memory trace existsb app
       is_completed_part_search is_handler_call orb].


(** With a part-search keyword in the message the two handlers are out of
    reach even when the part search raises: the intent has already been
    overwritten. *)
Lemma keyword_turn_never_calls_handlers inp x_session_id w :
  Guardrails.any_in part_search_keywords (Py.lower (text_of inp)) = true →
  existsb is_handler_call (trace (turn svc inp x_session_id w).2) = false.
Proof.
  unfold turn, chat, part_search, handlers, fallback.
  unfold mbind, M_bind, mret, M_ret, push_user, push_assistant,
         memory_update, memory_get, emit.
  cbn [store chat_memory trace]. fold (text_of inp) (context_of inp).
  intros Hkw. rewrite Hkw.
  change (String.eqb "part_search" "installation") with false.
  change (String.eqb "part_search" "compatibility") with false.
  cbn [andb].
  run_turn; done.
Qed.

Lemma intent_classify_type q :
  Guardrails.type (Guardrails.intent_classify q) ≠ "switch_suggestion".
Proof. unfold Guardrails.intent_classify. by repeat case_match. Qed.

(** Had the store held a refusal for the appliance the message names, the
    router would have gone on to the later steps: the guard itself follows
    the refusal, it is the store that never holds one. *)
Lemma turn_proceeds_on_recorded_refusal inp x_session_id w alt :
  Py.contains "user refused switch" (Py.lower (text_of inp)) = false →
  _other_appliance_hint (text_of inp) (context_of inp) = Some alt →
  refused_for_of (Guardrails.Memory.get x_session_id (store w)).1 = Some alt →
  intent (turn svc inp x_session_id w).1 ≠ "switch_suggestion".
Proof.
  intros Hmark Halt Href.
  pose proof (intent_classify_type (text_of inp)) as Hty.
  unfold turn, chat, part_search, handlers, fallback.
  unfold mbind, M_bind, mret, M_ret, push_user, push_assistant,
         memory_update, memory_get, emit.
  cbv [store chat_memory trace].
  fold (store w) (text_of inp) (context_of inp).
  rewrite Hmark, Halt.
  destruct (Guardrails.Memory.get x_session_id (store w)) as [mem st'].
  simpl in Href. cbv beta iota zeta. rewrite Href.
  rewrite bool_decide_eq_true_2 by done. rewrite andb_false_r.
  change (String.eqb "part_search" "installation") with false.
  change (String.eqb "part_search" "compatibility") with false.
  cbn [andb].
  run_turn; done.
Qed.

(** C1. After any history, the refusal-marker turn returns the
    acknowledgement and makes no retrieval or language-model call, but the
    update it issues is dropped: the session still has no
    [last_switch_refused_for] field. *)
Theorem refusal_marker_is_not_recorded turns appliance x_session_id :
  let inp := refusal_request appliance in
  let result := turn svc inp x_session_id (run svc turns) in
  response result.1
  = "Got it — staying with your current " ++ context_of inp ++ " context."
  ∧ intent result.1 = "ack_refuse"
  ∧ trace result.2
    = [MemoryUpdate x_session_id [("last_switch_refused_for", Some (context_of inp))]]
  ∧ memory result.1 !! "last_switch_refused_for" = None
  ∧ lacks_refusal_field (store result.2).
Proof.
  intros inp result.
  destruct (turn_refusal inp x_session_id (run svc turns)) as (Hr & Hi & _ & _ & Ht);
    [reflexivity|].
  destruct (lacks_turn inp x_session_id (run svc turns) (lacks_run turns)) as [Hst Hsnap].
  by repeat split.
Qed.

(** C2. A refusal turn under the refrigerator context, wherever it occurs
    in the history of a session, does not stop a later dishwasher-context
    message that mentions the refrigerator from getting the switch suggestion
    again; the turn ends there. *)
Theorem refused_switch_is_suggested_again before after x_session_id :
  let asked := {| message := "I need a refrigerator shelf"; part := None;
                  model := None; appliance := "dishwasher" |} in
  let w := run svc (before ++ (refusal_request "refrigerator", x_session_id) :: after) in
  intent (turn svc asked x_session_id w).1 = "switch_suggestion"
  ∧ trace (turn svc asked x_session_id w).2 = [].
Proof.
  intros asked w. apply turn_switch; [reflexivity..|].
  unfold refused_for_of.
  by rewrite (proj2 (lacks_get x_session_id (store w) (lacks_run _))).
Qed.

End RouterFacts.


(* ===================================================================== *)
(** * Strings *)
(* ===================================================================== *)

Section StringFacts.

Import Py.

Local Arguments String.append !_ _ : simpl nomatch.

Lemma lstrip_blank s : all_chars is_space s = true → lstrip s = "".
Proof.
  induction s as [|c s IH]; simpl; [done|].
  intros [Hc Hs]%andb_true_iff. rewrite Hc. auto.
Qed.

Lemma strip_blank s : all_chars is_space s = true → strip s = "".
Proof. intros H. unfold strip. by rewrite lstrip_blank. Qed.

Lemma sapp_assoc (a b c : string) : (a ++ b) ++ c = a ++ (b ++ c).
Proof. induction a as [|x a IH]; simpl; [done|]. by f_equal. Qed.

Lemma sapp_nil_r (a : string) : a ++ "" = a.
Proof. induction a as [|x a IH]; simpl; [done|]. by f_equal. Qed.

Lemma map_chars_app f (a b : string) :
  map_chars f (a ++ b) = map_chars f a ++ map_chars f b.
Proof. induction a as [|x a IH]; simpl; [done|]. by f_equal. Qed.

Lemma space_not_upper c : is_space c = true → is_upper c = false.
Proof. destruct c as [[] [] [] [] [] [] [] []]; by vm_compute. Qed.

Lemma lower_blank s : all_chars is_space s = true → lower s = s.
Proof.
  induction s as [|c s IH]; simpl; [done|].
  intros [Hc Hs]%andb_true_iff. unfold lower in *. simpl. f_equal; [|auto].
  unfold lower_char. by rewrite (space_not_upper c Hc).
Qed.

Lemma lstrip_app_nonblank a y : lstrip a ≠ "" → lstrip (a ++ y) = lstrip a ++ y.
Proof.
  induction a as [|c a IH]; simpl; [done|].
  destruct (is_space c); [exact IH|done].
Qed.

(** A text is its right-stripped part followed by blanks. *)
Lemma rstrip_decomp s : ∃ R, all_chars is_space R = true ∧ s = rstrip s ++ R.
Proof.
  induction s as [|c s (R & HR & Hs)]; simpl.
  - by exists "".
  - destruct (rstrip s) as [|d r] eqn:E.
    + destruct (is_space c) eqn:Hc.
      * exists (String c R). simpl in *. rewrite Hc, HR. by rewrite Hs at 1.
      * exists R. split; [done|]. simpl. by rewrite Hs at 1.
    + exists R. split; [done|]. simpl. by rewrite Hs at 1.
Qed.

Lemma rstrip_app_keep x b : rstrip b = b → b ≠ "" → rstrip (x ++ b) = x ++ b.
Proof.
  intros Hb Hne. induction x as [|c x IH]; simpl; [done|].
  rewrite IH. destruct (x ++ b) eqn:E; [|done].
  destruct x; simpl in E; [done|discriminate].
Qed.

(** Stripping a non-blank text with a blank and a word appended keeps the
    stripped text, a non-empty run of blanks, and the word. *)
Lemma strip_app_word q b :
  strip q ≠ "" → rstrip b = b → b ≠ "" →
  ∃ W, all_chars is_space W = true ∧ W ≠ ""
       ∧ strip (q ++ " " ++ b) = strip q ++ W ++ b.
Proof.
  intros Hq Hb Hne. unfold strip in *.
  assert (lstrip q ≠ "") as Hl by (intros E; by rewrite E in Hq).
  rewrite lstrip_app_nonblank by done.
  destruct (rstrip_decomp (lstrip q)) as (R & HR & Hdec).
  exists (R ++ " "). split; [|split].
  - clear -HR. induction R as [|c R IH]; simpl in *; [done|].
    apply andb_true_iff in HR as [-> HR]. auto.
  - by destruct R.
  - rewrite <- (sapp_assoc (lstrip q) " " b).
    rewrite rstrip_app_keep by done.
    rewrite Hdec at 1. by rewrite !sapp_assoc.
Qed.

Lemma space_neq c w : is_space c = false → is_space w = true → Ascii.eqb c w = false.
Proof.
  intros Hc Hw. destruct (Ascii.eqb_spec c w) as [->|]; [|done]. congruence.
Qed.

Lemma startswith_blank_run suf W b :
  tail_ok b suf = true → suf ≠ "" → all_chars is_space W = true → W ≠ "" →
  startswith suf (W ++ b) = false.
Proof.
  intros Hok Hsuf HW HWne.
  destruct suf as [|c r]; [done|]. destruct W as [|w W]; [done|].
  simpl in HW. apply andb_true_iff in HW as [Hw HW]. simpl.
  destruct (Ascii.eqb c w) eqn:Hcw; [|done].
  simpl in Hok. destruct (is_space c) eqn:Hc.
  - simpl in Hok. destruct r as [|d r]; [done|].
    apply andb_true_iff in Hok as [Hd Hb].
    apply negb_true_iff in Hd, Hb.
    destruct W as [|w' W]; simpl; [exact Hb|].
    simpl in HW. apply andb_true_iff in HW as [Hw' _].
    by rewrite (space_neq d w').
  - by rewrite (space_neq c w) in Hcw.
Qed.

(** Where no non-empty suffix of the keyword can begin at [y], an
    occurrence in [x ++ y] lies in [x] or in [y]. *)
Lemma startswith_app_safe kw z y :
  suffix_forall (fun suf => negb (startswith suf y)) kw = true →
  startswith kw (z ++ y) = startswith kw z.
Proof.
  revert z. induction kw as [|a kw IH]; intros z Hsafe; [by destruct z|].
  simpl in Hsafe. apply andb_true_iff in Hsafe as [Hhere Hrest].
  apply negb_true_iff in Hhere.
  destruct z as [|c z]; [exact Hhere|].
  simpl. destruct (Ascii.eqb a c); [by apply IH|done].
Qed.

Lemma contains_app_safe kw x y :
  suffix_forall (fun suf => negb (startswith suf y)) kw = true →
  contains kw (x ++ y) = contains kw x || contains kw y.
Proof.
  intros Hsafe. induction x as [|c x IH].
  - simpl. destruct kw; [by destruct y|done].
  - change (contains kw (String c x ++ y))
      with (startswith kw (String c x ++ y) || contains kw (x ++ y)).
    rewrite startswith_app_safe, IH by done.
    change (contains kw (String c x)) with (startswith kw (String c x) || contains kw x).
    by rewrite orb_assoc.
Qed.

Lemma suffix_forall_impl (f g : string → bool) kw :
  (∀ suf, suf ≠ "" → f suf = true → g suf = true) →
  suffix_forall f kw = true → suffix_forall g kw = true.
Proof.
  intros Hfg. induction kw as [|a kw IH]; simpl; [done|].
  intros [H1 H2]%andb_true_iff. rewrite Hfg, IH; done.
Qed.

Lemma contains_blank_run kw W b :
  tail_ok b kw = true → kw ≠ "" → all_chars is_space W = true →
  contains kw (W ++ b) = contains kw b.
Proof.
  intros Hok Hne. induction W as [|w W IH]; intros HW; [done|].
  change (contains kw (String w W ++ b))
    with (startswith kw (String w W ++ b) || contains kw (W ++ b)).
  rewrite startswith_blank_run by done.
  simpl in HW. apply andb_true_iff in HW as [_ HW]. by apply IH.
Qed.

(** A keyword that is [sep_safe] for [b] occurs in [x], blanks, [b] exactly
    when it occurs in [x]. *)
Lemma contains_sep b kw x W :
  sep_safe b kw = true → all_chars is_space W = true → W ≠ "" →
  contains kw (x ++ W ++ b) = contains kw x.
Proof.
  intros Hsafe HW HWne. unfold sep_safe in Hsafe.
  apply andb_true_iff in Hsafe as [[Hne Hsuf]%andb_true_iff Hb].
  apply negb_true_iff in Hb.
  assert (kw ≠ "") as Hkw by (by destruct kw).
  rewrite contains_app_safe.
  - rewrite contains_blank_run, Hb, orb_false_r; [done| |done..].
    destruct kw; [done|]. simpl in Hsuf. by apply andb_true_iff in Hsuf as [? _].
  - eapply suffix_forall_impl; [|exact Hsuf].
    intros suf Hsufne Hok. apply negb_true_iff. by apply startswith_blank_run.
Qed.

Lemma contains_refl kw : contains kw kw = true.
Proof.
  assert (startswith kw kw = true) as H.
  { induction kw as [|a kw IH]; simpl; [done|]. by rewrite Ascii.eqb_refl. }
  destruct kw; simpl in *; [done|]. by rewrite H.
Qed.

Lemma contains_app_r kw x y : contains kw y = true → contains kw (x ++ y) = true.
Proof.
  intros H. induction x as [|c x IH]; [done|].
  change (contains kw (String c x ++ y))
    with (startswith kw (String c x ++ y) || contains kw (x ++ y)).
  rewrite IH. apply orb_true_r.
Qed.

Lemma runs_go_word p cur b :
  all_chars p b = true → nonempty (cur ++ b) = true → runs_go p cur b = [cur ++ b].
Proof.
  revert cur. induction b as [|c b IH]; intros cur Hb Hne; simpl.
  - rewrite sapp_nil_r in *. by rewrite Hne.
  - simpl in Hb. apply andb_true_iff in Hb as [-> Hb].
    rewrite IH; [by rewrite sapp_assoc|done|].
    rewrite sapp_assoc. exact Hne.
Qed.

Lemma runs_go_blank p W b :
  (∀ c, is_space c = true → p c = false) →
  all_chars is_space W = true → all_chars p b = true → b ≠ "" →
  runs_go p "" (W ++ b) = [b].
Proof.
  intros Hp HW Hb Hne. induction W as [|w W IH]; simpl.
  - apply (runs_go_word p "" b Hb). by destruct b.
  - simpl in HW. apply andb_true_iff in HW as [Hw HW].
    rewrite (Hp w Hw). simpl. by apply IH.
Qed.

(** The runs of a text followed by blanks and a word are the runs of the
    text and then the word. *)
Lemma runs_go_sep p cur x W b :
  (∀ c, is_space c = true → p c = false) →
  all_chars is_space W = true → W ≠ "" → all_chars p b = true → b ≠ "" →
  runs_go p cur (x ++ W ++ b) = (runs_go p cur x ++ [b])%list.
Proof.
  intros Hp HW HWne Hb Hne. revert cur.
  induction x as [|c x IH]; intros cur.
  - destruct W as [|w W]; [done|]. simpl.
    simpl in HW. apply andb_true_iff in HW as [Hw HW].
    rewrite (Hp w Hw). rewrite (runs_go_blank p W b) by done.
    by destruct (nonempty cur).
  - simpl. destruct (p c); [apply IH|].
    destruct (nonempty cur); simpl; by rewrite IH.
Qed.

Lemma rstrip_idem s : rstrip (rstrip s) = rstrip s.
Proof.
  induction s as [|c s IH]; simpl; [done|].
  destruct (rstrip s) as [|d r] eqn:E.
  - destruct (is_space c) eqn:Hc; simpl; [done|]. by rewrite Hc.
  - simpl in *. by rewrite IH.
Qed.

Lemma lstrip_rstrip_lstrip s : lstrip (rstrip (lstrip s)) = rstrip (lstrip s).
Proof.
  induction s as [|c s IH]; simpl; [done|].
  destruct (is_space c) eqn:Hc; [exact IH|].
  simpl. destruct (rstrip s); rewrite ?Hc; simpl; by rewrite Hc.
Qed.

Lemma strip_idem s : strip (strip s) = strip s.
Proof. unfold strip. by rewrite lstrip_rstrip_lstrip, rstrip_idem. Qed.

End StringFacts.

(* ===================================================================== *)
(** * Catalogue search *)
(* ===================================================================== *)

Section CatalogFacts.

Import CatalogClass.

Implicit Types (items : list item) (order : list string).

Lemma PARTNUM_RE_search_empty : PARTNUM_RE_search "" = None.
Proof. reflexivity. Qed.

(** C10. An empty or whitespace-only query with no explicit part gives the
    empty list, not the synthetic no-local-results entry. *)
Theorem search_blank_query_is_empty order items query model :
  Py.all_chars Py.is_space query = true →
  search order items query None model = []
  ∧ search order items query None model
    ≠ [no_local_results query (Py.strip query)].
Proof.
  intros Hblank.
  assert (search order items query None model = []) as ->; [|done].
  unfold search. simpl. unfold Py.or_str.
  destruct (Py.nonempty query); by rewrite ?strip_blank.
Qed.

(** Any other query gets at least one entry back. *)
Lemma search_nonblank_is_nonempty order items query part model :
  Py.nonempty (Py.strip (Py.or_str (Py.or_none part query) "")) = true →
  search order items query part model ≠ [].
Proof.
  intros Hq. unfold search. rewrite Hq. simpl.
  destruct (match PARTNUM_RE_search _ with Some _ => _ | None => _ end) as [|p exact];
    [|done].
  by destruct (firstn 5 _).
Qed.

Lemma with_part_number_spec pn items p :
  p ∈ with_part_number pn items
  ↔ p ∈ items ∧ _lc (getd (partNumber p) "") = _lc (Some pn).
Proof. unfold with_part_number. rewrite list_elem_of_filter. tauto. Qed.

(** C7. When the first part-pattern match in the text searched (the
    explicit part, else the query) is the part number of some entry, the
    result is the entries with that part number in catalogue order, at most
    five, with no scoring: it starts with the first such entry of the
    catalogue and holds nothing else. *)
Theorem search_exact_part_number order items query part model m :
  PARTNUM_RE_search (Py.strip (Py.or_str (Py.or_none part query) "")) = Some m →
  (∃ p, p ∈ items ∧ _lc (getd (partNumber p) "") = _lc (Some (Py.upper m))) →
  search order items query part model = firstn 5 (with_part_number (Py.upper m) items)
  ∧ head (search order items query part model)
    = List.find (fun p => bool_decide (_lc (getd (partNumber p) "")
                                       = _lc (Some (Py.upper m)))) items
  ∧ is_Some (head (search order items query part model))
  ∧ ∀ r, r ∈ search order items query part model →
         r ∈ items ∧ _lc (getd (partNumber r) "") = _lc (Some (Py.upper m)).
Proof.
  intros Hm (p & Hp & Hpn).
  assert (p ∈ with_part_number (Py.upper m) items) as Hin
      by by apply with_part_number_spec.
  assert (search order items query part model
          = firstn 5 (with_part_number (Py.upper m) items)) as Heq.
  { unfold search. rewrite Hm.
    destruct (Py.nonempty _) eqn:Hne; simpl.
    - fold (with_part_number (Py.upper m) items).
      destruct (with_part_number (Py.upper m) items); [|done].
      by apply elem_of_nil in Hin.
    - destruct (Py.strip _); [|done]. by rewrite PARTNUM_RE_search_empty in Hm. }
  rewrite Heq. split; [done|]. split; [|split].
  - unfold with_part_number. clear. induction items as [|x items IH]; simpl; [done|].
    rewrite filter_cons. case_bool_decide; case_decide; try done.
  - destruct (with_part_number (Py.upper m) items); [by apply elem_of_nil in Hin|].
    simpl. eauto.
  - intros r Hr. apply with_part_number_spec.
    eapply elem_of_prefix; [done|]. apply prefix_take.
Qed.

(** The first part-pattern token of a text is what [PARTNUM_RE.search]
    finds. *)
Lemma head_part_tokens q : head (part_tokens q) = PARTNUM_RE_search q.
Proof.
  unfold part_tokens, Py.re_findall, PARTNUM_RE_search, Py.re_search.
  generalize false. induction q as [|c q IH]; intros prev; simpl.
  - by destruct (PARTNUM_RE_at prev "").
  - destruct (PARTNUM_RE_at prev (String c q)); [done|]. apply IH.
Qed.

End CatalogFacts.

Lemma search_blank_query_is_empty_witness :
  Py.all_chars Py.is_space "   " = true
  ∧ CatalogClass.search CatalogClass.BRANDS [Samples.upper_rack] "   " None None = [].
Proof.
  split; [reflexivity|].
  apply (search_blank_query_is_empty CatalogClass.BRANDS [Samples.upper_rack] "   " None).
  reflexivity.
Defined.

Lemma search_exact_part_number_witness :
  let items := [Samples.drain_pump; Samples.upper_rack; Samples.rack_wheel] in
  CatalogClass.search CatalogClass.BRANDS items "do you have ps11752778?" None None
  = [Samples.upper_rack; Samples.rack_wheel].
Proof.
  intros items.
  assert (CatalogClass.PARTNUM_RE_search
            (Py.strip (Py.or_str (Py.or_none None "do you have ps11752778?") ""))
          = Some "ps11752778") as Hm by reflexivity.
  assert (∃ p, p ∈ items
               ∧ CatalogClass._lc (CatalogClass.getd (CatalogClass.partNumber p) "")
                 = CatalogClass._lc (Some (Py.upper "ps11752778"))) as Hp.
  { exists Samples.upper_rack. split; [|reflexivity]. unfold items. set_solver. }
  exact (proj1 (search_exact_part_number CatalogClass.BRANDS items
                  "do you have ps11752778?" None None "ps11752778" Hm Hp)).
Defined.

(** C7, as first stated, fails when the matching part number is not the
    first part-pattern token of the query: the catalogue holds the entry,
    the query holds its part number, and the scored search answers with the
    no-local-results entry. *)
Lemma search_exact_part_number_counterexample :
  let items := [Samples.upper_rack] in
  let query := "AB1234 PS11752778" in
  part_tokens query = ["AB1234"; "PS11752778"]
  ∧ CatalogClass.partNumber Samples.upper_rack = Some "PS11752778"
  ∧ CatalogClass.search CatalogClass.BRANDS items query None None
    = [CatalogClass.no_local_results query query]
  ∧ CatalogClass.search CatalogClass.BRANDS items query None None
    ≠ firstn 5 (with_part_number "PS11752778" items).
Proof. repeat split; vm_compute; congruence. Qed.

(* ===================================================================== *)
(** * Stable sorting *)
(* ===================================================================== *)

Section SortFacts.

Context {A : Type} (geb : A → A → bool).

Lemma insert_desc_perm x l : StableSort.insert_desc geb x l ≡ₚ x :: l.
Proof.
  induction l as [|y l IH]; simpl; [done|].
  destruct (geb x y); [done|]. rewrite IH. apply Permutation_swap.
Qed.

Lemma sort_desc_perm l : StableSort.sort_desc geb l ≡ₚ l.
Proof.
  induction l as [|x l IH]; simpl; [done|].
  rewrite insert_desc_perm. by rewrite IH.
Qed.

Lemma sort_desc_nil l : StableSort.sort_desc geb l = [] ↔ l = [].
Proof.
  split; [|by intros ->].
  intros H. apply Permutation_nil_r. rewrite <- H. symmetry. apply sort_desc_perm.
Qed.

Lemma sort_desc_elem x l : x ∈ StableSort.sort_desc geb l ↔ x ∈ l.
Proof. by rewrite sort_desc_perm. Qed.

Hypothesis geb_total : ∀ x y, geb x y = false → geb y x = true.
Hypothesis geb_trans : ∀ x y z, geb x y = true → geb y z = true → geb x z = true.

Lemma insert_desc_sorted x l :
  StronglySorted (λ a b, geb a b = true) l →
  StronglySorted (λ a b, geb a b = true) (StableSort.insert_desc geb x l).
Proof.
  induction l as [|y l IH]; intros Hl; simpl.
  - by repeat constructor.
  - apply StronglySorted_cons in Hl as [Hy Hl].
    destruct (geb x y) eqn:Hxy.
    + apply StronglySorted_cons. split.
      * constructor; [done|]. eapply Forall_impl; [exact Hy|].
        intros z Hz. by eapply geb_trans.
      * by apply StronglySorted_cons.
    + apply StronglySorted_cons. split; [|by apply IH].
      rewrite insert_desc_perm. constructor; [by apply geb_total|done].
Qed.

Lemma sort_desc_sorted l :
  StronglySorted (λ a b, geb a b = true) (StableSort.sort_desc geb l).
Proof.
  induction l as [|x l IH]; simpl; [constructor|]. by apply insert_desc_sorted.
Qed.

(** In the sorted list an earlier element is at least as large as a later
    one. *)
Lemma sort_desc_lookup l i j x y :
  i < j →
  StableSort.sort_desc geb l !! i = Some x →
  StableSort.sort_desc geb l !! j = Some y →
  geb x y = true.
Proof.
  intros Hij Hi Hj. pose proof (sort_desc_sorted l) as Hs.
  rewrite <- (take_drop j (StableSort.sort_desc geb l)) in Hs.
  eapply (StronglySorted_app_1_elem_of _ _ _ x y Hs).
  - apply elem_of_take. eauto.
  - apply list_elem_of_lookup. exists 0. by rewrite lookup_drop, Nat.add_0_r.
Qed.

End SortFacts.

(* ===================================================================== *)
(** * Weighted-keyword retrieval *)
(* ===================================================================== *)

Section RagFacts.

Import RagService.

Implicit Types (docs : list string) (query appliance_context doc : string).

Lemma weighted_nil docs query appliance_context :
  (∀ doc, doc ∈ docs →
          (doc_score (query_terms query appliance_context) appliance_context doc <= 0)%Z) →
  weighted docs query appliance_context = [].
Proof.
  intros H. unfold weighted. apply sort_desc_nil.
  induction docs as [|doc docs IH]; simpl; [done|].
  rewrite filter_cons. simpl. case_decide as Hpos.
  - assert (doc ∈ doc :: docs) as Hd by apply list_elem_of_here.
    specialize (H doc Hd). lia.
  - apply IH. intros d Hd. apply H. set_solver.
Qed.

Lemma fallback_nil docs query :
  (∀ doc, doc ∈ docs →
          Qle_bool (jaccard (word_set query) (word_set doc)) (5 # 100) = true) →
  _fallback_similarity docs query = [].
Proof.
  intros H. unfold _fallback_similarity. apply sort_desc_nil.
  induction docs as [|doc docs IH]; simpl; [done|].
  rewrite H by set_solver. simpl. apply IH. intros d Hd. apply H. set_solver.
Qed.

Lemma slice_to_nonempty {B} (k : Z) (l : list B) :
  (1 <= k)%Z → l ≠ [] → Py.slice_to k l ≠ [].
Proof.
  intros Hk Hl. unfold Py.slice_to.
  destruct (0 <=? k)%Z eqn:E; [|lia].
  destruct l as [|x l]; [done|].
  destruct (Z.to_nat k) eqn:En; [lia|done].
Qed.

(** C4. [search] answers an empty corpus with the no-documents sentinel.
    Over a non-empty corpus in which no document scores above zero and no
    document reaches the Jaccard threshold it answers with the empty list,
    which [build_prompt] then renders as its no-context placeholder; and as
    soon as one of the two stages keeps a document and [k] is at least one,
    the answer is not empty. *)
Theorem search_sentinel_only_for_empty_corpus docs query appliance_context k history :
  (docs = [] → search docs query appliance_context k = [NO_DOCS])
  ∧ (docs ≠ [] →
     (∀ doc, doc ∈ docs →
             (doc_score (query_terms query appliance_context) appliance_context doc <= 0)%Z) →
     (∀ doc, doc ∈ docs →
             Qle_bool (jaccard (word_set query) (word_set doc)) (5 # 100) = true) →
     search docs query appliance_context k = []
     ∧ prompt_context (build_prompt query (search docs query appliance_context k)
                                    history appliance_context)
       = "(No context found)")
  ∧ (docs ≠ [] → (1 <= k)%Z →
     weighted docs query appliance_context ≠ [] ∨ _fallback_similarity docs query ≠ [] →
     search docs query appliance_context k ≠ []).
Proof.
  split; [by intros ->|]. split.
  - intros Hne Hw Hf.
    assert (search docs query appliance_context k = []) as ->; [|done].
    unfold search. destruct docs as [|d docs]; [done|].
    rewrite weighted_nil by done. rewrite fallback_nil by done.
    simpl. unfold Py.slice_to. destruct (0 <=? k)%Z; by rewrite ?firstn_nil.
  - intros Hne Hk Hstage. unfold search. destruct docs as [|d docs]; [done|].
    apply slice_to_nonempty; [done|].
    destruct (weighted (d :: docs) query appliance_context) as [|x l] eqn:Hw.
    + destruct Hstage as [?|Hf]; [done|].
      destruct (_fallback_similarity (d :: docs) query); done.
    + done.
Qed.

Lemma doc_score_snoc terms term appliance_context doc :
  doc_score (terms ++ [term]) appliance_context doc
  = (doc_score terms appliance_context doc
     + Z.of_nat (Py.count (Py.lower doc) term) * term_weight appliance_context term)%Z.
Proof. unfold doc_score. by rewrite fold_left_app. Qed.

(** C5. The appended appliance-context term weighs 5.0 when the context is
    a key of the weight table and the default 1.0 when it is not; every
    other term keeps its table weight or the default. *)
Theorem context_term_weight appliance_context :
  term_weight appliance_context appliance_context
  = (if decide (appliance_context ∈ dom base_weights) then 50%Z else 10%Z)
  ∧ (∀ query doc,
       doc_score (query_terms query appliance_context) appliance_context doc
       = (doc_score (Py.split (Py.lower query)) appliance_context doc
          + Z.of_nat (Py.count (Py.lower doc) appliance_context)
            * term_weight appliance_context appliance_context)%Z)
  ∧ (∀ term, term ≠ appliance_context →
             term_weight appliance_context term = default 10%Z (base_weights !! term)).
Proof.
  split; [|split].
  - unfold term_weight, weights.
    destruct (base_weights !! appliance_context) as [x|] eqn:E.
    + rewrite lookup_insert_eq. simpl.
      rewrite decide_True; [done|]. apply elem_of_dom. eauto.
    + rewrite E. simpl. rewrite decide_False; [done|]. by apply not_elem_of_dom.
  - intros query doc. unfold query_terms. apply doc_score_snoc.
  - intros term Hne. unfold term_weight, weights.
    destruct (base_weights !! appliance_context); [|done].
    by rewrite lookup_insert_ne.
Qed.

End RagFacts.

Lemma search_sentinel_only_for_empty_corpus_witness :
  RagService.search [] "rack" "dishwasher" 6 = [RagService.NO_DOCS]
  ∧ RagService.search ["abc"] "xyz" "dishwasher" 6 = []
  ∧ RagService.search ["abc"; "upper rack"] "rack" "dishwasher" 6 ≠ [].
Proof.
  split; [|split].
  - by apply (search_sentinel_only_for_empty_corpus [] "rack" "dishwasher" 6 []).
  - apply (search_sentinel_only_for_empty_corpus ["abc"] "xyz" "dishwasher" 6 []).
    + done.
    + intros doc ->%list_elem_of_singleton. by vm_compute.
    + intros doc ->%list_elem_of_singleton. by vm_compute.
  - apply (search_sentinel_only_for_empty_corpus
             ["abc"; "upper rack"] "rack" "dishwasher" 6 []); [done|done|].
    left. by vm_compute.
Defined.

(** C4, as first stated, fails: a non-empty corpus in which neither stage
    keeps a document gets the empty list, not a sentinel. *)
Lemma search_sentinel_counterexample :
  RagService.weighted ["abc"] "xyz" "dishwasher" = []
  ∧ RagService._fallback_similarity ["abc"] "xyz" = []
  ∧ RagService.search ["abc"] "xyz" "dishwasher" 6 = [].
Proof. by vm_compute. Qed.

(** C5, as first stated, fails for a context outside the weight table: the
    appended term weighs the default 1.0, not 5.0. *)
Lemma context_term_weight_counterexample :
  RagService.base_weights !! "oven" = None
  ∧ RagService.term_weight "oven" "oven" = 10%Z
  ∧ RagService.term_weight "oven" "oven" ≠ 50%Z
  ∧ RagService.doc_score (RagService.query_terms "" "oven") "oven" "oven" = 10%Z.
Proof. by vm_compute. Qed.

(* ===================================================================== *)
(** * Scoring under an added brand token *)
(* ===================================================================== *)

Section BrandFacts.

Import CatalogClass.

Implicit Types (items : list item) (order : list string) (q b : string) (p : item).

Lemma all_brand_checks : forallb brand_checks BRANDS = true.
Proof. by vm_compute. Qed.

Lemma brand_checked b : b ∈ BRANDS → brand_checks b = true.
Proof.
  intros Hb. pose proof all_brand_checks as H.
  rewrite forallb_forall in H. apply H. by apply list_elem_of_In.
Qed.

Lemma lc_Some q : _lc (Some q) = Py.lower (Py.strip q).
Proof. unfold _lc. by destruct q. Qed.

Lemma space_not_token c : Py.is_space c = true → is_token_char c = false.
Proof. destruct c as [[] [] [] [] [] [] [] []]; by vm_compute. Qed.

(** The folded text of the extended query. *)
Lemma lc_with_brand q b :
  Py.strip q ≠ "" → b ∈ BRANDS →
  ∃ W, Py.all_chars Py.is_space W = true ∧ W ≠ ""
       ∧ _lc (Some (with_brand q b)) = _lc (Some q) ++ W ++ b.
Proof.
  intros Hq Hb. apply brand_checked in Hb. unfold brand_checks in Hb.
  repeat (apply andb_true_iff in Hb as [Hb ?]).
  apply String.eqb_eq in Hb.
  assert (b ≠ "") as Hne by (by destruct b).
  destruct (strip_app_word q b Hq Hb Hne) as (W & HW & HWne & Hs).
  exists W. split; [done|]. split; [done|].
  rewrite !lc_Some. unfold with_brand. rewrite Hs.
  unfold Py.lower. rewrite !map_chars_app. fold Py.lower.
  rewrite (lower_blank W HW).
  f_equal. f_equal. by apply String.eqb_eq.
Qed.

Lemma brand_facts b :
  b ∈ BRANDS →
  Py.all_chars is_token_char b = true
  ∧ b ≠ ""
  ∧ _lc (Some (Py.capitalize b)) = b
  ∧ Py.nonempty (Py.capitalize b) = true
  ∧ (∀ kw, kw ∈ scorer_keywords → sep_safe b kw = true)
  ∧ (∀ b', b' ∈ BRANDS → b' ≠ b → sep_safe b b' = true).
Proof.
  intros Hb. apply brand_checked in Hb. unfold brand_checks in Hb.
  apply andb_true_iff in Hb as [Hb Hbrands].
  apply andb_true_iff in Hb as [Hb Hkws].
  apply andb_true_iff in Hb as [Hb Hcapne].
  apply andb_true_iff in Hb as [Hb Hcap].
  apply andb_true_iff in Hb as [Hb Htok].
  apply andb_true_iff in Hb as [Hb Hlow].
  apply andb_true_iff in Hb as [Hrs Hne].
  split; [done|]. split; [by destruct b|]. split; [by apply String.eqb_eq|].
  split; [done|]. split.
  - intros kw Hkw. rewrite forallb_forall in Hkws. apply Hkws. by apply list_elem_of_In.
  - intros b' Hb' Hneq. rewrite forallb_forall in Hbrands.
    specialize (Hbrands b'). rewrite <- list_elem_of_In in Hbrands.
    specialize (Hbrands Hb'). apply orb_true_iff in Hbrands as [Heq|?]; [|done].
    by apply String.eqb_eq in Heq.
Qed.

Lemma hits_ext keys tl tl' :
  (∀ kw, kw ∈ keys → Py.contains kw tl' = Py.contains kw tl) →
  hits keys tl' = hits keys tl.
Proof.
  intros H. unfold hits. f_equal.
  induction keys as [|kw keys IH]; [done|].
  rewrite !filter_cons. rewrite H by apply list_elem_of_here.
  rewrite IH; [done|]. intros k Hk. apply H. by apply list_elem_of_further.
Qed.

Lemma guess_category_ext q q' :
  (∀ kw, kw ∈ scorer_keywords →
         Py.contains kw (_lc (Some q')) = Py.contains kw (_lc (Some q))) →
  _guess_category q' = _guess_category q.
Proof.
  intros H. unfold _guess_category. f_equal.
  assert (∀ ck, ck ∈ CATEGORY_KEYS →
                hits ck.2 (_lc (Some q')) = hits ck.2 (_lc (Some q))) as Hhits.
  { intros ck Hck. apply hits_ext. intros kw Hkw. apply H.
    unfold scorer_keywords. apply elem_of_app. right.
    apply list_elem_of_In, in_concat. exists ck.2.
    split; [|by apply list_elem_of_In].
    apply in_map. by apply list_elem_of_In. }
  revert Hhits. generalize (@None string, 0%nat). generalize CATEGORY_KEYS.
  intros l. induction l as [|ck l IH]; intros acc Hl; simpl; [done|].
  rewrite (Hl ck) by apply list_elem_of_here.
  apply IH. intros ck' Hck'. apply Hl. by apply list_elem_of_further.
Qed.

Lemma guess_appliance_ext q q' d :
  (∀ kw, kw ∈ scorer_keywords →
         Py.contains kw (_lc (Some q')) = Py.contains kw (_lc (Some q))) →
  _guess_appliance q' d = _guess_appliance q d.
Proof.
  intros H. unfold _guess_appliance. simpl.
  rewrite !H; [done|unfold scorer_keywords; set_solver..].
Qed.

Lemma find_unique {B} (f : B → bool) (l : list B) x :
  (∀ y, y ∈ l → f y = true → y = x) → x ∈ l → f x = true →
  List.find f l = Some x.
Proof.
  intros Huniq Hin Hx. induction l as [|y l IH]; [by apply elem_of_nil in Hin|].
  simpl. destruct (f y) eqn:Hy.
  - f_equal. apply Huniq; [apply list_elem_of_here|done].
  - apply IH.
    + intros z Hz. apply Huniq. by apply list_elem_of_further.
    + apply elem_of_cons in Hin as [->|Hin]; [congruence|done].
Qed.

Lemma find_none_elem {B} (f : B → bool) (l : list B) x :
  List.find f l = None → x ∈ l → f x = false.
Proof.
  intros H Hin. apply list_elem_of_In in Hin. by eapply find_none.
Qed.

(** What the three guesses and the token list become when a brand token is
    appended to a non-blank query in which no brand name occurs. *)
Lemma guesses_with_brand order q b :
  order ≡ₚ BRANDS → b ∈ BRANDS → Py.strip q ≠ "" → _guess_brand order q = None →
  _guess_brand order (with_brand q b) = Some (Py.capitalize b)
  ∧ _guess_appliance (with_brand q b) None = _guess_appliance q None
  ∧ _guess_category (with_brand q b) = _guess_category q
  ∧ _tokens (with_brand q b) = (_tokens q ++ [b])%list.
Proof.
  intros Hperm Hb Hq Hnone.
  destruct (lc_with_brand q b Hq Hb) as (W & HW & HWne & Hlc).
  destruct (brand_facts b Hb) as (Htok & Hne & Hcap & Hcapne & Hkws & Hbrands).
  assert (∀ kw, kw ∈ scorer_keywords →
                Py.contains kw (_lc (Some (with_brand q b)))
                = Py.contains kw (_lc (Some q))) as Hext.
  { intros kw Hkw. rewrite Hlc. apply contains_sep; auto. }
  split; [|split; [|split]].
  - unfold _guess_brand in *.
    destruct (List.find _ order) as [x|] eqn:Hfind in Hnone; [done|].
    rewrite (find_unique _ order b); [done|..].
    + intros b' Hb' Hc. destruct (decide (b' = b)) as [|Hneq]; [done|].
      rewrite Hlc in Hc. rewrite contains_sep in Hc; auto.
      * by rewrite (find_none_elem _ _ b' Hfind Hb') in Hc.
      * apply Hbrands; [|done]. by rewrite <- Hperm.
    + by rewrite Hperm.
    + rewrite Hlc. apply contains_app_r, contains_app_r, contains_refl.
  - by apply guess_appliance_ext.
  - by apply guess_category_ext.
  - unfold _tokens, Py.runs. rewrite Hlc.
    apply runs_go_sep; auto using space_not_token.
Qed.

Lemma tok_bonus_range p t : (0 <= tok_bonus p t <= 90)%Z.
Proof. unfold tok_bonus. repeat case_match; lia. Qed.

Lemma tok_sum_nonneg p toks : (0 <= tok_sum p toks)%Z.
Proof.
  induction toks as [|t toks IH]; simpl; [done|].
  pose proof (tok_bonus_range p t). lia.
Qed.

(** The loop over the query tokens adds [tok_sum] to the running score. *)
Lemma fold_tokens p toks (s0 : Z) :
  fold_left
    (fun s t =>
       let s' := if Py.contains t (_lc (getd (name p) "")) then (s + 60)%Z else s in
       if Py.contains t (_lc (getd (description p) "")) then (s' + 30)%Z else s')
    toks s0
  = (s0 + tok_sum p toks)%Z.
Proof.
  revert s0. induction toks as [|t toks IH]; intros s0; simpl; [lia|].
  rewrite IH. unfold tok_bonus. repeat case_match; lia.
Qed.

(** The score with a brand guess, against the score without one. *)
Lemma score_with_guess B appl cat toks toks' p :
  score (Some B) appl cat toks' p
  = (score None appl cat toks p
     + (if Py.nonempty B && Py.contains (_lc (Some B)) (_lc (getd (brand p) ""))
        then 200 else 0)
     + tok_sum p toks' - tok_sum p toks)%Z.
Proof.
  unfold score. rewrite !fold_tokens.
  repeat case_match; lia.
Qed.

Lemma score_lower qbrand appl cat toks p : (5 <= score qbrand appl cat toks p)%Z.
Proof.
  unfold score. rewrite fold_tokens. pose proof (tok_sum_nonneg p toks).
  repeat case_match; lia.
Qed.

(** One more token at the end of the query adds its bonus once, unless
    the query already held it. *)
Lemma tok_sum_snoc p l b :
  tok_sum p (remove_dups (l ++ [b]))
  = (tok_sum p (remove_dups l) + (if decide (b ∈ l) then 0 else tok_bonus p b))%Z.
Proof.
  induction l as [|x l IH].
  - simpl. destruct (decide_rel (∈) b []) as [H|H]; [by apply elem_of_nil in H|].
    destruct (decide (b ∈ [])) as [H'|H']; [by apply elem_of_nil in H'|].
    simpl. lia.
  - change ((x :: l) ++ [b])%list with (x :: (l ++ [b]))%list. simpl remove_dups.
    destruct (decide_rel (∈) x (l ++ [b])%list) as [H1|H1],
             (decide_rel (∈) x l) as [H2|H2]; simpl; rewrite IH.
    + f_equal. apply decide_ext. rewrite elem_of_cons.
      split; [tauto|]. by intros [->|?].
    + apply elem_of_app in H1 as [H1|H1]; [done|].
      apply list_elem_of_singleton in H1 as ->.
      rewrite (decide_False (P := b ∈ l)) by done.
      rewrite (decide_True (P := b ∈ b :: l)) by apply list_elem_of_here. lia.
    + exfalso. apply H1, elem_of_app. by left.
    + assert (x ≠ b) as Hne.
      { intros ->. apply H1, elem_of_app. right. apply list_elem_of_here. }
      rewrite <- Z.add_assoc. do 2 f_equal.
      apply decide_ext. rewrite elem_of_cons.
      split; [tauto|]. intros [?|?]; [congruence|done].
Qed.

Lemma guess_category_blank q : Py.strip q = "" → _guess_category q = None.
Proof. intros H. unfold _guess_category. rewrite lc_Some, H. reflexivity. Qed.

(** The scores before and after a brand token is appended to a query that
    holds no brand name. *)
Lemma score_of_with_brand order q b p :
  order ≡ₚ BRANDS → b ∈ BRANDS → Py.strip q ≠ "" → _guess_brand order q = None →
  score_of order (with_brand q b) p
  = (score_of order q p
     + (if brand_field_has b p then 200 else 0)
     + (if decide (b ∈ _tokens q) then 0 else tok_bonus p b))%Z.
Proof.
  intros Hperm Hb Hq Hnone.
  destruct (guesses_with_brand order q b Hperm Hb Hq Hnone) as (Hg & Ha & Hc & Ht).
  destruct (brand_facts b Hb) as (_ & _ & Hcap & Hcapne & _).
  unfold score_of. rewrite Hg, Ha, Hc, Ht, Hnone.
  rewrite (score_with_guess _ _ _ (remove_dups (_tokens q))).
  rewrite Hcap, Hcapne, tok_sum_snoc. unfold brand_field_has. simpl. lia.
Qed.

Lemma lc_strip q : _lc (Some (Py.strip q)) = _lc (Some q).
Proof. by rewrite !lc_Some, strip_idem. Qed.

(** Scores and ranking depend on the query only through its folded text. *)
Lemma score_of_ext order q1 q2 p :
  _lc (Some q1) = _lc (Some q2) → score_of order q1 p = score_of order q2 p.
Proof.
  intros H. unfold score_of, _guess_brand, _guess_appliance, _guess_category, _tokens.
  by rewrite H.
Qed.

Lemma ranked_ext order items q1 q2 :
  _lc (Some q1) = _lc (Some q2) → ranked order items q1 = ranked order items q2.
Proof.
  intros H. unfold ranked, _guess_brand, _guess_appliance, _guess_category, _tokens.
  by rewrite H.
Qed.

(** The sorted list holds exactly the entries that reach the threshold,
    each with its score. *)
Lemma ranked_elem order items q s p :
  (s, p) ∈ ranked order items q
  ↔ p ∈ items ∧ s = score_of order q p ∧ (60 <= s)%Z.
Proof.
  unfold ranked. rewrite sort_desc_elem, list_elem_of_filter, list_elem_of_fmap.
  fold (score_of order q). simpl. split.
  - intros (Hs & p' & [= -> ->] & Hp). done.
  - intros (Hp & -> & Hs). split; [done|]. by exists p.
Qed.

Lemma score_geb_total (x y : Z * item) : score_geb x y = false → score_geb y x = true.
Proof. unfold score_geb. rewrite Z.leb_gt, Z.leb_le. lia. Qed.

Lemma score_geb_trans (x y z : Z * item) :
  score_geb x y = true → score_geb y z = true → score_geb x z = true.
Proof. unfold score_geb. rewrite !Z.leb_le. lia. Qed.

(** In the sorted list a strictly higher score comes first. *)
Lemma ranked_before order items q e1 e2 :
  e1 ∈ items → (60 <= score_of order q e1)%Z →
  (score_of order q e2 < score_of order q e1)%Z →
  ∀ j s2, ranked order items q !! j = Some (s2, e2) →
          ∃ i, i < j ∧ ranked order items q !! i = Some (score_of order q e1, e1).
Proof.
  intros Hin Hq Hlt j s2 Hj.
  assert ((score_of order q e1, e1) ∈ ranked order items q) as Hi
      by by apply ranked_elem.
  apply list_elem_of_lookup in Hi as [i Hi].
  assert (s2 = score_of order q e2) as ->.
  { apply list_elem_of_lookup_2 in Hj. by apply ranked_elem in Hj as (_ & -> & _). }
  exists i. split; [|done].
  destruct (lt_eq_lt_dec i j) as [[?| ->]|Hji]; [done|..].
  - rewrite Hi in Hj. injection Hj as Hj _. lia.
  - pose proof (sort_desc_lookup score_geb score_geb_total score_geb_trans
                  _ j i _ _ Hji Hj Hi) as Hge.
    unfold score_geb in Hge. simpl in Hge. apply Z.leb_le in Hge. lia.
Qed.

(** The scored path of [search]. *)
Lemma search_scored order items query :
  PARTNUM_RE_search (Py.strip query) = None →
  Py.strip query ≠ "" →
  search order items query None None
  = match firstn 5 (map snd (ranked order items query)) with
    | [] => [no_local_results query (Py.strip query)]
    | r => r
    end.
Proof.
  intros Hre Hne. unfold search. simpl.
  replace (Py.or_str query "") with query by (by destruct query).
  rewrite <- (ranked_ext order items (Py.strip query) query (lc_strip query)).
  rewrite Hre.
  assert (Py.nonempty (Py.strip query) = true) as ->
      by (by destruct (Py.strip query)).
  simpl. by destruct (firstn 5 _).
Qed.

Lemma with_brand_nonblank q b :
  Py.strip q ≠ "" → b ∈ BRANDS → Py.strip (with_brand q b) ≠ "".
Proof.
  intros Hq Hb. apply brand_checked in Hb. unfold brand_checks in Hb.
  repeat (apply andb_true_iff in Hb as [Hb ?]).
  apply String.eqb_eq in Hb.
  assert (b ≠ "") as Hne by (by destruct b).
  destruct (strip_app_word q b Hq Hb Hne) as (W & _ & _ & Hs).
  unfold with_brand. rewrite Hs. by destruct (Py.strip q).
Qed.

Lemma matches_category_nonblank q p : matches_category q p → Py.strip q ≠ "".
Proof.
  intros (c & Hc & _) Hblank. by rewrite guess_category_blank in Hc.
Qed.

(** C8. For a query that holds no brand name and matches an entry by
    category, appending the name of a brand found in that entry's brand field
    raises the entry's score by at least 1.1 more than the score of any
    entry whose brand field lacks the name; so where the entry scored at
    least as high as such an entry before, every place the other entry takes
    in the scored result of the extended query comes after a place of the
    entry. *)
Theorem brand_token_keeps_rank order items q b e1 e2 :
  order ≡ₚ BRANDS → b ∈ BRANDS → _guess_brand order q = None →
  matches_category q e1 →
  brand_field_has b e1 = true → brand_field_has b e2 = false →
  (score_of order q e1 - score_of order q e2 + 110
   <= score_of order (with_brand q b) e1 - score_of order (with_brand q b) e2)%Z
  ∧ (e1 ∈ items → (score_of order q e2 <= score_of order q e1)%Z →
     PARTNUM_RE_search (Py.strip (with_brand q b)) = None →
     ∀ j, search order items (with_brand q b) None None !! j = Some e2 →
          ∃ i, i < j ∧ search order items (with_brand q b) None None !! i = Some e1).
Proof.
  intros Hperm Hb Hnone Hcat H1 H2.
  pose proof (matches_category_nonblank q e1 Hcat) as Hq.
  pose proof (score_of_with_brand order q b e1 Hperm Hb Hq Hnone) as Hs1.
  pose proof (score_of_with_brand order q b e2 Hperm Hb Hq Hnone) as Hs2.
  rewrite H1 in Hs1. rewrite H2 in Hs2.
  pose proof (tok_bonus_range e1 b) as Hr1.
  pose proof (tok_bonus_range e2 b) as Hr2.
  assert (score_of order q e1 - score_of order q e2 + 110
          <= score_of order (with_brand q b) e1
             - score_of order (with_brand q b) e2)%Z as Hgap.
  { rewrite Hs1, Hs2. case_decide; lia. }
  split; [exact Hgap|].
  intros Hin Hle Hre j Hj.
  pose proof (score_lower (_guess_brand order q) (_guess_appliance q None)
                (_guess_category q) (remove_dups (_tokens q)) e1) as Hlow.
  fold (score_of order q e1) in Hlow.
  assert (60 <= score_of order (with_brand q b) e1)%Z as Hq1
      by (rewrite Hs1; case_decide; lia).
  assert (score_of order (with_brand q b) e2 < score_of order (with_brand q b) e1)%Z
    as Hlt by lia.
  pose proof (with_brand_nonblank q b Hq Hb) as Hne.
  rewrite (search_scored order items _ Hre Hne) in *.
  pose proof (ranked_before order items (with_brand q b) e1 e2 Hin Hq1 Hlt) as Hbefore.
  destruct (firstn 5 (map snd (ranked order items (with_brand q b)))) as [|r0 rs] eqn:Hres.
  - exfalso.
    assert ((score_of order (with_brand q b) e1, e1)
            ∈ ranked order items (with_brand q b)) as Hi by by apply ranked_elem.
    destruct (ranked order items (with_brand q b)); [by apply elem_of_nil in Hi|done].
  - rewrite <- Hres in *.
    apply lookup_take_Some in Hj as [Hj Hj5].
    rewrite list_lookup_fmap in Hj.
    destruct (ranked order items (with_brand q b) !! j) as [[s2 e2']|] eqn:Hj'; [|done].
    simpl in Hj. injection Hj as ->.
    destruct (Hbefore j s2 Hj') as (i & Hij & Hi).
    exists i. split; [done|].
    apply lookup_take_Some. split; [|lia].
    by rewrite list_lookup_fmap, Hi.
Qed.

(** The order in which the brand set is iterated matters to [search] only
    through the brand guess. *)
Lemma search_guess_ext order order' items query part model :
  _guess_brand order (Py.strip (Py.or_str (Py.or_none part query) ""))
  = _guess_brand order' (Py.strip (Py.or_str (Py.or_none part query) "")) →
  search order items query part model = search order' items query part model.
Proof. intros H. unfold search, ranked. by rewrite H. Qed.

(** When a single brand name occurs in the text, it is the guess under
    every iteration order. *)
Lemma guess_brand_single order t b :
  order ≡ₚ BRANDS → b ∈ BRANDS →
  forallb (fun b' => String.eqb b' b || negb (Py.contains b' (_lc (Some t)))) BRANDS = true →
  Py.contains b (_lc (Some t)) = true →
  _guess_brand order t = Some (Py.capitalize b).
Proof.
  intros Hperm Hb Hall Hc. unfold _guess_brand.
  rewrite (find_unique _ order b); [done|..].
  - intros b' Hb' Hc'. rewrite forallb_forall in Hall.
    specialize (Hall b'). rewrite <- list_elem_of_In, <- Hperm in Hall.
    specialize (Hall Hb'). apply orb_true_iff in Hall as [Heq|Hn].
    + by apply String.eqb_eq.
    + by rewrite Hc' in Hn.
  - by rewrite Hperm.
  - done.
Qed.

End BrandFacts.

Lemma brand_token_keeps_rank_witness :
  let items := [Samples.bosch_rack; Samples.upper_rack] in
  CatalogClass.search CatalogClass.BRANDS items "rack" None None
  = [Samples.bosch_rack; Samples.upper_rack]
  ∧ ∃ i, i < 1
         ∧ CatalogClass.search CatalogClass.BRANDS items (with_brand "rack" "whirlpool")
                               None None !! i
           = Some Samples.upper_rack.
Proof.
  intros items. split; [reflexivity|].
  assert ("whirlpool" ∈ CatalogClass.BRANDS) as Hb by apply list_elem_of_here.
  assert (matches_category "rack" Samples.upper_rack) as Hcat
      by (exists "rack"; split; reflexivity).
  assert (Samples.upper_rack ∈ items) as Hin
      by (apply list_elem_of_further, list_elem_of_here).
  apply (proj2 (brand_token_keeps_rank CatalogClass.BRANDS items "rack" "whirlpool"
                  Samples.upper_rack Samples.bosch_rack
                  (reflexivity _) Hb eq_refl Hcat eq_refl eq_refl) Hin);
    [by vm_compute|reflexivity|reflexivity].
Defined.

(** C8, as first stated, fails when the query already holds the brand name
    inside another word: in [fridge shelf] the guess is already the brand
    [ge], so appending the token [ge] adds no brand bonus, while as a new
    token it raises the score of an entry of another brand that mentions it
    in its name and description, which overtakes the matched entry. *)
Lemma brand_token_rank_counterexample :
  let items := [Samples.ge_shelf; Samples.other_shelf] in
  let q := "fridge shelf" in
  matches_category q Samples.ge_shelf
  ∧ brand_field_has "ge" Samples.ge_shelf = true
  ∧ brand_field_has "ge" Samples.other_shelf = false
  ∧ CatalogClass.search CatalogClass.BRANDS items q None None
    = [Samples.ge_shelf; Samples.other_shelf]
  ∧ CatalogClass.search CatalogClass.BRANDS items (with_brand q "ge") None None
    = [Samples.other_shelf; Samples.ge_shelf].
Proof.
  split; [|by vm_compute]. exists "tray". split; reflexivity.
Qed.

(** The same two answers come out under every iteration order of the
    brand set. *)
Lemma same_answers_under_any_brand_order order :
  order ≡ₚ CatalogClass.BRANDS →
  let items := [Samples.ge_shelf; Samples.other_shelf] in
  CatalogClass.search order items "fridge shelf" None None
  = [Samples.ge_shelf; Samples.other_shelf]
  ∧ CatalogClass.search order items (with_brand "fridge shelf" "ge") None None
    = [Samples.other_shelf; Samples.ge_shelf].
Proof.
  intros Hperm items.
  assert ("ge" ∈ CatalogClass.BRANDS) as Hb
      by (do 2 apply list_elem_of_further; apply list_elem_of_here).
  split.
  - rewrite (search_guess_ext order CatalogClass.BRANDS); [by vm_compute|].
    rewrite (guess_brand_single order _ "ge" Hperm Hb); by vm_compute.
  - rewrite (search_guess_ext order CatalogClass.BRANDS); [by vm_compute|].
    rewrite (guess_brand_single order _ "ge" Hperm Hb); by vm_compute.
Qed.

(* ===================================================================== *)
(** * Session memory over sequences of calls *)
(* ===================================================================== *)

Section MemoryInvariant.

Import Guardrails.Memory.

Lemma well_keyed_get session_id st :
  well_keyed st →
  well_keyed (get session_id st).2 ∧ dom (get session_id st).1 = SESSION_FIELDS.
Proof.
  intros Hst. unfold get, _get_or_create.
  destruct (st !! session_id) as [session|] eqn:E; simpl.
  - split; [done|]. by apply (Hst session_id).
  - split; [|reflexivity]. by apply map_Forall_insert_2.
Qed.

Lemma well_keyed_update session_id kwargs st :
  well_keyed st → well_keyed (update session_id kwargs st).
Proof.
  intros Hst. unfold update.
  destruct (well_keyed_get session_id st Hst) as [Hst1 Hdom].
  unfold get in *. destruct (_get_or_create session_id st) as [session st1].
  simpl in *. apply map_Forall_insert_2; [|done].
  by rewrite assign_all_dom.
Qed.

(** Whatever calls are made on a [Memory] object, every session record
    keeps exactly the keys [last_intent], [last_part] and [last_model]. *)
Theorem memory_records_keep_their_keys ops : well_keyed (after_ops ops).
Proof.
  unfold after_ops.
  assert (well_keyed ∅) as H0 by apply map_Forall_empty.
  revert H0. generalize (∅ : gmap string (gmap string (option string))).
  induction ops as [|op ops IH]; intros st Hst; simpl; [done|].
  apply IH. destruct op as [sid|sid kwargs]; simpl.
  - by apply well_keyed_get.
  - by apply well_keyed_update.
Qed.

Lemma after_ops_well_keyed ops : well_keyed (after_ops ops).
Proof.
  unfold after_ops.
  assert (well_keyed ∅) as H0 by apply map_Forall_empty.
  revert H0. generalize (∅ : gmap string (gmap string (option string))).
  induction ops as [|op ops IH]; intros st Hst; simpl; [done|].
  apply IH. destruct op as [sid|sid kwargs]; simpl.
  - by apply well_keyed_get.
  - by apply well_keyed_update.
Qed.

(** C9. On the store any calls have left, [update] applies a named field
    when it is one of [last_intent], [last_part] and [last_model] and drops
    every other name, the session field [last_switch_refused_for] among
    them: the record never holds that field.  Fields that are not named and
    other sessions stay as they were, and a second identical call changes
    nothing. *)
Theorem update_drops_the_refusal_field ops session_id kwargs :
  NoDup kwargs.*1 →
  let st := after_ops ops in
  let before := (get session_id st).1 in
  let st' := update session_id kwargs st in
  (∃ after,
      st' !! session_id = Some after
      ∧ (∀ k v, (k, v) ∈ kwargs → k ∈ SESSION_FIELDS → after !! k = Some v)
      ∧ (∀ k, k ∉ kwargs.*1 → after !! k = before !! k)
      ∧ (∀ k, k ∉ SESSION_FIELDS → after !! k = None)
      ∧ after !! "last_switch_refused_for" = None)
  ∧ (∀ other, other ≠ session_id → st' !! other = st !! other)
  ∧ update session_id kwargs st' = st'.
Proof.
  intros Hnd st before st'.
  pose proof (after_ops_well_keyed ops) as Hkeys. fold st in Hkeys.
  destruct (well_keyed_get session_id st Hkeys) as [_ Hdom]. fold before in Hdom.
  assert (∀ k, k ∉ SESSION_FIELDS → fold_left assign kwargs before !! k = None) as Hout.
  { intros k Hk. apply assign_all_unknown. apply not_elem_of_dom. by rewrite Hdom. }
  split; [|split].
  - exists (fold_left assign kwargs before). split; [apply update_lookup|].
    split; [|split; [|split]].
    + intros k v Hin Hk. apply assign_all_named; [done..|].
      apply elem_of_dom. by rewrite Hdom.
    + intros k Hk. by apply assign_all_frame.
    + exact Hout.
    + apply Hout. compute_done.
  - intros other Hne. by apply update_other.
  - by apply update_idem.
Qed.

(** [get] after [update] reads back every named field of the record, and
    reads the stored record again on every later call. *)
Lemma get_after_update session_id kwargs st k v :
  well_keyed st → NoDup kwargs.*1 → (k, v) ∈ kwargs → k ∈ SESSION_FIELDS →
  (get session_id (update session_id kwargs st)).1 !! k = Some v.
Proof.
  intros Hst Hnd Hin Hk.
  unfold get. rewrite (get_or_create_seen _ _ _ (update_lookup session_id kwargs st)).
  simpl. apply assign_all_named; [done..|].
  apply elem_of_dom. fold (get session_id st).
  by rewrite (proj2 (well_keyed_get session_id st Hst)).
Qed.

End MemoryInvariant.

Lemma update_drops_the_refusal_field_witness :
  let kwargs := [("last_switch_refused_for", Some "refrigerator");
                 ("last_part", Some "PS11752778")] in
  NoDup kwargs.*1
  ∧ ∃ after,
      Guardrails.Memory.update "demo" kwargs ∅ !! "demo" = Some after
      ∧ after !! "last_part" = Some (Some "PS11752778")
      ∧ after !! "last_switch_refused_for" = None.
Proof.
  intros kwargs.
  assert (NoDup kwargs.*1) as Hnd by compute_done.
  split; [exact Hnd|].
  destruct (update_drops_the_refusal_field [] "demo" kwargs Hnd)
    as [(after & Hl & Hnamed & _ & _ & Hdrop) _].
  exists after. split; [exact Hl|]. split; [|exact Hdrop].
  apply Hnamed; [apply list_elem_of_further, list_elem_of_here|compute_done].
Defined.

(* ===================================================================== *)
(** * Invariants of the router *)
(* ===================================================================== *)

Section RouterInvariants.

Import App.

Variable svc : services.

Lemma hoare_ret {A} (a : A) (P : world → Prop) (Q : A → world → Prop) :
  (∀ w, P w → Q a w) → hoare P (mret a) Q.
Proof. intros H w Hw. by apply H. Qed.

Lemma hoare_bind {A B} (m : M A) (f : A → M B) (P : world → Prop)
      (R : A → world → Prop) (Q : B → world → Prop) :
  hoare P m R → (∀ a, hoare (R a) (f a) Q) → hoare P (m ≫= f) Q.
Proof.
  intros Hm Hf w Hw. unfold mbind, M_bind.
  pose proof (Hm w Hw) as H1. destruct (m w) as [a w1]. simpl in H1.
  exact (Hf a w1 H1).
Qed.

Lemma hoare_post {A} (m : M A) (P : world → Prop) (Q Q' : A → world → Prop) :
  hoare P m Q → (∀ a w, Q a w → Q' a w) → hoare P m Q'.
Proof. intros Hm HQ w Hw. by apply HQ, Hm. Qed.

(** A turn as three phases: before the user message is stored ([I]), after
    it ([J]), and after the assistant's reply is stored ([K]). *)
Section Phases.

Variables (I J K : world → Prop) (x_session_id : string).

Hypothesis user_step : ∀ q, hoare I (push_user x_session_id q) (λ _, J).
Hypothesis get_J : hoare J (memory_get x_session_id) (λ _, J).
Hypothesis update_J : ∀ kwargs, hoare J (memory_update x_session_id kwargs) (λ _, J).
Hypothesis emit_J : ∀ e, hoare J (emit e) (λ _, J).
Hypothesis assistant_step : ∀ reply, hoare J (push_assistant x_session_id reply) (λ _, K).
Hypothesis get_K : hoare K (memory_get x_session_id) (λ _, K).
Hypothesis update_K : ∀ kwargs, hoare K (memory_update x_session_id kwargs) (λ _, K).
Hypothesis J_K : ∀ w, J w → K w.

Lemma phases_part_search q cur_appliance mem :
  hoare J (part_search svc q cur_appliance mem x_session_id) (λ _, J).
Proof.
  unfold part_search.
  eapply hoare_bind; [apply emit_J|]. intros ?.
  destruct (find_parts svc _ _ _ _) as [results|]; [|by apply hoare_ret].
  match goal with |- context [if ?b then _ else _] => destruct b end;
    (eapply hoare_bind; [apply get_J|]; intros m; by apply hoare_ret).
Qed.

Lemma phases_fallback q cur_appliance itype history :
  hoare J (fallback svc q cur_appliance itype history x_session_id) (λ _, K).
Proof.
  unfold fallback.
  eapply hoare_bind; [apply emit_J|]. intros ?.
  eapply hoare_bind with (R := λ _, J).
  - destruct (llm svc); [|by apply hoare_ret].
    eapply hoare_bind; [apply emit_J|]. intros ?. by apply hoare_ret.
  - intros reply.
    eapply hoare_bind; [apply assistant_step|]. intros ?.
    eapply hoare_bind; [apply update_K|]. intros ?.
    eapply hoare_bind; [apply get_K|]. intros m. by apply hoare_ret.
Qed.

Lemma phases_handlers q cur_appliance itype ent mem history :
  hoare J (handlers svc q cur_appliance itype ent mem history x_session_id) (λ _, K).
Proof.
  unfold handlers.
  destruct (String.eqb itype "installation").
  - eapply hoare_bind; [apply emit_J|]. intros ?.
    eapply hoare_bind; [apply update_J|]. intros ?.
    eapply hoare_bind; [apply get_J|]. intros m. apply hoare_ret. auto.
  - match goal with |- context [if ?b then _ else _] => destruct b end.
    + destruct (is_compatible svc _ _) as [ok message].
      eapply hoare_bind; [apply emit_J|]. intros ?.
      eapply hoare_bind; [apply update_J|]. intros ?.
      eapply hoare_bind; [apply get_J|]. intros m. apply hoare_ret. auto.
    + apply phases_fallback.
Qed.

Lemma phases_chat inp : hoare I (chat svc inp x_session_id) (λ _, K).
Proof.
  unfold chat.
  eapply hoare_bind; [apply user_step|]. intros history.
  match goal with |- context [if ?b then _ else _] => destruct b end.
  - eapply hoare_bind; [apply update_J|]. intros ?.
    eapply hoare_bind; [apply get_J|]. intros m. apply hoare_ret. auto.
  - eapply hoare_bind; [apply get_J|]. intros mem.
    match goal with |- context [if ?b then _ else _] => destruct b end.
    + apply hoare_ret. auto.
    + match goal with |- context [if ?b then _ else _] => destruct b end.
      * eapply hoare_bind; [apply phases_part_search|]. intros [out|].
        -- apply hoare_ret. auto.
        -- apply phases_handlers.
      * apply phases_handlers.
Qed.

End Phases.

(** An invariant of the state that every step keeps is kept by a turn. *)
Lemma turn_keeps (I : world → Prop) x_session_id :
  (∀ w t, I w → I {| store := store w; chat_memory := chat_memory w; trace := t |}) →
  (∀ q, hoare I (push_user x_session_id q) (λ _, I)) →
  hoare I (memory_get x_session_id) (λ _, I) →
  (∀ kwargs, hoare I (memory_update x_session_id kwargs) (λ _, I)) →
  (∀ reply, hoare I (push_assistant x_session_id reply) (λ _, I)) →
  ∀ inp w, I w → I (turn svc inp x_session_id w).2.
Proof.
  intros Htrace Huser Hget Hupd Hasst inp w Hw. unfold turn.
  apply (phases_chat I I I x_session_id); auto.
  intros e w' Hw'. unfold emit. simpl. by apply Htrace.
Qed.

(** A turn leaves the memory and the history of every other session as
    they were. *)
Theorem turn_touches_one_session inp x_session_id other w :
  other ≠ x_session_id →
  store (turn svc inp x_session_id w).2 !! other = store w !! other
  ∧ chat_memory (turn svc inp x_session_id w).2 !! other = chat_memory w !! other.
Proof.
  intros Hne.
  apply (turn_keeps
           (λ w', store w' !! other = store w !! other
                  ∧ chat_memory w' !! other = chat_memory w !! other)
           x_session_id); [done| | | | |done].
  - intros q w' [H1 H2]. unfold push_user. simpl. split; [done|].
    by rewrite lookup_insert_ne.
  - intros w' [H1 H2]. unfold memory_get.
    pose proof (get_or_create_other x_session_id (store w') other Hne) as Hg.
    unfold Guardrails.Memory.get.
    destruct (Guardrails.Memory._get_or_create x_session_id (store w')) as [m st'].
    simpl in *. split; [congruence|done].
  - intros kwargs w' [H1 H2]. unfold memory_update. simpl. split; [|done].
    by rewrite update_other.
  - intros reply w' [H1 H2]. unfold push_assistant. simpl. split; [done|].
    by rewrite lookup_insert_ne.
Qed.

Lemma well_keyed_turn inp x_session_id w :
  well_keyed (store w) → well_keyed (store (turn svc inp x_session_id w).2).
Proof.
  apply (turn_keeps (λ w', well_keyed (store w')) x_session_id).
  - done.
  - by intros q w' Hw'.
  - intros w' Hw'. unfold memory_get.
    pose proof (proj1 (well_keyed_get x_session_id (store w') Hw')) as Hg.
    by destruct (Guardrails.Memory.get x_session_id (store w')).
  - intros kwargs w' Hw'. unfold memory_update. simpl. by apply well_keyed_update.
  - by intros reply w' Hw'.
Qed.

Lemma run_well_keyed turns : well_keyed (store (run svc turns)).
Proof.
  unfold run.
  assert (well_keyed (store boot)) as H0 by apply map_Forall_empty.
  revert H0. generalize boot.
  induction turns as [|t turns IH]; intros w Hw; simpl; [done|].
  apply IH. by apply well_keyed_turn.
Qed.

(** After any sequence of turns every session record has exactly the keys
    [last_intent], [last_part] and [last_model]. *)
Theorem sessions_keep_their_keys turns : well_keyed (store (run svc turns)).
Proof. apply run_well_keyed. Qed.

End RouterInvariants.

(* ===================================================================== *)
(** * Replies of the router *)
(* ===================================================================== *)

Section RouterReplies.

Import App.

Variable svc : services.

Lemma last_n_length {B} (n : nat) (l : list B) : n <= length l → length (Py.last_n n l) = n.
Proof. intros H. unfold Py.last_n. rewrite length_skipn. lia. Qed.

Lemma history_bound_turn inp x_session_id w :
  map_Forall (λ _ (h : list (string * string)), length h <= 9) (chat_memory w) →
  map_Forall (λ _ (h : list (string * string)), length h <= 9)
             (chat_memory (turn svc inp x_session_id w).2).
Proof.
  intros Hw. unfold turn.
  apply (phases_chat svc
           (λ w', map_Forall (λ _ (h : list (string * string)), length h <= 9)
                             (chat_memory w'))
           (λ w', map_Forall (λ _ (h : list (string * string)), length h <= 9)
                             (chat_memory w')
                  ∧ ∃ h, chat_memory w' !! x_session_id = Some h ∧ length h <= 8)
           (λ w', map_Forall (λ _ (h : list (string * string)), length h <= 9)
                             (chat_memory w'))
           x_session_id); [| | | | | | | |done].
  - intros q w' Hw'. unfold push_user. simpl.
    set (history := (default [] (chat_memory w' !! x_session_id) ++ [("user", q)])%list).
    assert (length (if (8 <? length history)%nat then Py.last_n 8 history else history) <= 8)
      as Hlen.
    { destruct (8 <? length history)%nat eqn:E.
      - apply Nat.ltb_lt in E. rewrite last_n_length; lia.
      - apply Nat.ltb_ge in E. lia. }
    split.
    + apply map_Forall_insert_2; [lia|done].
    + eexists. rewrite lookup_insert_eq. split; [done|exact Hlen].
  - intros w' Hw'. unfold memory_get.
    by destruct (Guardrails.Memory.get x_session_id (store w')).
  - by intros kwargs w' Hw'.
  - by intros e w' Hw'.
  - intros reply w' [Hall (h & Hh & Hlen)]. unfold push_assistant. simpl.
    apply map_Forall_insert_2; [|done].
    rewrite Hh. simpl. rewrite length_app. simpl. lia.
  - intros w' Hw'. unfold memory_get.
    by destruct (Guardrails.Memory.get x_session_id (store w')).
  - by intros kwargs w' Hw'.
  - by intros w' [Hw' _].
Qed.

(** After any sequence of turns the stored conversation of every session
    holds at most nine messages: eight after the user's message is stored,
    one more for the assistant's reply. *)
Theorem stored_history_is_bounded turns :
  map_Forall (λ _ (h : list (string * string)), length h <= 9)
             (chat_memory (run svc turns)).
Proof.
  unfold run.
  assert (map_Forall (λ _ (h : list (string * string)), length h <= 9)
                     (chat_memory boot)) as H0 by apply map_Forall_empty.
  revert H0. generalize boot.
  induction turns as [|t turns IH]; intros w Hw; simpl; [done|].
  apply IH. by apply history_bound_turn.
Qed.

Lemma hoare_get_reports x_session_id (P : world → Prop) :
  hoare P (memory_get x_session_id) (λ m w, store w !! x_session_id = Some m).
Proof.
  intros w _. unfold memory_get.
  pose proof (get_or_create_lookup x_session_id (store w)) as H.
  unfold Guardrails.Memory.get.
  by destruct (Guardrails.Memory._get_or_create x_session_id (store w)).
Qed.

Lemma hoare_any {A} (m : M A) (P : world → Prop) : hoare P m (λ _ _, True).
Proof. by intros w _. Qed.

Lemma reports_part_search q cur_appliance mem x_session_id (P : world → Prop) :
  hoare P (part_search svc q cur_appliance mem x_session_id)
        (λ found w, ∀ out, found = Some out → store w !! x_session_id = Some (memory out)).
Proof.
  unfold part_search.
  eapply hoare_bind; [apply hoare_any|]. intros ?.
  destruct (find_parts svc _ _ _ _) as [results|].
  - match goal with |- context [if ?b then _ else _] => destruct b end;
      (eapply hoare_bind; [apply hoare_get_reports|]; intros m;
       apply hoare_ret; by intros w Hw out [= <-]).
  - apply hoare_ret. by intros w _ out [=].
Qed.

Lemma reports_fallback q cur_appliance itype history x_session_id (P : world → Prop) :
  hoare P (fallback svc q cur_appliance itype history x_session_id)
        (λ out w, store w !! x_session_id = Some (memory out)).
Proof.
  unfold fallback.
  eapply hoare_bind; [apply hoare_any|]. intros ?.
  eapply hoare_bind; [apply hoare_any|]. intros reply.
  eapply hoare_bind; [apply hoare_any|]. intros ?.
  eapply hoare_bind; [apply hoare_any|]. intros ?.
  eapply hoare_bind; [apply hoare_get_reports|]. intros m.
  by apply hoare_ret.
Qed.

Lemma reports_handlers q cur_appliance itype ent mem history x_session_id
      (P : world → Prop) :
  hoare P (handlers svc q cur_appliance itype ent mem history x_session_id)
        (λ out w, store w !! x_session_id = Some (memory out)).
Proof.
  unfold handlers.
  destruct (String.eqb itype "installation").
  - eapply hoare_bind; [apply hoare_any|]. intros ?.
    eapply hoare_bind; [apply hoare_any|]. intros ?.
    eapply hoare_bind; [apply hoare_get_reports|]. intros m. by apply hoare_ret.
  - match goal with |- context [if ?b then _ else _] => destruct b end.
    + destruct (is_compatible svc _ _) as [ok message].
      eapply hoare_bind; [apply hoare_any|]. intros ?.
      eapply hoare_bind; [apply hoare_any|]. intros ?.
      eapply hoare_bind; [apply hoare_get_reports|]. intros m. by apply hoare_ret.
    + apply reports_fallback.
Qed.

Lemma turn_record_is_stored inp x_session_id w :
  store (turn svc inp x_session_id w).2 !! x_session_id
  = Some (memory (turn svc inp x_session_id w).1).
Proof.
  unfold turn.
  assert (hoare (λ _, True) (chat svc inp x_session_id)
                (λ out w', store w' !! x_session_id = Some (memory out))) as H;
    [|exact (H _ I)].
  unfold chat.
  eapply hoare_bind; [apply hoare_any|]. intros history.
  match goal with |- context [if ?b then _ else _] => destruct b end.
  - eapply hoare_bind; [apply hoare_any|]. intros ?.
    eapply hoare_bind; [apply hoare_get_reports|]. intros m. by apply hoare_ret.
  - eapply hoare_bind; [apply hoare_get_reports|]. intros mem.
    match goal with |- context [if ?b then _ else _] => destruct b end.
    + by apply hoare_ret.
    + match goal with |- context [if ?b then _ else _] => destruct b end.
      * eapply hoare_bind; [apply reports_part_search|]. intros [out|].
        -- apply hoare_ret. intros w' Hw'. by apply Hw'.
        -- apply reports_handlers.
      * apply reports_handlers.
Qed.

(** The memory a reply carries is the session's record as the turn leaves
    it in the store. *)
Theorem reply_reports_stored_record inp x_session_id w :
  store (turn svc inp x_session_id w).2 !! x_session_id
  = Some (memory (turn svc inp x_session_id w).1).
Proof. apply turn_record_is_stored. Qed.

End RouterReplies.

(* ===================================================================== *)
(** * Paths of a turn *)
(* ===================================================================== *)

Section RouterPaths.

Import App.

Variable svc : services.

Ltac unfold_turn :=
  unfold turn, chat, part_search, handlers, fallback;
  unfold mbind, M_bind, mret, M_ret, push_user, push_assistant,
         memory_update, memory_get, emit;
  cbv [store chat_memory trace].

Ltac split_turn :=
  repeat match goal with
    | |- context [Guardrails.Memory.get ?a ?b] =>
        let snapshot := fresh "snapshot" in
        let st := fresh "st" in
        destruct (Guardrails.Memory.get a b) as [snapshot st]
    | |- context [find_parts ?s ?a ?b ?c ?d] => destruct (find_parts s a b c d)
    | |- context [is_compatible ?s ?a ?b] => destruct (is_compatible s a b)
    | |- context [llm ?s] => destruct (llm s)
    | |- context [if ?b then _ else _] => destruct b
    end;
  cbn [fst snd intent response memory].

Lemma intent_classify_known q :
  Guardrails.type (Guardrails.intent_classify q) ∈ REPLY_INTENTS.
Proof.
  unfold Guardrails.intent_classify, REPLY_INTENTS.
  repeat case_match; simpl; repeat (apply list_elem_of_here || apply list_elem_of_further).
Qed.

(** Every reply carries one of eight intents. *)
Theorem reply_intent_is_known inp x_session_id w :
  intent (turn svc inp x_session_id w).1 ∈ REPLY_INTENTS.
Proof.
  pose proof (intent_classify_known (text_of inp)) as Hty.
  unfold_turn. fold (text_of inp) (context_of inp).
  split_turn; try exact Hty;
    unfold REPLY_INTENTS; repeat (apply list_elem_of_here || apply list_elem_of_further).
Qed.

Lemma extract_entities_keys q :
  is_Some (Guardrails.extract_entities q !! "part")
  ∧ is_Some (Guardrails.extract_entities q !! "model").
Proof.
  unfold Guardrails.extract_entities. split.
  - rewrite lookup_insert_eq. eauto.
  - rewrite lookup_insert_ne by done. rewrite lookup_singleton_eq. eauto.
Qed.

(** The declared part and model are offered with [setdefault] to a
    dictionary that always has both keys, so they never get in. *)
Lemma entities_ignore_declared inp part model q mem :
  entities (redeclare inp part model) q mem = entities inp q mem.
Proof.
  destruct (extract_entities_keys q) as [[x Hx] [y Hy]].
  assert (∀ v, setdefault "part" v (Guardrails.extract_entities q)
               = Guardrails.extract_entities q) as Hp.
  { intros v. unfold setdefault. by rewrite Hx. }
  assert (∀ v, setdefault "model" v (Guardrails.extract_entities q)
               = Guardrails.extract_entities q) as Hm.
  { intros v. unfold setdefault. by rewrite Hy. }
  unfold entities. simpl.
  destruct (Py.truthy part), (Py.truthy (App.part inp)); rewrite ?Hp;
    destruct (Py.truthy model), (Py.truthy (App.model inp)); by rewrite ?Hm.
Qed.

(** The part and model fields of a request have no effect on the turn. *)
Theorem declared_part_and_model_are_ignored inp part model x_session_id w :
  turn svc (redeclare inp part model) x_session_id w = turn svc inp x_session_id w.
Proof.
  unfold turn, chat. unfold mbind, M_bind, memory_get, push_user.
  change (message (redeclare inp part model)) with (message inp).
  change (appliance (redeclare inp part model)) with (appliance inp).
  cbv [store chat_memory trace].
  match goal with |- context [Py.contains ?a ?b] => destruct (Py.contains a b) end;
    [done|].
  destruct (Guardrails.Memory.get _ _) as [mem st].
  by rewrite entities_ignore_declared.
Qed.

(** The part a turn works with: the part number found in the message, in
    upper case, else the part the session remembers. *)
Lemma entities_part inp q mem :
  mjoin (entities inp q mem !! "part")
  = Py.or_opt (Py.upper <$> Guardrails.PART_REGEX_search q) (mjoin (mem !! "last_part")).
Proof.
  rewrite <- (entities_ignore_declared inp None None).
  unfold entities, redeclare. simpl.
  rewrite lookup_insert_ne by done. rewrite lookup_insert_eq. simpl.
  unfold Guardrails.extract_entities. by rewrite lookup_insert_eq.
Qed.

Lemma installation_turn_at w inp x_session_id :
  well_keyed (store w) →
  Py.contains "user refused switch" (Py.lower (text_of inp)) = false →
  _other_appliance_hint (text_of inp) (context_of inp) = None →
  Guardrails.any_in part_search_keywords (Py.lower (text_of inp)) = false →
  Guardrails.type (Guardrails.intent_classify (text_of inp)) = "installation" →
  let before := (Guardrails.Memory.get x_session_id (store w)).1 in
  let part_num :=
    Py.or_opt (Py.upper <$> Guardrails.PART_REGEX_search (text_of inp))
              (mjoin (before !! "last_part")) in
  let result := turn svc inp x_session_id w in
  response result.1 = install_guide svc part_num
  ∧ intent result.1 = "installation"
  ∧ trace result.2
    = [InstallGuide part_num;
       MemoryUpdate x_session_id
         [("last_part", part_num); ("last_intent", Some "installation")]]
  ∧ memory result.1 !! "last_part" = Some part_num
  ∧ memory result.1 !! "last_intent" = Some (Some "installation")
  ∧ memory result.1 !! "last_model" = before !! "last_model".
Proof.
  intros Hkeys Hmark Halt Hkw Hty before part_num result.
  destruct (well_keyed_get x_session_id (store w) Hkeys) as [Hst1 Hdom].
  pose proof (get_or_create_lookup x_session_id (store w)) as Hmem.
  fold (Guardrails.Memory.get x_session_id (store w)) in Hmem.
  subst result part_num before. unfold_turn.
  fold (store w) (text_of inp) (context_of inp).
  rewrite Hmark, Halt, Hkw, Hty.
  change (String.eqb "installation" "installation") with true.
  cbn [Py.truthy andb].
  destruct (Guardrails.Memory.get x_session_id (store w)) as [mem st1].
  cbn [fst snd] in *. cbv beta iota zeta.
  rewrite entities_part.
  set (part_num := Py.or_opt _ _).
  set (kwargs := [("last_part", part_num); ("last_intent", Some "installation")]).
  assert (NoDup kwargs.*1) as Hnd by compute_done.
  pose proof (get_after_update x_session_id kwargs st1) as Hread.
  pose proof (update_lookup x_session_id kwargs st1) as Hup.
  rewrite (get_or_create_seen _ _ _ Hmem) in Hup. cbn [fst] in Hup.
  unfold Guardrails.Memory.get in *.
  rewrite (get_or_create_seen _ _ _ Hup) in *.
  cbn [fst snd response intent memory].
  split; [done|]. split; [done|]. split; [done|].
  split; [|split].
  - apply Hread; [done|done|apply list_elem_of_here|compute_done].
  - apply Hread; [done|done|apply list_elem_of_further, list_elem_of_here|compute_done].
  - apply assign_all_frame. unfold kwargs. simpl. compute_done.
Qed.


Lemma or_opt_absorb a b : Py.or_opt (Py.or_opt a b) b = Py.or_opt a b.
Proof.
  destruct a as [s|]; simpl.
  - destruct (Py.nonempty s) eqn:E; simpl; [by rewrite E|].
    destruct b as [t|]; simpl; [|done]. by destruct (Py.nonempty t).
  - destruct b as [t|]; simpl; [|done]. by destruct (Py.nonempty t).
Qed.

Lemma entities_model inp q mem :
  mjoin (entities inp q mem !! "model")
  = Py.or_opt (mjoin (Guardrails.extract_entities q !! "model")) (mjoin (mem !! "last_model")).
Proof.
  rewrite <- (entities_ignore_declared inp None None).
  unfold entities, redeclare. simpl.
  rewrite lookup_insert_eq. simpl.
  by rewrite lookup_insert_ne by done.
Qed.

Lemma compatibility_turn_at w inp x_session_id :
  well_keyed (store w) →
  Py.contains "user refused switch" (Py.lower (text_of inp)) = false →
  _other_appliance_hint (text_of inp) (context_of inp) = None →
  Guardrails.any_in part_search_keywords (Py.lower (text_of inp)) = false →
  Guardrails.type (Guardrails.intent_classify (text_of inp)) = "compatibility" →
  let before := (Guardrails.Memory.get x_session_id (store w)).1 in
  let part_num :=
    Py.or_opt (Py.upper <$> Guardrails.PART_REGEX_search (text_of inp))
              (mjoin (before !! "last_part")) in
  let model_hint :=
    Py.or_opt (mjoin (Guardrails.extract_entities (text_of inp) !! "model"))
              (mjoin (before !! "last_model")) in
  Py.truthy part_num = true → Py.truthy model_hint = true →
  let result := turn svc inp x_session_id w in
  response result.1 = (is_compatible svc part_num model_hint).2
  ∧ intent result.1 = "compatibility"
  ∧ trace result.2
    = [IsCompatible part_num model_hint;
       MemoryUpdate x_session_id
         [("last_part", part_num); ("last_model", model_hint);
          ("last_intent", Some "compatibility")]]
  ∧ memory result.1 !! "last_part" = Some part_num
  ∧ memory result.1 !! "last_model" = Some model_hint
  ∧ memory result.1 !! "last_intent" = Some (Some "compatibility").
Proof.
  intros Hkeys Hmark Halt Hkw Hty before part_num model_hint Hp Hm result.
  destruct (well_keyed_get x_session_id (store w) Hkeys) as [Hst1 Hdom].
  pose proof (get_or_create_lookup x_session_id (store w)) as Hmem.
  fold (Guardrails.Memory.get x_session_id (store w)) in Hmem.
  subst result part_num model_hint before. unfold_turn.
  fold (store w) (text_of inp) (context_of inp).
  rewrite Hmark, Halt, Hkw, Hty.
  change (String.eqb "compatibility" "installation") with false.
  change (String.eqb "compatibility" "compatibility") with true.
  cbn [Py.truthy andb].
  destruct (Guardrails.Memory.get x_session_id (store w)) as [mem st1].
  cbn [fst snd] in *. cbv beta iota zeta.
  rewrite entities_part, entities_model, !or_opt_absorb.
  set (part_num := Py.or_opt (Py.upper <$> _) _) in *.
  set (model_hint := Py.or_opt (mjoin (Guardrails.extract_entities _ !! _)) _) in *.
  rewrite Hp, Hm. cbn [andb].
  destruct (is_compatible svc part_num model_hint) as [ok message] eqn:Hc.
  set (kwargs := [("last_part", part_num); ("last_model", model_hint);
                  ("last_intent", Some "compatibility")]).
  assert (NoDup kwargs.*1) as Hnd by compute_done.
  pose proof (get_after_update x_session_id kwargs st1) as Hread.
  pose proof (update_lookup x_session_id kwargs st1) as Hup.
  rewrite (get_or_create_seen _ _ _ Hmem) in Hup. cbn [fst] in Hup.
  unfold Guardrails.Memory.get in *.
  rewrite (get_or_create_seen _ _ _ Hup) in *.
  cbn [fst snd response intent memory].
  split; [done|]. split; [done|]. split; [done|].
  split; [|split].
  - apply Hread; [done|done|apply list_elem_of_here|compute_done].
  - apply Hread; [done|done|apply list_elem_of_further, list_elem_of_here|compute_done].
  - apply Hread; [done|done|do 2 apply list_elem_of_further; apply list_elem_of_here
                 |compute_done].
Qed.

(** A message with a compatibility cue, no refusal marker, no other
    appliance and no part-search keyword, for which a part and a model are
    known from the message or else from the session, is answered, after any
    history, with the verdict of the compatibility check on that part and
    model; the session then remembers both and the intent. *)
Theorem compatibility_turn_remembers_part_and_model turns inp x_session_id :
  Py.contains "user refused switch" (Py.lower (text_of inp)) = false →
  _other_appliance_hint (text_of inp) (context_of inp) = None →
  Guardrails.any_in part_search_keywords (Py.lower (text_of inp)) = false →
  Guardrails.type (Guardrails.intent_classify (text_of inp)) = "compatibility" →
  let before := (Guardrails.Memory.get x_session_id (store (run svc turns))).1 in
  let part_num :=
    Py.or_opt (Py.upper <$> Guardrails.PART_REGEX_search (text_of inp))
              (mjoin (before !! "last_part")) in
  let model_hint :=
    Py.or_opt (mjoin (Guardrails.extract_entities (text_of inp) !! "model"))
              (mjoin (before !! "last_model")) in
  Py.truthy part_num = true → Py.truthy model_hint = true →
  let result := turn svc inp x_session_id (run svc turns) in
  response result.1 = (is_compatible svc part_num model_hint).2
  ∧ intent result.1 = "compatibility"
  ∧ trace result.2
    = [IsCompatible part_num model_hint;
       MemoryUpdate x_session_id
         [("last_part", part_num); ("last_model", model_hint);
          ("last_intent", Some "compatibility")]]
  ∧ memory result.1 !! "last_part" = Some part_num
  ∧ memory result.1 !! "last_model" = Some model_hint
  ∧ memory result.1 !! "last_intent" = Some (Some "compatibility").
Proof.
  intros Hmark Halt Hkw Hty.
  by apply (compatibility_turn_at (run svc turns) inp x_session_id (run_well_keyed svc turns)).
Qed.

End RouterPaths.


(* ===================================================================== *)
(** * Helpers of the router *)
(* ===================================================================== *)

Section HelperFacts.

Import App.

Lemma never_empty_facts text :
  Py.nonempty (never_empty text) = true
  ∧ Py.strip (never_empty text) = never_empty text
  ∧ Py.lower (never_empty text) ∉ ["none"; "null"; "nan"].
Proof.
  assert (Py.nonempty NO_CONTENT = true
          ∧ Py.strip NO_CONTENT = NO_CONTENT
          ∧ Py.lower NO_CONTENT ∉ ["none"; "null"; "nan"]) as Hplace.
  { split; [reflexivity|]. split; [reflexivity|compute_done]. }
  unfold never_empty.
  destruct (negb (Py.nonempty text)); [exact Hplace|].
  destruct (negb (Py.nonempty (Py.strip text))) eqn:Hne; [exact Hplace|].
  simpl. case_bool_decide as Hin; [exact Hplace|].
  apply negb_false_iff in Hne.
  split; [done|]. split; [apply strip_idem|done].
Qed.

Lemma never_empty_idem text : never_empty (never_empty text) = never_empty text.
Proof.
  destruct (never_empty_facts text) as (Hne & Hstrip & Hlow).
  unfold never_empty at 1. rewrite Hne, Hstrip, Hne. simpl.
  by rewrite bool_decide_eq_false_2.
Qed.

(** [never_empty] returns text that is not empty, has no blank at either
    end, and is none of the words none, null and nan in any case; a second
    pass changes nothing. *)
Theorem never_empty_is_presentable text :
  Py.nonempty (never_empty text) = true
  ∧ Py.strip (never_empty text) = never_empty text
  ∧ (Py.lower (never_empty text) ∉ ["none"; "null"; "nan"])
  ∧ never_empty (never_empty text) = never_empty text.
Proof.
  destruct (never_empty_facts text) as (Hne & Hstrip & Hlow).
  repeat split; [done..|apply never_empty_idem].
Qed.

(** The appliance hinted at is never the current one. *)
Theorem other_appliance_hint_is_another q current :
  _other_appliance_hint q current ≠ Some current
  ∧ _other_appliance_hint q current ∈ [None; Some "refrigerator"; Some "dishwasher"].
Proof.
  unfold _other_appliance_hint.
  repeat case_match; repeat case_bool_decide; split; try congruence;
    repeat (apply list_elem_of_here || apply list_elem_of_further).
Qed.

End HelperFacts.

(* ===================================================================== *)
(** * Shape of the catalogue answers *)
(* ===================================================================== *)

Section CatalogAnswers.

Import CatalogClass.

Implicit Types (items : list item) (order : list string).

Lemma StronglySorted_mono {B} (R R' : B → B → Prop) l :
  (∀ x y, R x y → R' x y) → StronglySorted R l → StronglySorted R' l.
Proof.
  intros HR. induction 1 as [|x l Hl IH Hx]; constructor; [done|].
  eapply Forall_impl; [exact Hx|]. auto.
Qed.

Lemma ranked_qualifying order items q :
  ranked order items q = StableSort.sort_desc score_geb (qualifying order items q).
Proof. reflexivity. Qed.

Lemma score_step (s k : Z) : (s mod 10 = 5)%Z → ((s + 10 * k) mod 10 = 5)%Z.
Proof. intros H. rewrite Z.mul_comm. by rewrite Z_mod_plus_full. Qed.

Lemma score_mod_10 qbrand appl cat toks p :
  (score qbrand appl cat toks p mod 10 = 5)%Z.
Proof.
  unfold score. cbv zeta.
  set (s1 := match qbrand with Some _ => _ | None => _ end).
  set (s2 := match appl with Some _ => _ | None => _ end).
  set (s3 := match cat with Some _ => _ | None => _ end).
  assert (s1 mod 10 = 5)%Z as H1.
  { subst s1. destruct qbrand as [b|]; [|done].
    destruct (_ && _); [|done]. apply (score_step 5 20). done. }
  assert (s2 mod 10 = 5)%Z as H2.
  { subst s2. destruct appl as [a|]; [|done].
    destruct (_ && _); [|done]. by apply (score_step s1 25). }
  assert (s3 mod 10 = 5)%Z as H3.
  { subst s3. destruct cat as [c|]; [|done].
    destruct (_ && _); [|done]. by apply (score_step s2 20). }
  clearbody s3. clear H1 H2 s1 s2.
  assert (∀ s, (s mod 10 = 5)%Z →
               (fold_left
                  (λ s t,
                     let s' := if Py.contains t (_lc (getd (name p) ""))
                               then (s + 60)%Z else s in
                     if Py.contains t (_lc (getd (description p) ""))
                     then (s' + 30)%Z else s') toks s mod 10 = 5)%Z) as Hfold.
  { induction toks as [|t toks IH]; intros s Hs; simpl; [done|].
    apply IH.
    destruct (Py.contains t (_lc (getd (name p) "")));
      destruct (Py.contains t (_lc (getd (description p) ""))); try done.
    - apply (score_step (s + 60) 3). by apply (score_step s 6).
    - by apply (score_step s 6).
    - by apply (score_step s 3). }
  specialize (Hfold s3 H3).
  destruct (_ && _); [|done]. by apply (score_step _ 8).
Qed.

(** The scored list is in descending order of score and holds exactly the
    entries that score 0.6 or more, as often as the catalogue holds them.
    Every score is an odd multiple of 0.05: none sits on the threshold and
    two different scores are at least 0.1 apart, so the last bits of a float
    sum change neither which entries are listed nor the order of entries with
    different scores. *)
Theorem scored_list_is_sorted order items q :
  StronglySorted (λ x y : Z * item, (y.1 <= x.1)%Z) (ranked order items q)
  ∧ ranked order items q ≡ₚ qualifying order items q
  ∧ (∀ s p, (s, p) ∈ ranked order items q
            ↔ p ∈ items ∧ s = score_of order q p ∧ (60 <= s)%Z)
  ∧ (∀ p, (score_of order q p mod 10 = 5)%Z)
  ∧ (∀ p p', score_of order q p ≠ score_of order q p' →
             (10 <= Z.abs (score_of order q p - score_of order q p'))%Z).
Proof.
  split; [|split; [|split; [|split]]].
  - pose proof (sort_desc_sorted score_geb score_geb_total score_geb_trans
                  (qualifying order items q)) as Hs.
    rewrite <- ranked_qualifying in Hs.
    eapply StronglySorted_mono; [|exact Hs].
    intros x y Hxy. unfold score_geb in Hxy. by apply Z.leb_le.
  - rewrite ranked_qualifying. apply sort_desc_perm.
  - intros s p. apply ranked_elem.
  - intros p. apply score_mod_10.
  - intros p p' Hne.
    pose proof (score_mod_10 (_guess_brand order q) (_guess_appliance q None)
                  (_guess_category q) (remove_dups (_tokens q)) p) as Hp.
    pose proof (score_mod_10 (_guess_brand order q) (_guess_appliance q None)
                  (_guess_category q) (remove_dups (_tokens q)) p') as Hp'.
    fold (score_of order q p) in Hp. fold (score_of order q p') in Hp'.
    rewrite Z.mod_eq in Hp, Hp' by lia. lia.
Qed.

Lemma search_cases order items query part model :
  let q := searched_text query part in
  search order items query part model = []  ∧ q = ""
  ∨ q ≠ "" ∧
    ((∃ m, PARTNUM_RE_search q = Some m
           ∧ with_part_number (Py.upper m) items ≠ []
           ∧ search order items query part model
             = firstn 5 (with_part_number (Py.upper m) items))
     ∨ (ranked order items q ≠ []
        ∧ search order items query part model
          = firstn 5 (map snd (ranked order items q)))
     ∨ (ranked order items q = []
        ∧ search order items query part model = [no_local_results query q])).
Proof.
  intros q. unfold search. fold (searched_text query part). fold q.
  destruct q as [|c r] eqn:Hq; [by left|]. right. split; [done|].
  simpl negb. cbv iota.
  destruct (PARTNUM_RE_search (String c r)) as [m|] eqn:Hm.
  - fold (with_part_number (Py.upper m) items).
    destruct (with_part_number (Py.upper m) items) as [|x l] eqn:Hw.
    + destruct (ranked order items (String c r)) as [|y l'] eqn:Hr.
      * right. by right.
      * right. left. split; [done|]. by destruct y.
    + left. exists m. by rewrite Hw.
  - destruct (ranked order items (String c r)) as [|y l'] eqn:Hr.
    + right. by right.
    + right. left. split; [done|]. by destruct y.
Qed.

Lemma search_length order items query part model :
  length (search order items query part model) <= 5.
Proof.
  destruct (search_cases order items query part model)
    as [[-> Hq]|[Hq [(m & Hm & Hne & ->)|[[Hne ->]|[Hnil ->]]]]];
    first [rewrite length_take; lia | simpl; lia].
Qed.

(** [search] answers with at most five entries, with none exactly when the
    text it searches is blank; each entry comes from the catalogue, unless
    the answer is the lone no-local-results entry. *)
Theorem search_answer_shape order items query part model :
  length (search order items query part model) <= 5
  ∧ (search order items query part model = [] ↔ searched_text query part = "")
  ∧ ((∀ r, r ∈ search order items query part model → r ∈ items)
     ∨ search order items query part model
       = [no_local_results query (searched_text query part)]).
Proof.
  destruct (search_cases order items query part model)
    as [[-> Hq]|[Hq [(m & Hm & Hne & ->)|[[Hne ->]|[Hnil ->]]]]].
  - split; [simpl; lia|]. split; [done|]. left. intros r Hr. by apply elem_of_nil in Hr.
  - split; [rewrite length_take; lia|]. split.
    + split; [|done]. intros H. destruct (with_part_number _ items); [done|discriminate].
    + left. intros r Hr. eapply elem_of_prefix in Hr; [|apply prefix_take].
      by apply with_part_number_spec in Hr as [? _].
  - split; [rewrite length_take; lia|]. split.
    + split; [|done]. intros H. destruct (ranked order items _); [done|discriminate].
    + left. intros r Hr. eapply elem_of_prefix in Hr; [|apply prefix_take].
      apply list_elem_of_fmap in Hr as ([s p] & -> & Hsp).
      by apply ranked_elem in Hsp as [? _].
  - split; [simpl; lia|]. split; [done|]. by right.
Qed.

(** [find_parts] hands the joined hints to [search] and answers with the
    entries of that result that pass every given hint, or with the whole
    result when none passes: never with less than a non-empty result. *)
Theorem find_parts_never_drops_all order items appliance_type brand category query :
  let res := search order items
                    (hinted_query appliance_type brand category query) None None in
  let out := find_parts order items appliance_type brand category query in
  (out = res
   ∨ out = List.filter (keeps appliance_type brand category) res ∧ out ≠ [])
  ∧ (∀ p, p ∈ out → p ∈ res)
  ∧ (out = [] ↔ res = [])
  ∧ length out <= 5.
Proof.
  intros res out.
  assert (out = res
          ∨ out = List.filter (keeps appliance_type brand category) res ∧ out ≠ [])
    as Hcases.
  { subst out res. unfold find_parts. fold (hinted_query appliance_type brand category query).
    destruct (search _ _ _ _ _) as [|r0 rs]; [by left|].
    case_bool_decide; [by left|].
    destruct (List.filter _ (r0 :: rs)) as [|x l] eqn:Hf; [by left|].
    by right. }
  split; [exact Hcases|].
  pose proof (search_length order items
                (hinted_query appliance_type brand category query) None None)
    as Hlen.
  fold res in Hlen.
  destruct Hcases as [->|[Hout Hne]].
  - by repeat split.
  - assert (∀ p, p ∈ out → p ∈ res) as Hsub.
    { intros p. rewrite Hout, !list_elem_of_In, filter_In. tauto. }
    split; [exact Hsub|]. split.
    + split; [done|]. intros Hres. rewrite Hout, Hres. done.
    + rewrite Hout. etrans; [apply filter_length_le|done].
Qed.

End CatalogAnswers.

(* ===================================================================== *)
(** * Case folding and stripping *)
(* ===================================================================== *)

Section CaseFacts.

Import Py.

Lemma upper_char_space c : is_space (upper_char c) = is_space c.
Proof. destruct c as [[] [] [] [] [] [] [] []]; reflexivity. Qed.

Lemma lower_char_space c : is_space (lower_char c) = is_space c.
Proof. destruct c as [[] [] [] [] [] [] [] []]; reflexivity. Qed.

Lemma upper_lower_char c : upper_char (lower_char c) = upper_char c.
Proof. destruct c as [[] [] [] [] [] [] [] []]; reflexivity. Qed.

Lemma upper_upper_char c : upper_char (upper_char c) = upper_char c.
Proof. destruct c as [[] [] [] [] [] [] [] []]; reflexivity. Qed.

Lemma lower_upper_char c : lower_char (upper_char c) = lower_char c.
Proof. destruct c as [[] [] [] [] [] [] [] []]; reflexivity. Qed.

Lemma lower_lower_char c : lower_char (lower_char c) = lower_char c.
Proof. destruct c as [[] [] [] [] [] [] [] []]; reflexivity. Qed.

Lemma map_chars_map_chars f g s :
  map_chars f (map_chars g s) = map_chars (λ c, f (g c)) s.
Proof. induction s as [|c s IH]; simpl; [done|]. by rewrite IH. Qed.

Lemma map_chars_ext f g s : (∀ c, f c = g c) → map_chars f s = map_chars g s.
Proof. intros H. induction s as [|c s IH]; simpl; [done|]. by rewrite H, IH. Qed.

Lemma upper_lower s : upper (lower s) = upper s.
Proof. unfold upper, lower. rewrite map_chars_map_chars. apply map_chars_ext, upper_lower_char. Qed.

Lemma upper_upper s : upper (upper s) = upper s.
Proof. unfold upper. rewrite map_chars_map_chars. apply map_chars_ext, upper_upper_char. Qed.

Lemma lower_upper s : lower (upper s) = lower s.
Proof. unfold upper, lower. rewrite map_chars_map_chars. apply map_chars_ext, lower_upper_char. Qed.

Lemma lower_lower s : lower (lower s) = lower s.
Proof. unfold lower. rewrite map_chars_map_chars. apply map_chars_ext, lower_lower_char. Qed.

Section Strip.

Variable f : ascii → ascii.
Hypothesis f_space : ∀ c, is_space (f c) = is_space c.

Lemma lstrip_map_chars s : lstrip (map_chars f s) = map_chars f (lstrip s).
Proof.
  induction s as [|c s IH]; simpl; [done|].
  rewrite f_space. by destruct (is_space c).
Qed.

Lemma rstrip_map_chars s : rstrip (map_chars f s) = map_chars f (rstrip s).
Proof.
  induction s as [|c s IH]; simpl; [done|].
  rewrite IH, f_space. destruct (rstrip s); simpl; [|done].
  by destruct (is_space c).
Qed.

Lemma strip_map_chars s : strip (map_chars f s) = map_chars f (strip s).
Proof. unfold strip. by rewrite lstrip_map_chars, rstrip_map_chars. Qed.

End Strip.

Lemma strip_upper s : strip (upper s) = upper (strip s).
Proof. apply strip_map_chars, upper_char_space. Qed.

Lemma strip_lower s : strip (lower s) = lower (strip s).
Proof. apply strip_map_chars, lower_char_space. Qed.

Lemma or_none_Some s : or_none (Some s) "" = s.
Proof. by destruct s. Qed.

Lemma code_of_lower s : code_of (Some (lower s)) = code_of (Some s).
Proof. unfold code_of. by rewrite !or_none_Some, strip_lower, upper_lower. Qed.

Lemma code_of_upper s : code_of (Some (upper s)) = code_of (Some s).
Proof. unfold code_of. by rewrite !or_none_Some, strip_upper, upper_upper. Qed.

End CaseFacts.

(* ===================================================================== *)
(** * Compatibility and installation look-ups *)
(* ===================================================================== *)

Section LookupFacts.

Import CatalogClass.

Implicit Types (items : list item).

Lemma is_compatible_code items part model part' model' :
  code_of part' = code_of part → code_of model' = code_of model →
  is_compatible items part' model' = is_compatible items part model.
Proof.
  intros Hp Hm. unfold is_compatible.
  fold (code_of part') (code_of model') (code_of part) (code_of model).
  by rewrite Hp, Hm.
Qed.

Lemma install_guide_code items part part' :
  code_of part' = code_of part → install_guide items part' = install_guide items part.
Proof.
  intros Hp. unfold install_guide. fold (code_of part') (code_of part). by rewrite Hp.
Qed.

(** Neither look-up depends on the case of the ASCII codes it is given. *)
Theorem lookups_ignore_case items part model :
  Py.is_ascii part = true → Py.is_ascii model = true →
  is_compatible items (Some (Py.lower part)) (Some (Py.lower model))
  = is_compatible items (Some (Py.upper part)) (Some (Py.upper model))
  ∧ is_compatible items (Some (Py.lower part)) (Some (Py.lower model))
    = is_compatible items (Some part) (Some model)
  ∧ install_guide items (Some (Py.lower part)) = install_guide items (Some (Py.upper part))
  ∧ install_guide items (Some (Py.lower part)) = install_guide items (Some part).
Proof.
  intros _ _. repeat split.
  - apply is_compatible_code; by rewrite code_of_lower, code_of_upper.
  - apply is_compatible_code; apply code_of_lower.
  - apply install_guide_code. by rewrite code_of_lower, code_of_upper.
  - apply install_guide_code, code_of_lower.
Qed.

(** [is_compatible] says yes exactly when both codes are given, some entry
    has the part number, and the first such entry lists the model. *)
Theorem is_compatible_confirms_listed_models_only items part model :
  (is_compatible items part model).1 = true
  ↔ code_of part ≠ "" ∧ code_of model ≠ ""
    ∧ ∃ h, lookup_part items (code_of part) = Some h
           ∧ code_of model ∈ map Py.upper (models h).
Proof.
  unfold is_compatible. fold (code_of part) (code_of model).
  destruct (code_of part) as [|a P] eqn:HP; simpl.
  { split; [done|]. by intros [? _]. }
  destruct (code_of model) as [|b M] eqn:HM; simpl.
  { split; [done|]. by intros (_ & ? & _). }
  destruct (lookup_part items (String a P)) as [h|] eqn:Hh.
  - case_bool_decide as Hin; simpl.
    + split; [|done]. intros _. split; [done|]. split; [done|]. by exists h.
    + split; [done|]. intros (_ & _ & h' & [= <-] & Hm). done.
  - simpl. split; [done|]. by intros (_ & _ & h' & [=] & _).
Qed.

(** [install_guide] always answers with text: a request for the part
    number when none is given, the stored guide of the first entry with that
    part number when it has one, and otherwise a general guide that names the
    part in upper case, also for a part the catalogue does not hold. *)
Theorem install_guide_always_answers items part :
  Py.nonempty (install_guide items part) = true
  ∧ (code_of part = "" → install_guide items part = GUIDE_PROMPT)
  ∧ (∀ h g, code_of part ≠ "" → lookup_part items (code_of part) = Some h →
            installGuide h = Some g → g ≠ "" → install_guide items part = g)
  ∧ (code_of part ≠ "" →
     (∀ h, lookup_part items (code_of part) = Some h → Py.truthy (installGuide h) = false) →
     Py.startswith ("General guide for " ++ code_of part ++ ":") (install_guide items part)
     = true).
Proof.
  unfold install_guide. fold (code_of part).
  destruct (code_of part) as [|a P] eqn:HP; simpl negb; cbv iota.
  { split; [reflexivity|]. split; [done|]. split; [by intros|by intros]. }
  assert (∀ x y, Py.startswith x (x ++ y) = true) as Hsw.
  { intros x y. induction x as [|c x IH]; [by destruct y|].
    change (String c x ++ y) with (String c (x ++ y)). simpl.
    by rewrite Ascii.eqb_refl. }
  assert (∀ x y z r, x ++ y ++ z ++ r = (x ++ y ++ z) ++ r) as Hassoc
      by (intros; by rewrite !sapp_assoc).
  destruct (lookup_part items (String a P)) as [h|] eqn:Hh.
  - destruct (Py.truthy (installGuide h)) eqn:Hg.
    + destruct (installGuide h) as [g|] eqn:Hig; [|done]. simpl in Hg.
      rewrite or_none_Some.
      split; [done|]. split; [done|]. split.
      * intros h' g' _ [= <-] Hg' _. rewrite Hig in Hg'. by injection Hg'.
      * intros _ Hno. specialize (Hno h eq_refl). rewrite Hig in Hno.
        simpl in Hno. congruence.
    + split; [reflexivity|]. split; [done|]. split.
      * intros h' g' _ [= <-] Hg' Hne. rewrite Hg' in Hg. simpl in Hg.
        by destruct g'.
      * intros _ _. rewrite Hassoc. apply Hsw.
  - split; [reflexivity|]. split; [done|]. split; [by intros|].
    intros _ _. rewrite Hassoc. apply Hsw.
Qed.

End LookupFacts.

(* ===================================================================== *)
(** * Substrings *)
(* ===================================================================== *)

Section SubstringFacts.

Import Py.

Local Arguments String.append !_ _ : simpl nomatch.

Lemma startswith_spec p s : startswith p s = true ↔ ∃ r, s = p ++ r.
Proof.
  revert s. induction p as [|a p IH]; intros s.
  - split; [|by destruct s]. intros _. by exists s.
  - destruct s as [|b s]; simpl.
    + split; [done|]. by intros [r ?].
    + destruct (Ascii.eqb_spec a b) as [->|Hne].
      * rewrite IH. split; intros [r Hr]; exists r; [by rewrite Hr|by injection Hr].
      * split; [done|]. intros [r Hr]. injection Hr as Hab _. by destruct Hne.
Qed.

Lemma contains_spec sub s : contains sub s = true ↔ ∃ a b, s = a ++ sub ++ b.
Proof.
  induction s as [|c s IH].
  - simpl. rewrite orb_false_r, startswith_spec. split.
    + intros [r Hr]. by exists "", r.
    + intros (a & b & H). destruct a; [|done]. by exists b.
  - simpl. rewrite orb_true_iff, startswith_spec, IH. split.
    + intros [[r Hr]|(a & b & Hab)].
      * by exists "", r.
      * exists (String c a), b. simpl. by rewrite Hab.
    + intros (a & b & H). destruct a as [|c' a]; simpl in H.
      * left. by exists b.
      * right. injection H as _ H. by exists a, b.
Qed.

Lemma contains_trans x y z :
  contains x y = true → contains y z = true → contains x z = true.
Proof.
  rewrite !contains_spec. intros (a & b & ->) (a' & b' & ->).
  exists (a' ++ a), (b ++ b'). by rewrite !sapp_assoc.
Qed.

Lemma count_positive s sub : (0 < count s sub)%nat ↔ contains sub s = true.
Proof.
  unfold count. destruct sub as [|a sub].
  - split; [|lia]. intros _. by destruct s.
  - induction s as [|c s IH]; [simpl; split; [lia|done]|].
    cbn [count_go contains]. destruct (startswith (String a sub) (String c s)).
    + simpl. split; [done|lia].
    + simpl. apply IH.
Qed.

End SubstringFacts.

(* ===================================================================== *)
(** * Guessing brand and category from text *)
(* ===================================================================== *)

Section GuessFacts.

Import CatalogClass.

Lemma find_none_iff {A} (f : A → bool) l :
  List.find f l = None ↔ ∀ x, x ∈ l → f x = false.
Proof.
  induction l as [|y l IH]; simpl.
  - split; [|done]. intros _ x Hx. by apply elem_of_nil in Hx.
  - destruct (f y) eqn:E.
    + split; [done|]. intros H. rewrite (H y) in E; [done|]. apply list_elem_of_here.
    + rewrite IH. split.
      * intros H x Hx. apply elem_of_cons in Hx as [->|Hx]; [done|by apply H].
      * intros H x Hx. apply H. by apply list_elem_of_further.
Qed.

Lemma find_some_elem {A} (f : A → bool) l x :
  List.find f l = Some x → x ∈ l ∧ f x = true.
Proof.
  intros H. apply find_some in H as [H1 H2]. by rewrite list_elem_of_In.
Qed.

(** [_guess_brand] reads brand names as substrings of the folded text, in
    whatever order the set is iterated: it finds none exactly when none
    occurs, and what it finds is a capitalised brand that occurs. *)
Theorem guess_brand_reads_substrings order t :
  order ≡ₚ BRANDS →
  (_guess_brand order t = None
   ↔ ∀ b, b ∈ BRANDS → ¬ ∃ x y, _lc (Some t) = x ++ b ++ y)
  ∧ (∀ r, _guess_brand order t = Some r →
          ∃ b x y, b ∈ BRANDS ∧ r = Py.capitalize b ∧ _lc (Some t) = x ++ b ++ y).
Proof.
  intros Hperm. unfold _guess_brand. split.
  - rewrite fmap_None, find_none_iff. split.
    + intros H b Hb Hxy. rewrite <- Hperm in Hb. specialize (H b Hb).
      apply contains_spec in Hxy. congruence.
    + intros H b Hb. rewrite Hperm in Hb. specialize (H b Hb).
      destruct (Py.contains b (_lc (Some t))) eqn:E; [|done].
      apply contains_spec in E. done.
  - intros r Hr. apply fmap_Some in Hr as (b & Hb & ->).
    apply find_some_elem in Hb as [Hb Hc]. rewrite Hperm in Hb.
    apply contains_spec in Hc as (x & y & Hxy). by exists b, x, y.
Qed.

(** The brand name [ge] is found inside longer words: a text that
    mentions one of these words is always given a brand, and when no other
    brand name occurs in it the brand is [Ge]. *)
Theorem guess_brand_finds_ge_inside_words order t w :
  order ≡ₚ BRANDS →
  w ∈ ["refrigerator"; "fridge"; "hinge"; "auger"; "storage"; "general"] →
  Py.contains w (_lc (Some t)) = true →
  _guess_brand order t ≠ None
  ∧ ((∀ b, b ∈ BRANDS → b ≠ "ge" → Py.contains b (_lc (Some t)) = false) →
     _guess_brand order t = Some "Ge").
Proof.
  intros Hperm Hw Hc.
  assert (Py.contains "ge" (_lc (Some t)) = true) as Hge.
  { apply (contains_trans _ w); [|done].
    repeat (apply elem_of_cons in Hw as [->|Hw]; [reflexivity|]).
    by apply elem_of_nil in Hw. }
  assert ("ge" ∈ BRANDS) as Hin by compute_done.
  split.
  - unfold _guess_brand. rewrite fmap_None, find_none_iff. intros Hn.
    rewrite <- Hperm in Hin. specialize (Hn "ge" Hin). congruence.
  - intros Hno. unfold _guess_brand.
    rewrite (find_unique _ order "ge"); [done|..].
    + intros b Hb Hcb. rewrite Hperm in Hb.
      destruct (decide (b = "ge")) as [|Hne]; [done|].
      rewrite (Hno b Hb Hne) in Hcb. done.
    + by rewrite Hperm.
    + done.
Qed.

Lemma best_of_spec tl (l : list (string * list string)) :
  match (best_of tl l).1 with
  | None => (best_of tl l).2 = 0%nat ∧ ∀ ck, ck ∈ l → hits ck.2 tl = 0%nat
  | Some c =>
      ∃ i keys, l !! i = Some (c, keys)
                ∧ (best_of tl l).2 = hits keys tl
                ∧ (0 < hits keys tl)%nat
                ∧ (∀ ck, ck ∈ l → (hits ck.2 tl <= hits keys tl)%nat)
                ∧ (∀ j ck, (j < i)%nat → l !! j = Some ck →
                           (hits ck.2 tl < hits keys tl)%nat)
  end.
Proof.
  induction l as [|ck l IH] using rev_ind.
  - simpl. split; [done|]. intros ck Hck. by apply elem_of_nil in Hck.
  - unfold best_of in *. rewrite fold_left_app. simpl.
    destruct (fold_left _ l _) as [best n] eqn:E. simpl in *.
    destruct (n <? hits ck.2 tl)%nat eqn:Hlt; simpl.
    + apply Nat.ltb_lt in Hlt.
      exists (length l), ck.2. split; [|split; [done|split; [lia|split]]].
      * rewrite lookup_app_r by lia. rewrite Nat.sub_diag. by destruct ck.
      * intros ck' Hck'. apply elem_of_app in Hck' as [Hck'|Hck'].
        -- destruct best as [c|].
           ++ destruct IH as (i & keys & _ & -> & _ & Hmax & _).
              specialize (Hmax ck' Hck'). lia.
           ++ destruct IH as [_ Hz]. rewrite (Hz ck' Hck'). lia.
        -- apply list_elem_of_singleton in Hck' as ->. lia.
      * intros j ck' Hj Hck'. rewrite lookup_app_l in Hck' by lia.
        apply list_elem_of_lookup_2 in Hck'.
        destruct best as [c|].
        -- destruct IH as (i & keys & _ & -> & _ & Hmax & _).
           specialize (Hmax ck' Hck'). lia.
        -- destruct IH as [-> Hz]. rewrite (Hz ck' Hck'). lia.
    + apply Nat.ltb_ge in Hlt. destruct best as [c|].
      * destruct IH as (i & keys & Hi & -> & Hpos & Hmax & Hbefore).
        exists i, keys. split; [|split; [done|split; [done|split]]].
        -- by apply lookup_app_l_Some.
        -- intros ck' Hck'. apply elem_of_app in Hck' as [Hck'|Hck'].
           ++ by apply Hmax.
           ++ by apply list_elem_of_singleton in Hck' as ->.
        -- intros j ck' Hj Hck'. apply (Hbefore j ck' Hj).
           apply lookup_lt_Some in Hi.
           by rewrite lookup_app_l in Hck' by lia.
      * destruct IH as [-> Hz]. split; [done|].
        intros ck' Hck'. apply elem_of_app in Hck' as [Hck'|Hck'].
        -- by apply Hz.
        -- apply list_elem_of_singleton in Hck' as ->. lia.
Qed.

(** [_guess_category] answers with the category whose keyword set has the
    most members occurring in the folded text, the earliest entry of the table
    among equals, and with nothing exactly when no keyword of any category
    occurs. *)
Theorem guess_category_is_first_best t :
  match _guess_category t with
  | None => ∀ ck kw, ck ∈ CATEGORY_KEYS → kw ∈ ck.2 →
                     Py.contains kw (_lc (Some t)) = false
  | Some c =>
      ∃ i keys, CATEGORY_KEYS !! i = Some (c, keys)
                ∧ (0 < hits keys (_lc (Some t)))%nat
                ∧ (∀ ck, ck ∈ CATEGORY_KEYS →
                         (hits ck.2 (_lc (Some t)) <= hits keys (_lc (Some t)))%nat)
                ∧ (∀ j ck, (j < i)%nat → CATEGORY_KEYS !! j = Some ck →
                           (hits ck.2 (_lc (Some t)) < hits keys (_lc (Some t)))%nat)
  end.
Proof.
  change (_guess_category t) with (best_of (_lc (Some t)) CATEGORY_KEYS).1.
  pose proof (best_of_spec (_lc (Some t)) CATEGORY_KEYS) as H.
  destruct (best_of (_lc (Some t)) CATEGORY_KEYS).1 as [c|].
  - destruct H as (i & keys & Hi & _ & Hpos & Hmax & Hbefore). by exists i, keys.
  - destruct H as [_ Hz]. intros ck kw Hck Hkw. specialize (Hz ck Hck).
    unfold hits in Hz. apply length_zero_iff_nil in Hz.
    destruct (Py.contains kw (_lc (Some t))) eqn:E; [|done].
    assert (kw ∈ filter (λ kw, Is_true (Py.contains kw (_lc (Some t)))) ck.2) as Hin.
    { apply list_elem_of_filter. split; [by rewrite E|done]. }
    rewrite Hz in Hin. by apply elem_of_nil in Hin.
Qed.

(** The number of keywords counted for a category is the number of its
    keywords that occur as substrings. *)
Lemma hits_positive keys tl :
  (0 < hits keys tl)%nat ↔ ∃ kw, kw ∈ keys ∧ Py.contains kw tl = true.
Proof.
  unfold hits. split.
  - intros H. destruct (filter _ keys) as [|kw r] eqn:E; [simpl in H; lia|].
    assert (kw ∈ filter (λ kw, Is_true (Py.contains kw tl)) keys) as Hin
        by (rewrite E; apply list_elem_of_here).
    apply list_elem_of_filter in Hin as [Hc Hin]. exists kw. split; [done|].
    by apply Is_true_true.
  - intros (kw & Hin & Hc).
    assert (kw ∈ filter (λ kw, Is_true (Py.contains kw tl)) keys) as Hf.
    { apply list_elem_of_filter. split; [by apply Is_true_true|done]. }
    destruct (filter _ keys); [by apply elem_of_nil in Hf|simpl; lia].
Qed.

End GuessFacts.

Lemma guess_brand_reads_substrings_witness :
  CatalogClass.BRANDS ≡ₚ CatalogClass.BRANDS
  ∧ (CatalogClass._guess_brand CatalogClass.BRANDS "Bosch upper rack" = None
     ↔ ∀ b, b ∈ CatalogClass.BRANDS →
            ¬ ∃ x y, CatalogClass._lc (Some "Bosch upper rack") = x ++ b ++ y).
Proof.
  split; [done|].
  apply (proj1 (guess_brand_reads_substrings CatalogClass.BRANDS "Bosch upper rack"
                  (reflexivity _))).
Defined.

Lemma guess_brand_finds_ge_inside_words_witness :
  CatalogClass.BRANDS ≡ₚ CatalogClass.BRANDS
  ∧ Py.contains "fridge" (CatalogClass._lc (Some "Fridge door shelf")) = true
  ∧ CatalogClass._guess_brand CatalogClass.BRANDS "Fridge door shelf" ≠ None.
Proof.
  split; [done|]. split; [reflexivity|].
  apply (proj1 (guess_brand_finds_ge_inside_words
                  CatalogClass.BRANDS "Fridge door shelf" "fridge"
                  (reflexivity _) ltac:(compute_done) eq_refl)).
Defined.

(* ===================================================================== *)
(** * Removing repeated entries *)
(* ===================================================================== *)

Section DedupeFacts.

Import CatalogClass.

Lemma dedupe_go_fresh seen out p :
  p ∈ dedupe_go seen out → dedupe_key p ∉ seen.
Proof.
  revert seen. induction out as [|p0 r IH]; intros seen; simpl.
  - intros H. by apply elem_of_nil in H.
  - case_decide as Hs.
    + apply IH.
    + intros [->|H]%elem_of_cons; [done|].
      apply IH in H. set_solver.
Qed.

Lemma dedupe_go_NoDup seen out : NoDup (map dedupe_key (dedupe_go seen out)).
Proof.
  revert seen. induction out as [|p0 r IH]; intros seen; simpl.
  - constructor.
  - case_decide as Hs; [apply IH|]. simpl. constructor; [|apply IH].
    intros (q & Hq & Hin)%list_elem_of_fmap.
    apply dedupe_go_fresh in Hin. rewrite <- Hq in Hin. set_solver.
Qed.

Lemma dedupe_go_sublist seen out : sublist (dedupe_go seen out) out.
Proof.
  revert seen. induction out as [|p0 r IH]; intros seen; simpl.
  - constructor.
  - case_decide; [apply sublist_cons|apply sublist_skip]; apply IH.
Qed.

Lemma dedupe_go_covers seen out p :
  p ∈ out →
  dedupe_key p ∈ seen ∨ ∃ q, q ∈ dedupe_go seen out ∧ dedupe_key q = dedupe_key p.
Proof.
  revert seen. induction out as [|p0 r IH]; intros seen; simpl.
  - intros H. by apply elem_of_nil in H.
  - intros [->|H]%elem_of_cons.
    + case_decide; [by left|]. right. exists p0. split; [apply list_elem_of_here|done].
    + case_decide as Hs.
      * by apply IH.
      * destruct (IH ({[dedupe_key p0]} ∪ seen) H) as [Hin|(q & Hq & Hk)].
        -- apply elem_of_union in Hin as [Hin|Hin]; [|by left].
           apply elem_of_singleton in Hin. right. exists p0.
           split; [apply list_elem_of_here|done].
        -- right. exists q. split; [by apply list_elem_of_further|done].
Qed.

Lemma dedupe_go_first seen out p :
  p ∈ dedupe_go seen out →
  List.find (λ q, bool_decide (dedupe_key q = dedupe_key p)) out = Some p.
Proof.
  revert seen. induction out as [|p0 r IH]; intros seen; simpl.
  - intros H. by apply elem_of_nil in H.
  - case_decide as Hs.
    + intros H. pose proof (dedupe_go_fresh _ _ _ H) as Hf.
      rewrite bool_decide_eq_false_2; [by eapply IH|].
      intros Heq. by rewrite Heq in Hs.
    + intros [->|H]%elem_of_cons.
      * by rewrite bool_decide_eq_true_2.
      * pose proof (dedupe_go_fresh _ _ _ H) as Hf.
        rewrite bool_decide_eq_false_2; [by eapply IH|].
        intros Heq. apply Hf, elem_of_union_l, elem_of_singleton. done.
Qed.

Lemma dedupe_go_fixed seen l :
  NoDup (map dedupe_key l) → (∀ p, p ∈ l → dedupe_key p ∉ seen) →
  dedupe_go seen l = l.
Proof.
  revert seen. induction l as [|p0 r IH]; intros seen Hnd Hs; simpl; [done|].
  inversion_clear Hnd as [|? ? Hnotin Hnd'].
  rewrite decide_False by (apply Hs, list_elem_of_here).
  f_equal. apply IH; [done|]. intros p Hp.
  intros [Hin|Hin]%elem_of_union.
  - apply elem_of_singleton in Hin. apply Hnotin. rewrite <- Hin.
    apply list_elem_of_fmap. by exists p.
  - apply (Hs p); [by apply list_elem_of_further|done].
Qed.

(** The loop that removes repeated entries keeps, for every key among the
    parsed entries, exactly the first entry with that key, in the original
    order; running it again changes nothing. *)
Theorem dedupe_keeps_first_of_each_key out :
  NoDup (map dedupe_key (dedupe out))
  ∧ sublist (dedupe out) out
  ∧ (∀ p, p ∈ out → ∃ q, q ∈ dedupe out ∧ dedupe_key q = dedupe_key p)
  ∧ (∀ p, p ∈ dedupe out →
          List.find (λ q, bool_decide (dedupe_key q = dedupe_key p)) out = Some p)
  ∧ dedupe (dedupe out) = dedupe out.
Proof.
  unfold dedupe. split; [apply dedupe_go_NoDup|]. split; [apply dedupe_go_sublist|].
  split; [|split].
  - intros p Hp. destruct (dedupe_go_covers ∅ out p Hp) as [H|H]; [|done].
    by apply elem_of_empty in H.
  - intros p. apply dedupe_go_first.
  - apply dedupe_go_fixed; [apply dedupe_go_NoDup|]. intros p _. apply not_elem_of_empty.
Qed.

End DedupeFacts.

(* ===================================================================== *)
(** * The scope check *)
(* ===================================================================== *)

Section ScopeFacts.

Import Guardrails.

Lemma any_in_true words q :
  any_in words q = true ↔ ∃ w, w ∈ words ∧ Py.contains w q = true.
Proof.
  unfold any_in. rewrite existsb_exists. split; intros (w & Hw & Hc); exists w.
  - by rewrite list_elem_of_In.
  - by rewrite <- list_elem_of_In.
Qed.

(** A text that holds an out-of-scope keyword anywhere, also inside a
    longer word, is out of scope whatever the appliance context and the
    catalogue keywords are. *)
Theorem out_of_scope_word_rejects extra q appliance_context w x :
  w ∈ OOS_KEYWORDS → Py.contains w x = true → Py.contains x (Py.lower q) = true →
  is_in_scope extra q appliance_context = false.
Proof.
  intros Hw Hwx Hxq. unfold is_in_scope. cbv zeta.
  assert (any_in OOS_KEYWORDS (Py.lower q) = true) as Hx.
  { apply any_in_true. exists w. split; [exact Hw|]. by apply (contains_trans _ x). }
  rewrite Hx. reflexivity.
Qed.

Lemma any_in_mono words words' q :
  words ⊆ words' → any_in words q = true → any_in words' q = true.
Proof.
  intros Hsub. rewrite !any_in_true. intros (w & Hw & Hc). exists w. split; [|done].
  by apply Hsub.
Qed.

Lemma contains_empty s : Py.contains "" s = true.
Proof. by destruct s. Qed.

(** The scope check does not see the case of an ASCII text, accepts at
    least what it accepted with fewer catalogue keywords, and with an empty
    appliance context accepts every text without an out-of-scope keyword. *)
Theorem scope_check_is_case_blind_and_monotone extra extra' q appliance_context :
  extra ⊆ extra' →
  (Py.is_ascii q = true →
   is_in_scope extra (Py.upper q) appliance_context
   = is_in_scope extra q appliance_context)
  ∧ (is_in_scope extra q appliance_context = true →
     is_in_scope extra' q appliance_context = true)
  ∧ (any_in OOS_KEYWORDS (Py.lower q) = false → is_in_scope extra q "" = true).
Proof.
  intros Hsub. split; [|split].
  - intros _. unfold is_in_scope. by rewrite lower_upper.
  - unfold is_in_scope. cbv zeta.
    destruct (any_in OOS_KEYWORDS _); [intros H; exact H|].
    destruct (any_in (context_keywords _) _); [reflexivity|].
    destruct (any_in (_ ++ _ ++ _ ++ extra) _) eqn:E; [|intros H; discriminate H]. intros _.
    rewrite (any_in_mono (CORE_KEYWORDS ++ APPLIANCE_KEYWORDS ++ PART_KEYWORDS ++ extra)
                    (CORE_KEYWORDS ++ APPLIANCE_KEYWORDS ++ PART_KEYWORDS ++ extra')
                    (Py.lower q)); [reflexivity| |exact E].
    intros w Hw. rewrite !elem_of_app in Hw. rewrite !elem_of_app.
    destruct Hw as [?|[?|[?|Hw]]]; [tauto..|]. do 3 right. by apply Hsub.
  - intros Hoos. unfold is_in_scope. cbv zeta. rewrite Hoos.
    assert (any_in (context_keywords "") (Py.lower q) = true) as Hx.
    { apply any_in_true. exists "". split; [apply list_elem_of_here|apply contains_empty]. }
    rewrite Hx. reflexivity.
Qed.

(** With the keywords computed at start-up, a text that mentions the part
    number or the name of a catalogue entry, in any case, and holds no
    out-of-scope keyword is in scope under every appliance context. *)
Theorem catalogue_codes_are_in_scope items i code q appliance_context :
  i ∈ items →
  CatalogClass.partNumber i = Some code ∨ CatalogClass.name i = Some code →
  code ≠ "" →
  Py.contains (Py.lower code) (Py.lower q) = true →
  any_in OOS_KEYWORDS (Py.lower q) = false →
  is_in_scope (App.extra_keywords items) q appliance_context = true.
Proof.
  intros Hi Hcode Hne Hc Hoos. unfold is_in_scope. cbv zeta. rewrite Hoos.
  destruct (any_in (context_keywords _) _); [reflexivity|].
  assert (any_in (CORE_KEYWORDS ++ APPLIANCE_KEYWORDS ++ PART_KEYWORDS
                  ++ App.extra_keywords items) (Py.lower q) = true) as Hx.
  { apply any_in_true. exists (Py.lower code). split; [|exact Hc].
    rewrite !elem_of_app. do 3 right. unfold App.extra_keywords.
    rewrite elem_of_app. destruct Hcode as [Hp|Hn]; [left|right].
    - apply list_elem_of_omap. exists i. split; [exact Hi|]. rewrite Hp.
      destruct code; [by destruct Hne|reflexivity].
    - apply list_elem_of_omap. exists i. split; [exact Hi|]. rewrite Hn.
      destruct code; [by destruct Hne|reflexivity]. }
  rewrite Hx. reflexivity.
Qed.

End ScopeFacts.

Lemma out_of_scope_word_rejects_witness :
  "car" ∈ Guardrails.OOS_KEYWORDS
  ∧ Py.contains "car" "cartridge" = true
  ∧ Py.contains "cartridge" (Py.lower "Water filter cartridge for my fridge") = true
  ∧ Guardrails.is_in_scope [] "Water filter cartridge for my fridge" "refrigerator" = false.
Proof.
  assert ("car" ∈ Guardrails.OOS_KEYWORDS) as H1 by apply list_elem_of_here.
  assert (Py.contains "car" "cartridge" = true) as H2 by (vm_compute; reflexivity).
  assert (Py.contains "cartridge" (Py.lower "Water filter cartridge for my fridge") = true)
    as H3 by (vm_compute; reflexivity).
  split; [exact H1|]. split; [exact H2|]. split; [exact H3|].
  exact (out_of_scope_word_rejects [] "Water filter cartridge for my fridge"
           "refrigerator" "car" "cartridge" H1 H2 H3).
Defined.

Lemma scope_check_is_case_blind_and_monotone_witness :
  [] ⊆ ["wpw10195416"]
  ∧ Py.is_ascii "wpw10195416" = true
  ∧ Guardrails.is_in_scope [] (Py.upper "wpw10195416") "toaster"
    = Guardrails.is_in_scope [] "wpw10195416" "toaster".
Proof.
  split; [apply list_subseteq_nil|]. split; [reflexivity|].
  exact (proj1 (scope_check_is_case_blind_and_monotone
                  [] ["wpw10195416"] "wpw10195416" "toaster" (list_subseteq_nil _))
               eq_refl).
Defined.

Lemma catalogue_codes_are_in_scope_witness :
  Samples.upper_rack ∈ [Samples.upper_rack]
  ∧ Guardrails.is_in_scope (App.extra_keywords [Samples.upper_rack])
      "Do you stock ps11752778?" "toaster" = true.
Proof.
  split; [apply list_elem_of_here|].
  assert (Py.contains (Py.lower "PS11752778") (Py.lower "Do you stock ps11752778?") = true)
    as H1 by (vm_compute; reflexivity).
  assert (Guardrails.any_in Guardrails.OOS_KEYWORDS (Py.lower "Do you stock ps11752778?") = false)
    as H2 by (vm_compute; reflexivity).
  apply (catalogue_codes_are_in_scope [Samples.upper_rack] Samples.upper_rack
           "PS11752778" "Do you stock ps11752778?" "toaster" (list_elem_of_here _ _)
           (or_introl eq_refl)); [discriminate|exact H1|exact H2].
Defined.

(* ===================================================================== *)
(** * Entities of a message *)
(* ===================================================================== *)

Section EntityFacts.

Import Py Guardrails.

Local Arguments String.append !_ _ : simpl nomatch.

Lemma search_from_some {B} (m : bool → string → option B) pw s b :
  search_from m pw s = Some b → ∃ pw' x s', s = x ++ s' ∧ m pw' s' = Some b.
Proof.
  revert pw. induction s as [|c s IH]; intros pw; simpl.
  - destruct (m pw "") eqn:E; [|done]. intros [= ->]. by exists pw, "", "".
  - destruct (m pw (String c s)) eqn:E.
    + intros [= ->]. by exists pw, "", (String c s).
    + intros H. apply IH in H as (pw' & x & s' & -> & H).
      by exists pw', (String c x), s'.
Qed.

Lemma first_of_some {A B} (alts : list A) (f : A → option B) b :
  first_of alts f = Some b → ∃ a, a ∈ alts ∧ f a = Some b.
Proof.
  induction alts as [|a alts IH]; simpl; [done|].
  destruct (f a) eqn:E.
  - intros [= ->]. exists a. split; [apply list_elem_of_here|done].
  - intros H. apply IH in H as (a' & Ha & H). exists a'.
    split; [by apply list_elem_of_further|done].
Qed.

Lemma take_some n s a r :
  take n s = Some (a, r) → s = a ++ r ∧ String.length a = n.
Proof.
  revert s a r. induction n as [|n IH]; intros s a r; simpl.
  - by intros [= <- <-].
  - destruct s as [|c s]; [done|].
    destruct (take n s) as [[a' r']|] eqn:E; [|done].
    intros [= <- <-]. apply IH in E as [-> <-]. done.
Qed.

Lemma span_take p r run rest0 m ds rest :
  span p r = (run, rest0) → take m r = Some (ds, rest) →
  (m <= String.length run)%nat → all_chars p ds = true.
Proof.
  revert run m ds rest. induction r as [|c r IH]; intros run m ds rest; simpl.
  - intros _. destruct m; [|done]. by intros [= <- <-].
  - destruct m as [|m]; [by intros _ [= <- <-]|]. simpl.
    destruct (p c) eqn:Hc.
    + destruct (span p r) as [a b] eqn:Hs. intros [= <- <-].
      destruct (take m r) as [[a' r']|] eqn:E; [|done].
      intros [= <- <-] Hle. simpl in *. rewrite Hc. simpl.
      apply (IH a m a' r' eq_refl E). lia.
    + intros [= <- <-]. destruct (take m r) as [[a' r']|]; [|done].
      intros _ Hle. simpl in Hle. lia.
Qed.

Lemma digit_upper_char c : is_digit c = true → upper_char c = c.
Proof. destruct c as [[] [] [] [] [] [] [] []]; by vm_compute. Qed.

Lemma digits_upper ds : all_chars is_digit ds = true → upper ds = ds.
Proof.
  induction ds as [|c ds IH]; simpl; [done|].
  intros [Hc Hds]%andb_true_iff. unfold upper in *. simpl.
  by rewrite (digit_upper_char c Hc), IH.
Qed.

Lemma slen_app (a b : string) :
  String.length (a ++ b) = (String.length a + String.length b)%nat.
Proof. induction a as [|c a IH]; simpl; [done|]. by rewrite IH. Qed.

Lemma PART_REGEX_at_some pw s m :
  PART_REGEX_at pw s = Some m →
  ∃ p ds rest, p ∈ PART_PREFIXES ∧ upper m = p ++ ds
               ∧ all_chars is_digit ds = true ∧ (6 <= String.length ds)%nat
               ∧ s = m ++ rest.
Proof.
  unfold PART_REGEX_at. destruct pw; [done|].
  intros (p & Hp & H)%first_of_some.
  destruct (take (String.length p) s) as [[a r]|] eqn:Ht; [|done].
  destruct (String.eqb (upper a) p) eqn:Heq; [|done].
  apply String.eqb_eq in Heq.
  destruct (span is_digit r) as [run rest0] eqn:Hs.
  apply first_of_some in H as (n & Hn & H).
  destruct (take n r) as [[ds rest]|] eqn:Hn'; [|done].
  destruct (at_word_end rest); [|done]. injection H as <-.
  apply list_elem_of_In in Hn. rewrite <- in_rev, in_seq in Hn.
  apply take_some in Ht as [-> _].
  pose proof (span_take _ _ _ _ _ _ _ Hs Hn' ltac:(lia)) as Hds.
  apply take_some in Hn' as [-> Hlen].
  exists p, ds, rest. split; [done|]. split; [|split; [done|split; [lia|]]].
  - pose proof (digits_upper ds Hds) as Hd. unfold upper in *.
    by rewrite map_chars_app, Heq, Hd.
  - by rewrite sapp_assoc.
Qed.

Lemma extracted_part_shape q part :
  extract_entities q !! "part" = Some (Some part) →
  ∃ p ds, p ∈ PART_PREFIXES ∧ part = p ++ ds
          ∧ all_chars is_digit ds = true ∧ (6 <= String.length ds)%nat
          ∧ contains part (upper q) = true.
Proof.
  unfold extract_entities. rewrite lookup_insert_eq. intros [= H].
  destruct (PART_REGEX_search q) as [m|] eqn:E; [|done]. injection H as <-.
  apply search_from_some in E as (pw & x & s' & -> & E).
  apply PART_REGEX_at_some in E as (p & ds & rest & Hp & Hu & Hds & Hlen & ->).
  exists p, ds. split; [done|]. split; [done|]. split; [done|]. split; [done|].
  apply contains_spec. exists (upper x), (upper rest).
  unfold upper. by rewrite !map_chars_app.
Qed.

(** A part number found in a message is one of the known prefixes in upper
    case followed by six or more digits, and it occurs in the upper-cased
    message. *)
Theorem extracted_part_is_a_part_number q part :
  extract_entities q !! "part" = Some (Some part) →
  ∃ p ds, p ∈ PART_PREFIXES ∧ part = p ++ ds
          ∧ all_chars is_digit ds = true ∧ (6 <= String.length ds)%nat
          ∧ contains part (upper q) = true.
Proof. apply extracted_part_shape. Qed.

Lemma find_sorted {A} (R : A → A → Prop) (f : A → bool) l x :
  StronglySorted R l → (∀ a, R a a) → List.find f l = Some x →
  ∀ y, y ∈ l → f y = true → R x y.
Proof.
  intros Hs Hrefl. induction Hs as [|z l Hs IH Hz]; simpl; [done|].
  destruct (f z) eqn:Hfz.
  - intros [= ->] y Hy _. apply elem_of_cons in Hy as [->|Hy]; [apply Hrefl|].
    rewrite List.Forall_forall in Hz. by apply Hz, list_elem_of_In.
  - intros Hfind y Hy Hfy. apply elem_of_cons in Hy as [->|Hy]; [congruence|].
    by apply IH.
Qed.

Lemma all_chars_snoc p cur c :
  all_chars p cur = true → p c = true → all_chars p (cur ++ String c "") = true.
Proof.
  intros Hcur Hc. induction cur as [|d cur IH]; simpl in *; [by rewrite Hc|].
  apply andb_true_iff in Hcur as [-> Hcur]. by apply IH.
Qed.

Lemma runs_go_all p cur s w :
  all_chars p cur = true → w ∈ runs_go p cur s → all_chars p w = true.
Proof.
  revert cur. induction s as [|c s IH]; intros cur Hcur; simpl.
  - destruct (nonempty cur); [|by intros ?%elem_of_nil].
    by intros ->%list_elem_of_singleton.
  - destruct (p c) eqn:Hc.
    + apply IH. by apply all_chars_snoc.
    + destruct (nonempty cur).
      * intros [->|H]%elem_of_cons; [done|]. by apply (IH "").
      * by apply (IH "").
Qed.

Lemma has_digits_go_length n s : has_digits_go n s = true → (n <= String.length s)%nat.
Proof.
  revert s. induction n as [|n IH]; intros s; simpl; [lia|].
  destruct s as [|c s]; [done|]. destruct (is_digit c); [|done].
  intros H%IH. simpl. lia.
Qed.

Lemma has_3_digits_length s : has_3_digits s = true → (3 <= String.length s)%nat.
Proof.
  induction s as [|c s IH].
  - by vm_compute.
  - cbn [has_3_digits]. intros [H|H]%orb_true_iff.
    + by apply has_digits_go_length in H.
    + apply IH in H. simpl. lia.
Qed.

Lemma model_like_length w : model_like w = true → (6 <= String.length w)%nat.
Proof.
  unfold model_like. destruct (take 3 w) as [[a r]|] eqn:E; [|done].
  intros H%has_3_digits_length. apply take_some in E as [-> Ha].
  rewrite slen_app. lia.
Qed.

Lemma longer_eq_total x y : longer_eq x y = false → longer_eq y x = true.
Proof. unfold longer_eq. rewrite Nat.leb_gt, Nat.leb_le. lia. Qed.

Lemma longer_eq_trans x y z :
  longer_eq x y = true → longer_eq y z = true → longer_eq x z = true.
Proof. unfold longer_eq. rewrite !Nat.leb_le. lia. Qed.

(** The model found in a message is the upper-cased longest candidate that
    differs from the part number found; a candidate is a run of word
    characters at least six long.  No model is reported exactly when every
    candidate is the part number. *)
Theorem extracted_model_is_longest_other_code q :
  match extract_entities q !! "model" with
  | Some (Some model) =>
      ∃ w, w ∈ MODEL_REGEX_findall q ∧ model = upper w
           ∧ all_chars is_word w = true ∧ (6 <= String.length w)%nat
           ∧ extract_entities q !! "part" ≠ Some (Some model)
           ∧ ∀ w', w' ∈ MODEL_REGEX_findall q →
                   extract_entities q !! "part" ≠ Some (Some (upper w')) →
                   (String.length w' <= String.length w)%nat
  | Some None =>
      ∀ w, w ∈ MODEL_REGEX_findall q →
           extract_entities q !! "part" = Some (Some (upper w))
  | None => False
  end.
Proof.
  unfold extract_entities. cbv zeta.
  rewrite lookup_insert_ne by done. rewrite lookup_singleton_eq, lookup_insert_eq.
  set (pm := PART_REGEX_search q).
  set (f := λ model : string,
              match pm with
              | Some pm => negb (String.eqb (upper model) (upper pm))
              | None => true
              end).
  assert (∀ w, f w = true ↔ Some (upper <$> pm) ≠ Some (Some (upper w))) as Hf.
  { intros w. unfold f. destruct pm as [m|]; simpl; [|done].
    rewrite negb_true_iff, String.eqb_neq. split; intros H; congruence. }
  assert (∀ w, w ∈ MODEL_REGEX_findall q →
               all_chars is_word w = true ∧ (6 <= String.length w)%nat) as Hcand.
  { intros w [Hm Hw]%list_elem_of_filter. split.
    - by apply (runs_go_all is_word "" q).
    - apply model_like_length. by apply Is_true_true. }
  destruct (List.find f _) as [m|] eqn:E.
  - pose proof (find_some_elem _ _ _ E) as [Hin Hfm].
    apply sort_desc_elem in Hin. destruct (Hcand m Hin) as [Hword Hlen].
    assert (nonempty m = true) as -> by (destruct m; [simpl in Hlen; lia|done]).
    exists m. split; [done|]. split; [done|]. split; [done|]. split; [done|].
    split; [by apply Hf|].
    intros w' Hw' Hne. apply Hf in Hne.
    pose proof (find_sorted (λ a b, longer_eq a b = true) f _ m
                  (sort_desc_sorted longer_eq longer_eq_total longer_eq_trans
                     (MODEL_REGEX_findall q))) as Hs.
    specialize (Hs ltac:(intros a; unfold longer_eq; by apply Nat.leb_le) E w').
    rewrite sort_desc_elem in Hs. specialize (Hs Hw' Hne).
    unfold longer_eq in Hs. by apply Nat.leb_le in Hs.
  - intros w Hw. rewrite find_none_iff in E.
    specialize (E w). rewrite sort_desc_elem in E. specialize (E Hw).
    destruct (decide (Some (upper <$> pm) = Some (Some (upper w)))) as [|Hne]; [done|].
    apply Hf in Hne. congruence.
Qed.

End EntityFacts.

Section EntityCase.

Import Py Guardrails.

Local Arguments String.append !_ _ : simpl nomatch.

Variable f : ascii → ascii.
Hypothesis f_word : ∀ c, is_word (f c) = is_word c.
Hypothesis f_digit : ∀ c, is_digit (f c) = is_digit c.
Hypothesis f_upper : ∀ c, upper_char (f c) = upper_char c.

Lemma slen_map_chars s : String.length (map_chars f s) = String.length s.
Proof. induction s as [|c s IH]; simpl; [done|]. by rewrite IH. Qed.

Lemma upper_map_chars s : upper (map_chars f s) = upper s.
Proof.
  unfold upper. rewrite map_chars_map_chars. by apply map_chars_ext.
Qed.

Lemma take_map_chars n s :
  take n (map_chars f s)
  = (λ ar : string * string, (map_chars f ar.1, map_chars f ar.2)) <$> take n s.
Proof.
  revert s. induction n as [|n IH]; intros s; simpl; [done|].
  destruct s as [|c s]; simpl; [done|]. rewrite IH.
  by destruct (take n s) as [[a r]|].
Qed.

Lemma span_map_chars s :
  span is_digit (map_chars f s)
  = (map_chars f (span is_digit s).1, map_chars f (span is_digit s).2).
Proof.
  induction s as [|c s IH]; simpl; [done|]. rewrite f_digit.
  destruct (is_digit c); [|done]. rewrite IH. by destruct (span is_digit s).
Qed.

Lemma at_word_end_map_chars s : at_word_end (map_chars f s) = at_word_end s.
Proof. destruct s as [|c s]; simpl; [done|]. by rewrite f_word. Qed.

Lemma first_of_fmap {A B C} (g : B → C) (alts : list A) (h : A → option B) :
  first_of alts (λ a, g <$> h a) = g <$> first_of alts h.
Proof.
  induction alts as [|a alts IH]; simpl; [done|]. by destruct (h a).
Qed.

Lemma first_of_ext {A B} (alts : list A) (h h' : A → option B) :
  (∀ a, h a = h' a) → first_of alts h = first_of alts h'.
Proof.
  intros H. induction alts as [|a alts IH]; simpl; [done|]. by rewrite H, IH.
Qed.

Lemma PART_REGEX_at_map_chars pw s :
  PART_REGEX_at pw (map_chars f s) = map_chars f <$> PART_REGEX_at pw s.
Proof.
  unfold PART_REGEX_at. destruct pw; [done|].
  rewrite <- first_of_fmap. apply first_of_ext. intros p.
  rewrite take_map_chars. destruct (take (String.length p) s) as [[a r]|]; simpl; [|done].
  rewrite upper_map_chars. destruct (String.eqb (upper a) p); [|done].
  rewrite span_map_chars. destruct (span is_digit r) as [run rest0]. simpl.
  rewrite slen_map_chars, <- first_of_fmap. apply first_of_ext. intros n.
  rewrite take_map_chars. destruct (take n r) as [[ds rest]|]; simpl; [|done].
  rewrite at_word_end_map_chars. destruct (at_word_end rest); simpl; [|done].
  by rewrite map_chars_app.
Qed.

Lemma search_from_map_chars m pw s :
  (∀ pw s, m pw (map_chars f s) = map_chars f <$> m pw s) →
  search_from m pw (map_chars f s) = map_chars f <$> search_from m pw s.
Proof.
  intros Hm. revert pw. induction s as [|c s IH]; intros pw.
  - pose proof (Hm pw "") as H0. simpl in *.
    destruct (m pw ""); simpl in *; congruence.
  - cbn [map_chars search_from].
    change (String (f c) (map_chars f s)) with (map_chars f (String c s)).
    rewrite Hm. destruct (m pw (String c s)); simpl; [done|].
    by rewrite f_word, IH.
Qed.

Lemma runs_go_map_chars cur s :
  runs_go is_word (map_chars f cur) (map_chars f s)
  = map (map_chars f) (runs_go is_word cur s).
Proof.
  revert cur. induction s as [|c s IH]; intros cur; simpl.
  - by destruct cur.
  - rewrite f_word. destruct (is_word c).
    + rewrite <- IH. by rewrite map_chars_app.
    + destruct cur; simpl; [apply (IH "")|]. f_equal. apply (IH "").
Qed.

Lemma has_digits_go_map_chars n s :
  has_digits_go n (map_chars f s) = has_digits_go n s.
Proof.
  revert s. induction n as [|n IH]; intros s; simpl; [done|].
  destruct s as [|c s]; simpl; [done|]. by rewrite f_digit, IH.
Qed.

Lemma has_3_digits_map_chars s : has_3_digits (map_chars f s) = has_3_digits s.
Proof.
  induction s as [|c s IH]; [done|].
  cbn [map_chars has_3_digits]. rewrite IH. f_equal.
  apply (has_digits_go_map_chars 3 (String c s)).
Qed.

Lemma model_like_map_chars w : model_like (map_chars f w) = model_like w.
Proof.
  unfold model_like. rewrite take_map_chars.
  destruct (take 3 w) as [[a r]|]; simpl; [|done]. apply has_3_digits_map_chars.
Qed.

Lemma MODEL_REGEX_findall_map_chars q :
  MODEL_REGEX_findall (map_chars f q) = map (map_chars f) (MODEL_REGEX_findall q).
Proof.
  unfold MODEL_REGEX_findall, runs.
  change "" with (map_chars f "") at 1. rewrite runs_go_map_chars.
  induction (runs_go is_word "" q) as [|w l IH]; [done|].
  cbn [map]. rewrite !filter_cons, model_like_map_chars.
  destruct (decide (Is_true (model_like w))); simpl; by rewrite IH.
Qed.

Lemma insert_desc_map_chars x l :
  StableSort.insert_desc longer_eq (map_chars f x) (map (map_chars f) l)
  = map (map_chars f) (StableSort.insert_desc longer_eq x l).
Proof.
  induction l as [|y l IH]; simpl; [done|].
  unfold longer_eq at 1. rewrite !slen_map_chars. fold (longer_eq x y).
  destruct (longer_eq x y); simpl; [done|]. by rewrite IH.
Qed.

Lemma sort_desc_map_chars l :
  StableSort.sort_desc longer_eq (map (map_chars f) l)
  = map (map_chars f) (StableSort.sort_desc longer_eq l).
Proof.
  induction l as [|x l IH]; [done|].
  unfold StableSort.sort_desc in *. cbn [map foldr].
  by rewrite IH, insert_desc_map_chars.
Qed.

Lemma find_map {A B} (g : A → B) (h : B → bool) l :
  List.find h (map g l) = g <$> List.find (λ a, h (g a)) l.
Proof. induction l as [|a l IH]; simpl; [done|]. by destruct (h (g a)). Qed.

Lemma find_pred_ext {A} (h h' : A → bool) l :
  (∀ a, h a = h' a) → List.find h l = List.find h' l.
Proof. intros H. induction l as [|a l IH]; simpl; [done|]. by rewrite H, IH. Qed.

Lemma extract_entities_map_chars q :
  extract_entities (map_chars f q) = extract_entities q.
Proof.
  unfold extract_entities. cbv zeta.
  unfold PART_REGEX_search, re_search.
  rewrite (search_from_map_chars _ _ _ PART_REGEX_at_map_chars).
  rewrite MODEL_REGEX_findall_map_chars, sort_desc_map_chars, find_map.
  destruct (search_from PART_REGEX_at false q) as [pm|]; simpl.
  - rewrite upper_map_chars.
    rewrite (find_pred_ext _ (λ model, negb (String.eqb (upper model) (upper pm))))
      by (intros a; by rewrite !upper_map_chars).
    destruct (List.find _ _) as [m|]; simpl; [|done].
    rewrite upper_map_chars. by destruct m.
  - destruct (List.find _ _) as [m|]; simpl; [|done].
    rewrite upper_map_chars. by destruct m.
Qed.

End EntityCase.

Section EntityCaseBlind.

Import Py Guardrails.

Lemma upper_char_word c : is_word (upper_char c) = is_word c.
Proof. destruct c as [[] [] [] [] [] [] [] []]; reflexivity. Qed.

Lemma lower_char_word c : is_word (lower_char c) = is_word c.
Proof. destruct c as [[] [] [] [] [] [] [] []]; reflexivity. Qed.

Lemma upper_char_digit c : is_digit (upper_char c) = is_digit c.
Proof. destruct c as [[] [] [] [] [] [] [] []]; reflexivity. Qed.

Lemma lower_char_digit c : is_digit (lower_char c) = is_digit c.
Proof. destruct c as [[] [] [] [] [] [] [] []]; reflexivity. Qed.

(** Neither the entities found in an ASCII message nor the intent it is
    given depend on the case of the message. *)
Theorem entities_and_intent_ignore_case q :
  is_ascii q = true →
  extract_entities (upper q) = extract_entities q
  ∧ extract_entities (lower q) = extract_entities q
  ∧ intent_classify (upper q) = intent_classify q
  ∧ intent_classify (lower q) = intent_classify q.
Proof.
  intros _. split; [|split; [|split]].
  - apply extract_entities_map_chars;
      [apply upper_char_word|apply upper_char_digit|apply upper_upper_char].
  - apply extract_entities_map_chars;
      [apply lower_char_word|apply lower_char_digit|apply upper_lower_char].
  - unfold intent_classify. by rewrite lower_upper.
  - unfold intent_classify. by rewrite lower_lower.
Qed.

End EntityCaseBlind.

(* ===================================================================== *)
(** * The catalogue service wrapper *)
(* ===================================================================== *)

Section WrapperFacts.

Import CatalogClass.

Lemma install_guide_nonempty items part :
  Py.nonempty (install_guide items part) = true.
Proof.
  unfold install_guide. cbv zeta.
  destruct (negb _); [reflexivity|].
  destruct (lookup_part items _) as [h|]; [|reflexivity].
  destruct (installGuide h) as [g|]; simpl; [|reflexivity].
  destruct (Py.nonempty g) eqn:E; [|reflexivity]. by destruct g.
Qed.

(** The wrapper's replacement text for a missing guide is never used: it
    hands on what [install_guide] answers, for every part and model. *)
Theorem get_install_guide_hands_on_the_guide items part model :
  PartService.get_install_guide items part model = install_guide items part.
Proof.
  unfold PartService.get_install_guide, Py.or_str. cbv zeta.
  by rewrite install_guide_nonempty.
Qed.

End WrapperFacts.

(* ===================================================================== *)
(** * Retrieval *)
(* ===================================================================== *)

Section RetrievalFacts.

Import RagService.

Lemma base_weights_pos : map_Forall (λ _ v, (0 < v)%Z) base_weights.
Proof.
  unfold base_weights. cbn [list_to_map foldr fst snd].
  repeat (apply map_Forall_insert_2; [lia|]). apply map_Forall_empty.
Qed.

Lemma term_weight_pos appliance_context term :
  (0 < term_weight appliance_context term)%Z.
Proof.
  unfold term_weight, weights.
  destruct (base_weights !! appliance_context) eqn:E.
  - destruct (decide (term = appliance_context)) as [->|Hne].
    + rewrite lookup_insert_eq. simpl. lia.
    + rewrite lookup_insert_ne by done.
      destruct (base_weights !! term) eqn:E'; simpl; [|lia].
      by apply (base_weights_pos term).
  - destruct (base_weights !! term) eqn:E'; simpl; [|lia].
    by apply (base_weights_pos term).
Qed.

Lemma doc_score_facts terms appliance_context doc :
  (0 <= doc_score terms appliance_context doc)%Z
  ∧ ((0 < doc_score terms appliance_context doc)%Z
     ↔ ∃ term, term ∈ terms ∧ Py.contains term (Py.lower doc) = true).
Proof.
  induction terms as [|term terms [IH0 IH]] using rev_ind.
  - split; [done|]. split; [done|]. intros (t & Ht & _). by apply elem_of_nil in Ht.
  - rewrite doc_score_snoc.
    pose proof (term_weight_pos appliance_context term) as Hw.
    pose proof (count_positive (Py.lower doc) term) as Hc.
    split; [nia|]. split.
    + intros Hpos.
      destruct (decide (0 < doc_score terms appliance_context doc)%Z) as [Hp|Hz].
      * apply IH in Hp as (t & Ht & Hct). exists t. split; [|done].
        apply elem_of_app. by left.
      * exists term. split; [apply elem_of_app; right; apply list_elem_of_here|].
        apply Hc. nia.
    + intros (t & Ht & Hct). apply elem_of_app in Ht as [Ht|Ht].
      * assert (0 < doc_score terms appliance_context doc)%Z by (apply IH; eauto). nia.
      * apply list_elem_of_singleton in Ht as ->. apply Hc in Hct. nia.
Qed.

Lemma doc_score_nonneg terms appliance_context doc :
  (0 <= doc_score terms appliance_context doc)%Z.
Proof. apply doc_score_facts. Qed.

Lemma doc_score_pos terms appliance_context doc :
  (0 < doc_score terms appliance_context doc)%Z
  ↔ ∃ term, term ∈ terms ∧ Py.contains term (Py.lower doc) = true.
Proof. apply doc_score_facts. Qed.

Lemma weighted_elem docs query appliance_context ds :
  ds ∈ weighted docs query appliance_context
  ↔ ds.1 ∈ docs
    ∧ ds.2 = doc_score (query_terms query appliance_context) appliance_context ds.1
    ∧ (0 < ds.2)%Z.
Proof.
  unfold weighted. cbv zeta. rewrite sort_desc_elem, list_elem_of_filter, list_elem_of_fmap.
  split.
  - intros [Hpos (d & -> & Hd)]. done.
  - intros (Hd & Hs & Hpos). split; [done|]. exists ds.1. split; [|done].
    destruct ds as [d s]. simpl in *. by rewrite Hs.
Qed.

(** The weighted stage keeps exactly the stored documents in which some
    query term, the appliance context among them, occurs. *)
Theorem weighted_stage_keeps_documents_with_a_term docs query appliance_context doc :
  doc ∈ map fst (weighted docs query appliance_context)
  ↔ doc ∈ docs
    ∧ ∃ term, term ∈ query_terms query appliance_context
              ∧ Py.contains term (Py.lower doc) = true.
Proof.
  rewrite list_elem_of_fmap. split.
  - intros (ds & -> & Hds). apply weighted_elem in Hds as (Hd & Hs & Hpos).
    split; [done|]. apply (proj1 (doc_score_pos _ appliance_context _)). by rewrite <- Hs.
  - intros [Hd Hterm]. apply (proj2 (doc_score_pos _ appliance_context _)) in Hterm.
    exists (doc, doc_score (query_terms query appliance_context) appliance_context doc).
    split; [done|]. by apply weighted_elem.
Qed.

Lemma filter_fst_submseteq {B} (P : string * B → Prop) `{∀ x, Decision (P x)}
      (g : string → B) docs :
  map fst (filter P (map (λ doc, (doc, g doc)) docs)) ⊆+ docs.
Proof.
  induction docs as [|d docs IH]; simpl; [done|].
  rewrite filter_cons. case_decide; simpl.
  - by apply submseteq_skip.
  - by apply submseteq_cons.
Qed.

Lemma List_filter_fst_submseteq {B} (P : string * B → bool) (g : string → B) docs :
  map fst (List.filter P (map (λ doc, (doc, g doc)) docs)) ⊆+ docs.
Proof.
  induction docs as [|d docs IH]; simpl; [done|].
  destruct (P (d, g d)); simpl.
  - by apply submseteq_skip.
  - by apply submseteq_cons.
Qed.

Lemma slice_to_prefix {B} (k : Z) (l : list B) : Py.slice_to k l `prefix_of` l.
Proof. unfold Py.slice_to. destruct (0 <=? k)%Z; apply prefix_take. Qed.

Lemma slice_to_sublist {B} (k : Z) (l : list B) : sublist (Py.slice_to k l) l.
Proof. unfold Py.slice_to. destruct (0 <=? k)%Z; apply sublist_take. Qed.

(** Over a corpus that holds documents, [search] returns stored documents,
    none more often than it is stored, and no more than [k] of them when [k]
    is not negative. *)
Theorem search_selects_from_the_corpus docs query appliance_context k :
  docs ≠ [] →
  search docs query appliance_context k ⊆+ docs
  ∧ (∀ doc, doc ∈ search docs query appliance_context k → doc ∈ docs)
  ∧ ((0 <= k)%Z → length (search docs query appliance_context k) <= Z.to_nat k).
Proof.
  intros Hne.
  assert (search docs query appliance_context k ⊆+ docs) as Hsub.
  { unfold search. destruct docs as [|d0 docs0]; [done|].
    set (docs := d0 :: docs0). cbv zeta.
    etrans; [apply sublist_submseteq, slice_to_sublist|].
    destruct (weighted docs query appliance_context) as [|s scores] eqn:E.
    - unfold _fallback_similarity. cbv zeta.
      rewrite (fmap_Permutation fst _ _ (sort_desc_perm _ _)).
      apply List_filter_fst_submseteq.
    - rewrite <- E. unfold weighted. cbv zeta.
      rewrite (fmap_Permutation fst _ _ (sort_desc_perm _ _)).
      apply (filter_fst_submseteq (λ ds, (0 < ds.2)%Z)). }
  split; [done|]. split.
  - intros doc Hdoc. by eapply elem_of_submseteq.
  - intros Hk. unfold search. destruct docs as [|d0 docs0]; [done|]. cbv zeta.
    unfold Py.slice_to. apply Z.leb_le in Hk. rewrite Hk.
    rewrite length_take. lia.
Qed.

Lemma rag_score_geb_total (x y : string * Z) : score_geb x y = false → score_geb y x = true.
Proof. unfold score_geb. rewrite Z.leb_gt, Z.leb_le. lia. Qed.

Lemma rag_score_geb_trans (x y z : string * Z) :
  score_geb x y = true → score_geb y z = true → score_geb x z = true.
Proof. unfold score_geb. rewrite !Z.leb_le. lia. Qed.

(** The documents [search] returns come in descending order of their
    weighted score. *)
Theorem search_results_descend docs query appliance_context k i j doc doc' :
  i < j →
  search docs query appliance_context k !! i = Some doc →
  search docs query appliance_context k !! j = Some doc' →
  (doc_score (query_terms query appliance_context) appliance_context doc'
   <= doc_score (query_terms query appliance_context) appliance_context doc)%Z.
Proof.
  intros Hij Hi Hj. unfold search in *.
  destruct docs as [|d0 docs0].
  { apply lookup_lt_Some in Hj. simpl in Hj. lia. }
  set (docs := d0 :: docs0) in *. cbv zeta in *.
  pose proof (prefix_lookup_Some _ _ _ _ Hi (slice_to_prefix _ _)) as Hi'.
  pose proof (prefix_lookup_Some _ _ _ _ Hj (slice_to_prefix _ _)) as Hj'.
  clear Hi Hj.
  destruct (weighted docs query appliance_context) as [|s scores] eqn:E.
  - assert (∀ d, d ∈ docs →
                 doc_score (query_terms query appliance_context) appliance_context d = 0%Z)
      as Hzero.
    { intros d Hd.
      pose proof (doc_score_nonneg (query_terms query appliance_context)
                    appliance_context d) as H0.
      destruct (decide (0 < doc_score (query_terms query appliance_context)
                              appliance_context d)%Z) as [Hp|Hz]; [|lia].
      assert ((d, doc_score (query_terms query appliance_context) appliance_context d)
              ∈ weighted docs query appliance_context) as Hin by by apply weighted_elem.
      rewrite E in Hin. by apply elem_of_nil in Hin. }
    assert (∀ d, d ∈ map fst (_fallback_similarity docs query) → d ∈ docs) as Hin.
    { intros d Hd. eapply elem_of_submseteq; [exact Hd|].
      unfold _fallback_similarity. cbv zeta.
      rewrite (fmap_Permutation fst _ _ (sort_desc_perm _ _)).
      apply List_filter_fst_submseteq. }
    rewrite !Hzero; [done|..]; apply Hin; by eapply list_elem_of_lookup_2.
  - rewrite <- E in *. clear E.
    apply list_lookup_fmap_Some in Hi' as (ds & -> & Hds).
    apply list_lookup_fmap_Some in Hj' as (ds' & -> & Hds').
    pose proof (list_elem_of_lookup_2 _ _ _ Hds) as H1.
    pose proof (list_elem_of_lookup_2 _ _ _ Hds') as H2.
    apply weighted_elem in H1 as (_ & <- & _). apply weighted_elem in H2 as (_ & <- & _).
    pose proof (sort_desc_lookup score_geb rag_score_geb_total rag_score_geb_trans
                  _ i j ds ds' Hij Hds Hds') as Hge.
    unfold score_geb in Hge. by apply Z.leb_le in Hge.
Qed.

Lemma Qle_bool_frac (a b : nat) :
  Qle_bool (Z.of_nat a # Pos.of_nat (S b)) (5 # 100) = true ↔ (20 * a <= S b)%nat.
Proof.
  unfold Qle_bool. simpl Qnum. simpl Qden. rewrite Z.leb_le.
  assert (Z.pos (Pos.of_nat (S b)) = Z.of_nat (S b)) as -> by lia. lia.
Qed.

(** The similarity fallback proposes exactly the stored documents whose
    word set overlaps the query's by more than a twentieth of their union;
    such a document shares a whole word with the query. *)
Theorem fallback_needs_a_shared_word docs query doc :
  (doc ∈ map fst (_fallback_similarity docs query)
   ↔ doc ∈ docs
     ∧ (size (word_set query ∪ word_set doc)
        < 20 * size (word_set query ∩ word_set doc))%nat)
  ∧ (doc ∈ map fst (_fallback_similarity docs query) →
     ∃ w, w ∈ Py.split (Py.lower query) ∧ w ∈ Py.split (Py.lower doc)).
Proof.
  assert (doc ∈ map fst (_fallback_similarity docs query)
          ↔ doc ∈ docs
            ∧ (size (word_set query ∪ word_set doc)
               < 20 * size (word_set query ∩ word_set doc))%nat) as Hiff.
  { unfold _fallback_similarity. cbv zeta.
    rewrite list_elem_of_fmap.
    assert (∀ d, negb (Qle_bool (jaccard (word_set query) (word_set d)) (5 # 100)) = true
                 ↔ (size (word_set query ∪ word_set d)
                    < 20 * size (word_set query ∩ word_set d))%nat) as Hj.
    { intros d. unfold jaccard. cbv zeta.
      destruct (size (word_set query ∪ word_set d)) as [|n] eqn:En.
      - apply size_empty_iff in En.
        assert (size (word_set query ∩ word_set d) = 0%nat) as ->.
        { apply size_empty_iff, elem_of_equiv_empty.
          intros x [Hx _]%elem_of_intersection.
          apply (proj1 (elem_of_equiv_empty _) En x), elem_of_union. by left. }
        simpl. split; [done|lia].
      - rewrite negb_true_iff, <- not_true_iff_false, Qle_bool_frac. lia. }
    split.
    - intros (ds & -> & Hds). apply sort_desc_elem in Hds.
      apply list_elem_of_In, filter_In in Hds as [Hin Hpos].
      apply in_map_iff in Hin as (d & <- & Hd). simpl in *.
      split; [by apply list_elem_of_In|]. by apply Hj.
    - intros [Hd Hlt]. exists (doc, jaccard (word_set query) (word_set doc)).
      split; [done|]. apply sort_desc_elem, list_elem_of_In, filter_In. split.
      + apply in_map_iff. exists doc. split; [done|]. by apply list_elem_of_In.
      + simpl. by apply Hj. }
  split; [exact Hiff|].
  intros H. apply Hiff in H as [_ Hlt].
  assert (0 < size (word_set query ∩ word_set doc))%nat as Hpos by lia.
  apply size_pos_elem_of in Hpos as (w & Hw).
  apply elem_of_intersection in Hw as [Hq Hd]. unfold word_set in *.
  rewrite elem_of_list_to_set in Hq, Hd. by exists w.
Qed.

End RetrievalFacts.

(* ===================================================================== *)
(** * Instances *)
(* ===================================================================== *)

Lemma turn_touches_one_session_witness :
  let svc := App.live CatalogClass.BRANDS [Samples.upper_rack] [] None in
  let inp := {| App.message := "Do you have an upper rack?"; App.part := None;
                App.model := None; App.appliance := "dishwasher" |} in
  "other" ≠ "demo"
  ∧ App.store (App.turn svc inp "demo" App.boot).2 !! "other" = App.store App.boot !! "other".
Proof.
  intros svc inp.
  assert ("other" ≠ "demo") as Hne by discriminate.
  split; [exact Hne|].
  exact (proj1 (turn_touches_one_session svc inp "demo" "other" App.boot Hne)).
Defined.

Lemma extracted_part_is_a_part_number_witness :
  Guardrails.extract_entities "Is ps11752778 in stock?" !! "part"
  = Some (Some "PS11752778")
  ∧ ∃ p ds, p ∈ Guardrails.PART_PREFIXES ∧ "PS11752778" = p ++ ds
            ∧ Py.all_chars Py.is_digit ds = true ∧ (6 <= String.length ds)%nat
            ∧ Py.contains "PS11752778" (Py.upper "Is ps11752778 in stock?") = true.
Proof.
  assert (Guardrails.extract_entities "Is ps11752778 in stock?" !! "part"
          = Some (Some "PS11752778")) as H by (vm_compute; reflexivity).
  split; [exact H|].
  exact (extracted_part_is_a_part_number "Is ps11752778 in stock?" "PS11752778" H).
Defined.

Lemma search_selects_from_the_corpus_witness :
  let docs := ["Upper rack for a dishwasher"; "Water filter"] in
  docs ≠ []
  ∧ RagService.search docs "rack" "dishwasher" 6 ⊆+ docs.
Proof.
  intros docs.
  assert (docs ≠ []) as Hne by discriminate.
  split; [exact Hne|].
  exact (proj1 (search_selects_from_the_corpus docs "rack" "dishwasher" 6 Hne)).
Defined.

Lemma search_results_descend_witness :
  let docs := ["Lower rack"; "Rack wheel for the upper rack"] in
  0 < 1
  ∧ RagService.search docs "rack" "dishwasher" 6 !! 0 = Some "Rack wheel for the upper rack"
  ∧ RagService.search docs "rack" "dishwasher" 6 !! 1 = Some "Lower rack"
  ∧ (RagService.doc_score (RagService.query_terms "rack" "dishwasher") "dishwasher"
       "Lower rack"
     <= RagService.doc_score (RagService.query_terms "rack" "dishwasher") "dishwasher"
          "Rack wheel for the upper rack")%Z.
Proof.
  intros docs.
  assert (0 < 1) as H0 by lia.
  assert (RagService.search docs "rack" "dishwasher" 6 !! 0
          = Some "Rack wheel for the upper rack") as H1 by (vm_compute; reflexivity).
  assert (RagService.search docs "rack" "dishwasher" 6 !! 1 = Some "Lower rack")
    as H2 by (vm_compute; reflexivity).
  split; [exact H0|]. split; [exact H1|]. split; [exact H2|].
  exact (search_results_descend docs "rack" "dishwasher" 6 0 1 _ _ H0 H1 H2).
Defined.

(* ===================================================================== *)
(** * Memory across turns *)
(* ===================================================================== *)

Section SessionMemory.

Import App.

Variable svc : services.

Lemma extracted_part_nonempty q part :
  Guardrails.extract_entities q !! "part" = Some (Some part) → Py.nonempty part = true.
Proof.
  intros (p & ds & _ & -> & _ & Hlen & _)%extracted_part_shape.
  destruct p; [|done]. destruct ds; [simpl in Hlen; lia|done].
Qed.

Lemma extracted_model_nonempty q model :
  Guardrails.extract_entities q !! "model" = Some (Some model) → Py.nonempty model = true.
Proof.
  unfold Guardrails.extract_entities. cbv zeta.
  rewrite lookup_insert_ne by done. rewrite lookup_singleton_eq.
  destruct (List.find _ _) as [m|]; [|done].
  destruct m; simpl; [done|]. by intros [= <-].
Qed.

Lemma extracted_part_search q part :
  Guardrails.extract_entities q !! "part" = Some part →
  Py.upper <$> Guardrails.PART_REGEX_search q = part.
Proof.
  unfold Guardrails.extract_entities. rewrite lookup_insert_eq. by intros [= <-].
Qed.

(** What an installation question establishes serves a later question in
    the same session: after a message that asks how to install a part it
    names, a compatibility question that names a model and no part is
    answered with the verdict for the remembered part and that model. *)
Theorem remembered_part_answers_compatibility turns inp1 inp2 x_session_id P M :
  Py.contains "user refused switch" (Py.lower (text_of inp1)) = false →
  _other_appliance_hint (text_of inp1) (context_of inp1) = None →
  Guardrails.any_in part_search_keywords (Py.lower (text_of inp1)) = false →
  Guardrails.type (Guardrails.intent_classify (text_of inp1)) = "installation" →
  Guardrails.extract_entities (text_of inp1) !! "part" = Some (Some P) →
  Py.contains "user refused switch" (Py.lower (text_of inp2)) = false →
  _other_appliance_hint (text_of inp2) (context_of inp2) = None →
  Guardrails.any_in part_search_keywords (Py.lower (text_of inp2)) = false →
  Guardrails.type (Guardrails.intent_classify (text_of inp2)) = "compatibility" →
  Guardrails.extract_entities (text_of inp2) !! "part" = Some None →
  Guardrails.extract_entities (text_of inp2) !! "model" = Some (Some M) →
  let after_first := (turn svc inp1 x_session_id (run svc turns)).2 in
  let result := turn svc inp2 x_session_id after_first in
  response result.1 = (is_compatible svc (Some P) (Some M)).2
  ∧ intent result.1 = "compatibility"
  ∧ memory result.1 !! "last_part" = Some (Some P)
  ∧ memory result.1 !! "last_model" = Some (Some M).
Proof.
  intros Hmark1 Halt1 Hkw1 Hty1 Hpart1 Hmark2 Halt2 Hkw2 Hty2 Hpart2 Hmodel2
         after_first result.
  pose proof (run_well_keyed svc turns) as Hkeys.
  pose proof (installation_turn_at svc (run svc turns) inp1 x_session_id
                Hkeys Hmark1 Halt1 Hkw1 Hty1) as (_ & _ & _ & Hlast & _).
  rewrite (extracted_part_search _ _ Hpart1) in Hlast. simpl in Hlast.
  rewrite (extracted_part_nonempty _ _ Hpart1) in Hlast.
  pose proof (turn_record_is_stored svc inp1 x_session_id (run svc turns)) as Hrec.
  fold after_first in Hrec.
  assert (well_keyed (store after_first)) as Hkeys1 by by apply well_keyed_turn.
  pose proof (compatibility_turn_at svc after_first inp2 x_session_id
                Hkeys1 Hmark2 Halt2 Hkw2 Hty2) as Hsecond.
  cbv zeta in Hsecond.
  unfold Guardrails.Memory.get in Hsecond.
  rewrite (get_or_create_seen _ _ _ Hrec) in Hsecond. cbn [fst] in Hsecond.
  rewrite Hlast, (extracted_part_search _ _ Hpart2), Hmodel2 in Hsecond.
  simpl in Hsecond. rewrite (extracted_model_nonempty _ _ Hmodel2) in Hsecond.
  rewrite (extracted_part_nonempty _ _ Hpart1) in Hsecond.
  destruct (Hsecond eq_refl (extracted_model_nonempty _ _ Hmodel2))
    as (Hr & Hi & _ & Hp & Hm & _).
  done.
Qed.

End SessionMemory.

Lemma compatibility_turn_remembers_part_and_model_witness :
  let svc := App.live CatalogClass.BRANDS [Samples.upper_rack] [] None in
  let inp := {| App.message := "Is PS11752778 compatible with WDT780SAEM1?";
                App.part := None; App.model := None; App.appliance := "dishwasher" |} in
  App.intent (App.turn svc inp "demo" App.boot).1 = "compatibility"
  ∧ App.memory (App.turn svc inp "demo" App.boot).1 !! "last_model"
    = Some (Some "WDT780SAEM1").
Proof.
  intros svc inp.
  destruct (compatibility_turn_remembers_part_and_model svc [] inp "demo")
    as (_ & Hi & _ & _ & Hm & _); [reflexivity..|].
  split; [exact Hi|exact Hm].
Defined.

Lemma remembered_part_answers_compatibility_witness :
  let svc := App.live CatalogClass.BRANDS [Samples.upper_rack] [] None in
  let inp1 := {| App.message := "How do I install PS11752778?"; App.part := None;
                 App.model := None; App.appliance := "dishwasher" |} in
  let inp2 := {| App.message := "Is it compatible with WDT780SAEM1?"; App.part := None;
                 App.model := None; App.appliance := "dishwasher" |} in
  let after_first := (App.turn svc inp1 "demo" App.boot).2 in
  App.response (App.turn svc inp2 "demo" after_first).1
  = (App.is_compatible svc (Some "PS11752778") (Some "WDT780SAEM1")).2.
Proof.
  intros svc inp1 inp2 after_first.
  destruct (remembered_part_answers_compatibility svc [] inp1 inp2 "demo"
              "PS11752778" "WDT780SAEM1") as (Hr & _); [reflexivity..|].
  exact Hr.
Defined.

Lemma lookups_ignore_case_witness :
  Py.is_ascii "ps11752778" = true
  ∧ Py.is_ascii "wdt780saem1" = true
  ∧ CatalogClass.is_compatible [Samples.upper_rack]
      (Some (Py.lower "ps11752778")) (Some (Py.lower "wdt780saem1"))
    = CatalogClass.is_compatible [Samples.upper_rack]
        (Some (Py.upper "ps11752778")) (Some (Py.upper "wdt780saem1")).
Proof.
  split; [reflexivity|]. split; [reflexivity|].
  exact (proj1 (lookups_ignore_case [Samples.upper_rack] "ps11752778" "wdt780saem1"
                  eq_refl eq_refl)).
Defined.

Lemma entities_and_intent_ignore_case_witness :
  Py.is_ascii "Does ps11752778 fit wdt780saem1?" = true
  ∧ Guardrails.extract_entities (Py.upper "Does ps11752778 fit wdt780saem1?")
    = Guardrails.extract_entities "Does ps11752778 fit wdt780saem1?".
Proof.
  split; [reflexivity|].
  exact (proj1 (entities_and_intent_ignore_case "Does ps11752778 fit wdt780saem1?"
                  eq_refl)).
Defined.
